(** * TOPSIS engine of [app.py]: a shallow embedding and its properties

    The numeric core of the application is the five-stage TOPSIS pipeline
    ([normalize_matrix], [calculate_weighted_matrix], [find_ideal_solutions],
    [calculate_distances], [calculate_preference_values]), its driver
    [perform_topsis_calculation], and the ranking built by the
    [calculate_topsis] route.  The code is written against NumPy, so the
    embedding has three layers:

    - a small model of Python's exceptions ([exn], [result]);
    - a model of the NumPy arrays the code manipulates ([ndarray]: 0-d, 1-d
      and 2-d arrays with broadcasting and axis reductions), generic in the
      element type through the class [Float64];
    - the functions of [app.py], transcribed statement by statement.

    Two instances of [Float64] are given.  [binary64] is IEEE 754 double
    precision (Rocq's primitive floats): it runs, and is used to evaluate the
    code on concrete inputs.  [xreal] is the idealised arithmetic the
    general theorems are proved in: real numbers extended with the IEEE
    special values NaN, +inf and -inf.  In [xreal] finite arithmetic is
    exact (no rounding, no overflow, no underflow) and there is one zero,
    which divides like +0 (every divisor in the pipeline is a square root or
    a sum of square roots, hence never -0).  A theorem about [xreal] is a
    theorem about the calculation in exact arithmetic; what binary64 keeps
    of it is stated for every arithmetic or for binary64 itself, and where
    binary64 breaks it a lemma runs the code at such an input.

    The routes that read and write the database are embedded as well, as
    functions on the five tables, with the URL map as a step function
    ([handle]); see the section on the database for what is taken from
    SQLAlchemy, bcrypt and the clock. *)

From Stdlib Require Import PrimFloat.
From Stdlib Require FloatAxioms FloatOps SpecFloat.
From Stdlib Require Import String Bool Arith PeanoNat Lia List.
From Stdlib Require Import Reals Lra.
From Stdlib Require Import Permutation Sorted.
Import ListNotations.

Set Implicit Arguments.

(** ** Python exceptions *)

Inductive exn : Type :=
| ValueError   (* shapes that cannot be broadcast, ragged nested lists,
                  reductions of empty arrays *)
| IndexError   (* list, tuple or array index out of range *)
| TypeError
| AxisError.

Inductive result (A : Type) : Type :=
| Ok (a : A)
| Raise (e : exn).

Arguments Ok {A} a.
Arguments Raise {A} e.

Definition bind {A B : Type} (r : result A) (k : A -> result B) : result B :=
  match r with
  | Ok a => k a
  | Raise e => Raise e
  end.

Notation "x <- r ;; k" := (bind r (fun x => k))
  (at level 61, r at next level, right associativity).
Notation "' p <- r ;; k" := (bind r (fun p => k))
  (at level 61, p pattern, r at next level, right associativity).

Definition is_ok {A : Type} (r : result A) : bool :=
  match r with
  | Ok _ => true
  | Raise _ => false
  end.

(** [l[j]] on a Python list or tuple, for a non-negative [j]. *)
Definition getitem {A : Type} (l : list A) (j : nat) : result A :=
  match nth_error l j with
  | Some x => Ok x
  | None => Raise IndexError
  end.

(** [for j in range(n): st = body(j, st)], an exception leaving the loop. *)
Definition for_range {S : Type} (n : nat) (body : nat -> S -> result S)
    (init : S) : result S :=
  fold_left (fun st j => s <- st ;; body j s) (seq 0 n) (Ok init).

Fixpoint zip_with {A B C : Type} (f : A -> B -> C) (u : list A) (v : list B)
    : list C :=
  match u, v with
  | x :: u', y :: v' => f x y :: zip_with f u' v'
  | _, _ => []
  end.

Fixpoint set_nth {A : Type} (l : list A) (j : nat) (x : A) : list A :=
  match l, j with
  | [], _ => []
  | _ :: l', O => x :: l'
  | y :: l', S j' => y :: set_nth l' j' x
  end.

(** [enumerate(l)] *)
Definition enumerate {A : Type} (l : list A) : list (nat * A) :=
  combine (seq 0 (length l)) l.

(** ** The float64 interface the code relies on *)

Class Float64 (F : Type) : Type := {
  f_zero : F;
  f_max : F;                       (* np.finfo(np.float64).max *)
  f_min : F;                       (* np.finfo(np.float64).min *)
  f_add : F -> F -> F;
  f_sub : F -> F -> F;
  f_mul : F -> F -> F;
  f_div : F -> F -> F;
  f_sqrt : F -> F;
  f_ltb : F -> F -> bool;          (* [<], false when an operand is NaN *)
  f_leb : F -> F -> bool;          (* [<=], false when an operand is NaN *)
  f_isnan : F -> bool;
  f_isposinf : F -> bool;
  f_isneginf : F -> bool
}.

(** ** NumPy arrays of rank at most two *)

Section Numpy.
Context {F : Type} {FO : Float64 F}.

(** [Arr2 n rows] has shape [(length rows, n)]; every row has [n]
    entries. *)
Inductive ndarray : Type :=
| Arr0 (x : F)
| Arr1 (v : list F)
| Arr2 (ncols : nat) (rows : list (list F)).

Definition shape (a : ndarray) : list nat :=
  match a with
  | Arr0 _ => []
  | Arr1 v => [length v]
  | Arr2 n rows => [length rows; n]
  end.

(** [np.array(data)] for a list of lists of numbers.  An empty list gives
    the 1-d array of shape [(0,)].  Rows of unequal lengths raise
    [ValueError] (NumPy 1.24 and later; earlier versions build an array of
    list objects on which [matrix**2] raises, so the calculation raises in
    both).  The entries are floats: the route reads them from a float
    column, and the integer 0 it supplies for a missing value becomes 0.0
    in the array (or, in a matrix of such zeros only, at the division).
    A matrix of Python integers, which NumPy stores as int64 and whose
    squares wrap around, is not an input of this model. *)
Definition np_array (data : list (list F)) : result ndarray :=
  match data with
  | [] => Ok (Arr1 [])
  | r :: rs =>
      if forallb (fun r' => length r' =? length r) rs
      then Ok (Arr2 (length r) data)
      else Raise ValueError
  end.

(** Broadcasting of one axis: equal lengths pair up, a length of one is
    stretched. *)
Definition compat (a b : nat) : bool := (a =? b) || (a =? 1) || (b =? 1).

Definition bdim (a b : nat) : nat := if a =? 1 then b else a.

Definition bc_list {A B C : Type} (op : A -> B -> C) (u : list A)
    (v : list B) : list C :=
  if length u =? length v then zip_with op u v
  else match u, v with
       | [x], _ => map (op x) v
       | _, [y] => map (fun x => op x y) u
       | _, _ => []
       end.

(** A binary ufunc: the shapes are aligned on the right, checked, and the
    operation applied element by element. *)
Definition ufunc2 (op : F -> F -> F) (a b : ndarray) : result ndarray :=
  match a, b with
  | Arr0 x, Arr0 y => Ok (Arr0 (op x y))
  | Arr0 x, Arr1 v => Ok (Arr1 (map (op x) v))
  | Arr1 u, Arr0 y => Ok (Arr1 (map (fun x => op x y) u))
  | Arr0 x, Arr2 n rows => Ok (Arr2 n (map (map (op x)) rows))
  | Arr2 n rows, Arr0 y => Ok (Arr2 n (map (map (fun x => op x y)) rows))
  | Arr1 u, Arr1 v =>
      if compat (length u) (length v) then Ok (Arr1 (bc_list op u v))
      else Raise ValueError
  | Arr2 n rows, Arr1 v =>
      if compat n (length v)
      then Ok (Arr2 (bdim n (length v))
                 (map (fun r => bc_list op r v) rows))
      else Raise ValueError
  | Arr1 u, Arr2 n rows =>
      if compat (length u) n
      then Ok (Arr2 (bdim (length u) n)
                 (map (fun r => bc_list op u r) rows))
      else Raise ValueError
  | Arr2 n1 rows1, Arr2 n2 rows2 =>
      if compat (length rows1) (length rows2) && compat n1 n2
      then Ok (Arr2 (bdim n1 n2) (bc_list (bc_list op) rows1 rows2))
      else Raise ValueError
  end.

Definition ufunc1 (f : F -> F) (a : ndarray) : ndarray :=
  match a with
  | Arr0 x => Arr0 (f x)
  | Arr1 v => Arr1 (map f v)
  | Arr2 n rows => Arr2 n (map (map f) rows)
  end.

Definition np_add := ufunc2 f_add.
Definition np_subtract := ufunc2 f_sub.
Definition np_multiply := ufunc2 f_mul.
Definition np_divide := ufunc2 f_div.
Definition np_sqrt := ufunc1 f_sqrt.

(** [a**2]: NumPy evaluates a power with the scalar exponent 2 as the
    square [x*x]. *)
Definition np_square := ufunc1 (fun x => f_mul x x).

(** [np.sum(a, axis=axis)], accumulating from zero in index order.
    NumPy adds a contiguous run of eight or more numbers pairwise; that
    changes the last bits of a binary64 sum, not the sum in exact
    arithmetic.  No statement below depends on the order: those about
    binary64 values are about sums of zeros, about a square root whatever
    its argument, or are evaluated on rows of fewer than eight entries. *)
Definition np_sum (a : ndarray) (axis : nat) : result ndarray :=
  match a, axis with
  | Arr2 n rows, 0 =>
      Ok (Arr1 (fold_left (zip_with f_add) rows (repeat f_zero n)))
  | Arr2 n rows, 1 => Ok (Arr1 (map (fun r => fold_left f_add r f_zero) rows))
  | Arr1 v, 0 => Ok (Arr0 (fold_left f_add v f_zero))
  | _, _ => Raise AxisError
  end.

(** [np.maximum] and [np.minimum]: a NaN operand wins.  Of two operands
    that compare equal the first is kept; they differ only when they are
    the zeros +0.0 and -0.0, of which NumPy's vectorised reduction may
    return either. *)
Definition np_maximum (a b : F) : F :=
  if f_leb b a || f_isnan a then a else b.

Definition np_minimum (a b : F) : F :=
  if f_leb a b || f_isnan a then a else b.

(** [a.max()] and [a.min()]: a reduction without identity. *)
Definition reduce (op : F -> F -> F) (a : ndarray) : result F :=
  match a with
  | Arr0 x => Ok x
  | Arr1 v =>
      match v with
      | [] => Raise ValueError
      | x :: v' => Ok (fold_left op v' x)
      end
  | Arr2 _ rows =>
      match concat rows with
      | [] => Raise ValueError
      | x :: v' => Ok (fold_left op v' x)
      end
  end.

Definition amax := reduce np_maximum.
Definition amin := reduce np_minimum.

(** [a[:, j]] *)
Definition column (a : ndarray) (j : nat) : result ndarray :=
  match a with
  | Arr2 n rows =>
      if j <? n then Ok (Arr1 (map (fun r => nth j r f_zero) rows))
      else Raise IndexError
  | _ => Raise IndexError
  end.

Definition np_zeros (n : nat) : ndarray := Arr1 (repeat f_zero n).

(** [a[j] = x] for a scalar [x]. *)
Definition setitem (a : ndarray) (j : nat) (x : F) : result ndarray :=
  match a with
  | Arr0 _ => Raise IndexError
  | Arr1 v =>
      if j <? length v then Ok (Arr1 (set_nth v j x)) else Raise IndexError
  | Arr2 n rows =>
      if j <? length rows then Ok (Arr2 n (set_nth rows j (repeat x n)))
      else Raise IndexError
  end.

(** [np.nan_to_num(V, nan=0.0)]: NaN becomes [0.0]; the infinities, whose
    replacements are left at their defaults, become the largest and the
    smallest finite float. *)
Definition nan_to_num_elt (x : F) : F :=
  if f_isnan x then f_zero
  else if f_isposinf x then f_max
  else if f_isneginf x then f_min
  else x.

Definition nan_to_num := ufunc1 nan_to_num_elt.

(** ** The TOPSIS functions of [app.py] *)

Definition normalize_matrix (matrix : ndarray) : result ndarray :=
  s <- np_sum (np_square matrix) 0 ;;
  let denominator := np_sqrt s in
  np_divide matrix denominator.

Definition calculate_weighted_matrix (normalized_matrix weights : ndarray)
    : result ndarray :=
  np_multiply normalized_matrix weights.

Definition find_ideal_solutions (weighted_matrix : ndarray)
    (criteria_types : list string) : result (ndarray * ndarray) :=
  n <- getitem (shape weighted_matrix) 1 ;;
  for_range n
    (fun j '(A_plus, A_minus) =>
       t <- getitem criteria_types j ;;
       if String.eqb t "benefit" then
         c1 <- column weighted_matrix j ;;
         hi <- amax c1 ;;
         A_plus' <- setitem A_plus j hi ;;
         c2 <- column weighted_matrix j ;;
         lo <- amin c2 ;;
         A_minus' <- setitem A_minus j lo ;;
         Ok (A_plus', A_minus')
       else
         c1 <- column weighted_matrix j ;;
         lo <- amin c1 ;;
         A_plus' <- setitem A_plus j lo ;;
         c2 <- column weighted_matrix j ;;
         hi <- amax c2 ;;
         A_minus' <- setitem A_minus j hi ;;
         Ok (A_plus', A_minus'))
    (np_zeros n, np_zeros n).

Definition calculate_distances (weighted_matrix A_plus A_minus : ndarray)
    : result (ndarray * ndarray) :=
  dp <- np_subtract weighted_matrix A_plus ;;
  sp <- np_sum (np_square dp) 1 ;;
  let D_plus := np_sqrt sp in
  dm <- np_subtract weighted_matrix A_minus ;;
  sm <- np_sum (np_square dm) 1 ;;
  let D_minus := np_sqrt sm in
  Ok (D_plus, D_minus).

Definition calculate_preference_values (D_plus D_minus : ndarray)
    : result ndarray :=
  total <- np_add D_plus D_minus ;;
  V <- np_divide D_minus total ;;
  Ok (nan_to_num V).

(** The dictionary returned by [perform_topsis_calculation].  [tolist()]
    only changes the container, so the fields keep the arrays. *)
Record TopsisResult : Type := {
  normalized_matrix : ndarray;
  weighted_matrix : ndarray;
  A_plus : ndarray;
  A_minus : ndarray;
  D_plus : ndarray;
  D_minus : ndarray;
  preference_values : ndarray
}.

Definition perform_topsis_calculation (alternatives_data : list (list F))
    (criteria_weights : list F) (criteria_types : list string)
    : result TopsisResult :=
  matrix <- np_array alternatives_data ;;
  let weights := Arr1 criteria_weights in
  normalized <- normalize_matrix matrix ;;
  weighted <- calculate_weighted_matrix normalized weights ;;
  '(Ap, Am) <- find_ideal_solutions weighted criteria_types ;;
  '(Dp, Dm) <- calculate_distances weighted Ap Am ;;
  V <- calculate_preference_values Dp Dm ;;
  Ok {| normalized_matrix := normalized;
        weighted_matrix := weighted;
        A_plus := Ap;
        A_minus := Am;
        D_plus := Dp;
        D_minus := Dm;
        preference_values := V |}.

(** ** The ranking of the [calculate_topsis] route *)

(** Python's [sorted] is stable and compares keys with [<] only.  On keys
    that [<] orders totally every stable sort returns the same list; the
    model is insertion sort.  With a NaN among the keys the order CPython
    returns depends on its own algorithm and can differ from this one's;
    the keys of the route are never NaN ([np.nan_to_num]), and what is
    proved for arbitrary keys does not depend on the order. *)
Fixpoint insert_by {A : Type} (key : A -> F) (x : A) (l : list A) : list A :=
  match l with
  | [] => [x]
  | y :: l' =>
      if f_ltb (key y) (key x) then y :: insert_by key x l'
      else x :: l
  end.

Fixpoint sort_by {A : Type} (key : A -> F) (l : list A) : list A :=
  match l with
  | [] => []
  | x :: l' => insert_by key x (sort_by key l')
  end.

(** [sorted(l, key=key, reverse=True)]: CPython reverses the list, sorts
    it, and reverses the outcome, which keeps equal keys in their
    original order. *)
Definition sorted_reverse {A : Type} (key : A -> F) (l : list A) : list A :=
  rev (sort_by key (rev l)).

Record RankEntry : Type := {
  rank : nat;
  alternative_index : nat;
  alternative_name : string;
  value : F
}.

Fixpoint mapM {A B : Type} (f : A -> result B) (l : list A)
    : result (list B) :=
  match l with
  | [] => Ok []
  | x :: l' => y <- f x ;; ys <- mapM f l' ;; Ok (y :: ys)
  end.

(** Lines "Create ranking" of the route.  [preference_values] is the list
    [V.tolist()]; [V] is the quotient of two [axis=1] sums, hence 1-d
    (lemma [preference_values_rank1]). *)
Definition create_ranking (results : TopsisResult)
    (alternative_names : list string) : result (list RankEntry) :=
  match preference_values results with
  | Arr1 preference_values =>
      let ranking :=
        sorted_reverse (fun x => snd x) (enumerate preference_values) in
      mapM (fun '(i, rk) =>
              name <- getitem alternative_names (fst rk) ;;
              Ok {| rank := i + 1;
                    alternative_index := fst rk;
                    alternative_name := name;
                    value := snd rk |})
           (enumerate ranking)
  | _ => Raise TypeError
  end.

(** The part of the route from "Perform TOPSIS calculation" on, for the
    matrix, weights, types and names it has assembled. *)
Definition topsis_ranking (alternatives_data : list (list F))
    (criteria_weights : list F) (criteria_types : list string)
    (alternative_names : list string)
    : result (TopsisResult * list RankEntry) :=
  results <- perform_topsis_calculation alternatives_data criteria_weights
               criteria_types ;;
  ranking <- create_ranking results alternative_names ;;
  Ok (results, ranking).

(** The rows of the database the route reads. *)
Record AlternativeCriterionValue : Type := {
  acv_criterion_id : nat;
  acv_value : F
}.

Record Alternative : Type := {
  alt_name : string;
  alt_values : list AlternativeCriterionValue
}.

Record Criterion : Type := {
  crit_id : nat;
  crit_name : string;
  criterion_type : string;
  weight : F
}.

Record Project : Type := {
  criteria : list Criterion;
  alternatives : list Alternative
}.

Inductive response : Type :=
| Http200 (results : TopsisResult) (alternative_names : list string)
    (criteria_names : list string) (ranking : list RankEntry)
| Http400
| Http404.

(** [next((v.value for v in alt.values if v.criterion_id == crit.id), 0)] *)
Definition value_of (alt : Alternative) (crit : Criterion) : F :=
  match find (fun v => acv_criterion_id v =? crit_id crit) (alt_values alt)
  with
  | Some v => acv_value v
  | None => f_zero
  end.

Definition calculate_topsis (project : option Project) : result response :=
  match project with
  | None => Ok Http404
  | Some project =>
      match criteria project, alternatives project with
      | [], _ | _, [] => Ok Http400
      | _, _ =>
          let criteria_weights := map weight (criteria project) in
          let criteria_types := map criterion_type (criteria project) in
          let alternative_names := map alt_name (alternatives project) in
          let alternatives_data :=
            map (fun alt => map (value_of alt) (criteria project))
              (alternatives project) in
          '(results, ranking) <-
            topsis_ranking alternatives_data criteria_weights criteria_types
              alternative_names ;;
          Ok (Http200 results alternative_names
                (map crit_name (criteria project)) ranking)
      end
  end.

End Numpy.

Arguments ndarray F : clear implicits.
Arguments TopsisResult F : clear implicits.
Arguments RankEntry F : clear implicits.
Arguments Project F : clear implicits.
Arguments Criterion F : clear implicits.
Arguments Alternative F : clear implicits.
Arguments AlternativeCriterionValue F : clear implicits.
Arguments response F : clear implicits.

(** ** IEEE 754 binary64 *)

#[export] Instance binary64 : Float64 float := {|
  f_zero := 0%float;
  f_max := 0x1.fffffffffffffp+1023%float;
  f_min := (-0x1.fffffffffffffp+1023)%float;
  f_add := PrimFloat.add;
  f_sub := PrimFloat.sub;
  f_mul := PrimFloat.mul;
  f_div := PrimFloat.div;
  f_sqrt := PrimFloat.sqrt;
  f_ltb := PrimFloat.ltb;
  f_leb := PrimFloat.leb;
  f_isnan := PrimFloat.is_nan;
  f_isposinf := fun x => PrimFloat.eqb x infinity;
  f_isneginf := fun x => PrimFloat.eqb x neg_infinity
|}.

(** A binary64 number that is neither an infinity nor a NaN. *)
Definition is_finite64 (x : float) : bool :=
  match FloatOps.Prim2SF x with
  | SpecFloat.S754_zero _ | SpecFloat.S754_finite _ _ _ => true
  | _ => false
  end.

(** ** Extended reals: exact arithmetic with the IEEE special values *)

Inductive xreal : Type :=
| Fin (r : R)
| PInf
| NInf
| NaN.

Definition Rltb (a b : R) : bool := if Rlt_dec a b then true else false.
Definition Rleb (a b : R) : bool := if Rle_dec a b then true else false.
Definition Reqb (a b : R) : bool := if Req_dec_T a b then true else false.

Inductive sign : Type := Neg | Zer | Pos.

(** The sign of a value that is not NaN. *)
Definition xsign (x : xreal) : sign :=
  match x with
  | Fin r => if Rltb r 0 then Neg else if Reqb r 0 then Zer else Pos
  | PInf => Pos
  | NInf => Neg
  | NaN => Zer
  end.

Definition sign_mul (s t : sign) : sign :=
  match s, t with
  | Zer, _ | _, Zer => Zer
  | Pos, Pos | Neg, Neg => Pos
  | _, _ => Neg
  end.

(** An infinity of the given sign; the sign of [0 * inf] and of [0 / 0]
    gives NaN. *)
Definition inf_of_sign (s : sign) : xreal :=
  match s with
  | Pos => PInf
  | Neg => NInf
  | Zer => NaN
  end.

Definition xopp (x : xreal) : xreal :=
  match x with
  | Fin r => Fin (- r)
  | PInf => NInf
  | NInf => PInf
  | NaN => NaN
  end.

Definition xadd (x y : xreal) : xreal :=
  match x, y with
  | NaN, _ | _, NaN => NaN
  | Fin a, Fin b => Fin (a + b)
  | PInf, NInf | NInf, PInf => NaN
  | PInf, _ | _, PInf => PInf
  | NInf, _ | _, NInf => NInf
  end.

Definition xsub (x y : xreal) : xreal := xadd x (xopp y).

Definition xmul (x y : xreal) : xreal :=
  match x, y with
  | NaN, _ | _, NaN => NaN
  | Fin a, Fin b => Fin (a * b)
  | _, _ => inf_of_sign (sign_mul (xsign x) (xsign y))
  end.

Definition xdiv (x y : xreal) : xreal :=
  match x, y with
  | NaN, _ | _, NaN => NaN
  | Fin a, Fin b =>
      if Reqb b 0 then inf_of_sign (xsign x) else Fin (a / b)
  | Fin _, _ => Fin 0
  | _, Fin b => inf_of_sign (sign_mul (xsign x) (if Rltb b 0 then Neg else Pos))
  | _, _ => NaN
  end.

Definition xsqrt (x : xreal) : xreal :=
  match x with
  | Fin r => if Rltb r 0 then NaN else Fin (sqrt r)
  | PInf => PInf
  | NInf => NaN
  | NaN => NaN
  end.

Definition xltb (x y : xreal) : bool :=
  match x, y with
  | NaN, _ | _, NaN => false
  | Fin a, Fin b => Rltb a b
  | NInf, NInf | PInf, _ | _, NInf => false
  | _, _ => true
  end.

Definition xleb (x y : xreal) : bool :=
  match x, y with
  | NaN, _ | _, NaN => false
  | Fin a, Fin b => Rleb a b
  | NInf, _ | _, PInf => true
  | _, _ => false
  end.

Definition xisnan (x : xreal) : bool :=
  match x with NaN => true | _ => false end.

Definition xisposinf (x : xreal) : bool :=
  match x with PInf => true | _ => false end.

Definition xisneginf (x : xreal) : bool :=
  match x with NInf => true | _ => false end.

(** The largest finite binary64 number, [(2 - 2^-52) * 2^1023]. *)
Definition float_max : R := ((2 - / 2 ^ 52) * 2 ^ 1023)%R.

#[export] Instance xreal_float : Float64 xreal := {|
  f_zero := Fin 0;
  f_max := Fin float_max;
  f_min := Fin (- float_max);
  f_add := xadd;
  f_sub := xsub;
  f_mul := xmul;
  f_div := xdiv;
  f_sqrt := xsqrt;
  f_ltb := xltb;
  f_leb := xleb;
  f_isnan := xisnan;
  f_isposinf := xisposinf;
  f_isneginf := xisneginf
|}.

(** ** The stages on lists

    What the array code computes once the shapes are known to agree,
    written on plain lists.  The lemmas of section [Shapes] relate the
    array functions to these. *)

Section Lists.
Context {F : Type} {FO : Float64 F}.

Definition rectangular (n : nat) (rows : list (list F)) : Prop :=
  Forall (fun r => length r = n) rows.

Definition sq (x : F) : F := f_mul x x.

Definition row_sum (r : list F) : F := fold_left f_add r f_zero.

Definition col_sums (n : nat) (rows : list (list F)) : list F :=
  fold_left (zip_with f_add) rows (repeat f_zero n).

Definition col (rows : list (list F)) (j : nat) : list F :=
  map (fun r => nth j r f_zero) rows.

Definition denominators (n : nat) (rows : list (list F)) : list F :=
  map f_sqrt (col_sums n (map (map sq) rows)).

Definition norm_rows (n : nat) (rows : list (list F)) : list (list F) :=
  map (fun r => bc_list f_div r (denominators n rows)) rows.

Definition weight_rows (weights : list F) (rows : list (list F))
    : list (list F) :=
  map (fun r => bc_list f_mul r weights) rows.

Definition col_reduce (op : F -> F -> F) (rows : list (list F)) (j : nat)
    : F :=
  match col rows j with
  | [] => f_zero
  | x :: v => fold_left op v x
  end.

Definition is_benefit (types : list string) (j : nat) : bool :=
  String.eqb (nth j types EmptyString) "benefit".

Definition ideal_plus (types : list string) (rows : list (list F))
    (j : nat) : F :=
  if is_benefit types j then col_reduce np_maximum rows j
  else col_reduce np_minimum rows j.

Definition ideal_minus (types : list string) (rows : list (list F))
    (j : nat) : F :=
  if is_benefit types j then col_reduce np_minimum rows j
  else col_reduce np_maximum rows j.

Definition dist (a r : list F) : F :=
  f_sqrt (row_sum (map sq (bc_list f_sub r a))).

Definition scores (dp dm : list F) : list F :=
  map nan_to_num_elt (bc_list f_div dm (bc_list f_add dp dm)).

(** The preference score of a weighted row. *)
Definition score_of (ap am r : list F) : F :=
  nan_to_num_elt (f_div (dist am r) (f_add (dist ap r) (dist am r))).

Definition stages (data : list (list F)) (weights : list F)
    (types : list string) : TopsisResult F :=
  let n := length (hd [] data) in
  let n' := bdim n (length weights) in
  let normalized := norm_rows n data in
  let weighted := weight_rows weights normalized in
  let ap := map (ideal_plus types weighted) (seq 0 n') in
  let am := map (ideal_minus types weighted) (seq 0 n') in
  let dp := map (dist ap) weighted in
  let dm := map (dist am) weighted in
  {| normalized_matrix := Arr2 n normalized;
     weighted_matrix := Arr2 n' weighted;
     A_plus := Arr1 ap;
     A_minus := Arr1 am;
     D_plus := Arr1 dp;
     D_minus := Arr1 dm;
     preference_values := Arr1 (scores dp dm) |}.

End Lists.

(** ** Real-number vocabulary of the specification *)

Definition lift (l : list R) : list xreal := map Fin l.

Definition lift2 (M : list (list R)) : list (list xreal) := map lift M.


Definition colR (M : list (list R)) (j : nat) : list R :=
  map (fun r => nth j r 0%R) M.

Fixpoint sum_sq (l : list R) : R :=
  match l with
  | [] => 0%R
  | x :: l' => (x * x + sum_sq l')%R
  end.

(** The Euclidean norm of a vector. *)
Definition l2norm (l : list R) : R := sqrt (sum_sq l).

Definition is_max (x : R) (l : list R) : Prop :=
  In x l /\ forall y, In y l -> (y <= x)%R.

Definition is_min (x : R) (l : list R) : Prop :=
  In x l /\ forall y, In y l -> (x <= y)%R.

(** The real number a finite value stands for. *)
Definition real_of (x : xreal) : R :=
  match x with
  | Fin r => r
  | _ => 0%R
  end.

Definition finite (x : xreal) : Prop := x = Fin (real_of x).

(** Ascending keys, equal keys in the order [pre]. *)
Definition key_lt {A : Type} (key : A -> xreal) (pre : A -> A -> Prop)
    (a b : A) : Prop :=
  (real_of (key a) < real_of (key b))%R \/
  (real_of (key a) = real_of (key b) /\ pre a b).

Definition rank_entry {F : Type} (names : list string) (p : nat * (nat * F))
    : RankEntry F :=
  {| rank := fst p + 1;
     alternative_index := fst (snd p);
     alternative_name := nth (fst (snd p)) names EmptyString;
     value := snd (snd p) |}.

(** Higher score first; equal scores in the order of the input. *)
Definition ranked_before (a b : nat * xreal) : Prop :=
  (real_of (snd b) < real_of (snd a))%R \/
  (real_of (snd b) = real_of (snd a) /\ fst a < fst b).

(** Non-negative, or NaN. *)
Definition nn (x : xreal) : Prop :=
  match x with
  | Fin r => (0 <= r)%R
  | PInf | NaN => True
  | NInf => False
  end.

(** Zero, or NaN. *)
Definition zn (x : xreal) : Prop :=
  match x with
  | Fin r => r = 0%R
  | NaN => True
  | PInf | NInf => False
  end.

Definition in_unit_interval (x : xreal) : Prop :=
  exists v, x = Fin v /\ (0 <= v <= 1)%R.

(** The Euclidean distance of two vectors of the same length. *)
Definition distance (r a : list R) : R := sqrt (sum_sq (zip_with Rminus r a)).

(** The relative closeness [q / (p + q)], with the value 0 where the
    quotient is undefined. *)
Definition closeness (p q : R) : R :=
  if Req_dec_T (p + q) 0 then 0%R else (q / (p + q))%R.

(** The Euclidean norms of the columns. *)
Definition col_norms (n : nat) (M : list (list R)) : list R :=
  map (fun j => l2norm (colR M j)) (seq 0 n).

Definition normalized (n : nat) (M : list (list R)) : list (list R) :=
  map (fun r => zip_with Rdiv r (col_norms n M)) M.

Definition weightedR (n : nat) (M : list (list R)) (w : list R)
    : list (list R) :=
  map (fun r => zip_with Rmult r w) (normalized n M).


(** ** The database and the routes over it

    The five tables of [app.py] are lists of rows in insertion order.  A query
    returns the matching rows in that order, [first()] the first of them, and
    a relationship ([project.criteria], [alternative.values], ...) the rows
    whose foreign key is the parent's key.  Rows are added at the end; a row
    is deleted by its primary key, and the [cascade='all, delete-orphan']
    relationships delete the rows they load with it.

    The database is the one [app.py] configures by default, SQLite: it
    does not check foreign keys, so a row may refer to a key that is not
    stored.  Requests are served one at a time.

    A handler is a function from the database before the request to the
    database after it and the reply.  It takes as arguments what [app.py]
    takes from outside: the identity of the verified token, the JSON fields
    of the request (an absent or null field is [None]), the readings of the
    clock, and the salt [generate_password_hash] draws.  A handler that
    raises is answered 500 by Flask and stores nothing.  Not covered: a
    request refused by [jwt_required], a JSON field of another type than
    the handler expects (a login without password, a value without
    criterion), and the two CSV routes. *)

Section Routes.
Context {F : Type} {FO : Float64 F}.

(** The two bcrypt calls, the token of flask_jwt_extended, and the primary
    key the database gives a new row of a table whose keys are given. *)
Variable generate_password_hash : string -> string -> string.
Variable check_password_hash : string -> string -> bool.
Variable create_access_token : nat -> string.
Variable new_id : list nat -> nat.

Record User : Type := {
  user_id : nat;
  user_email : string;
  user_password : string;
  registration_date : nat;
  theme_preference : string
}.

Record ProjectRow : Type := {
  project_id : nat;
  project_user_id : nat;
  project_name : string;
  creation_date : nat;
  last_modified : nat
}.

(** A criterion row is the columns the calculation reads and the key of its
    project; likewise a value row. *)
Record CriterionRow : Type := {
  criterion_project_id : nat;
  criterion_columns : Criterion F
}.

Record AlternativeRow : Type := {
  alternative_id : nat;
  alternative_project_id : nat;
  alternative_row_name : string
}.

Record ValueRow : Type := {
  value_id : nat;
  value_alternative_id : nat;
  value_columns : AlternativeCriterionValue F
}.

Record Database : Type := {
  users : list User;
  projects : list ProjectRow;
  criterion_table : list CriterionRow;
  alternative_table : list AlternativeRow;
  value_table : list ValueRow
}.

(** [db.create_all()] on a new file. *)
Definition create_all : Database :=
  {| users := []; projects := []; criterion_table := [];
     alternative_table := []; value_table := [] |}.

Definition criterion_id (c : CriterionRow) : nat :=
  crit_id (criterion_columns c).

Definition value_criterion_id (v : ValueRow) : nat :=
  acv_criterion_id (value_columns v).

(** *** Replies *)

Inductive body : Type :=
| Message (text : string)
| Error (text : string)
| Session (access_token : string) (id : nat) (email : string)
    (theme : string)
| ProjectList (rows : list ProjectRow)
| ProjectCreated (row : ProjectRow)
| ProjectDetail (id : nat) (name : string) (crits : list (Criterion F))
    (alts : list (nat * Alternative F))
| CriterionCreated (c : Criterion F)
| AlternativeCreated (id : nat) (name : string)
    (values : list (AlternativeCriterionValue F))
| UserInfo (id : nat) (email : string) (theme : string).

(** A JSON reply with its status, the reply of the calculation, or the
    reply Flask gives when the handler raises. *)
Inductive reply : Type :=
| Reply (code : nat) (b : body)
| Calculation (r : response F)
| InternalServerError.

Definition status (r : reply) : nat :=
  match r with
  | Reply code _ => code
  | Calculation (Http200 _ _ _ _) => 200
  | Calculation Http400 => 400
  | Calculation Http404 => 404
  | InternalServerError => 500
  end.

(** *** Queries and relationships *)

(** [not x] is false on a non-empty string only. *)
Definition required (x : option string) : option string :=
  match x with
  | Some EmptyString | None => None
  | Some s => Some s
  end.

(** [User.query.filter_by(email=email).first()] *)
Definition user_by_email (db : Database) (email : option string)
  : option User :=
  match email with
  | Some e => find (fun u => (user_email u =? e)%string) (users db)
  | None => None
  end.

(** [User.query.get(user_id)] *)
Definition user_by_id (db : Database) (identity : nat) : option User :=
  find (fun u => user_id u =? identity) (users db).

(** [Project.query.filter_by(id=project_id, user_id=user_id).first()] *)
Definition find_project (db : Database) (identity pid : nat)
  : option ProjectRow :=
  find (fun p => (project_id p =? pid) && (project_user_id p =? identity))
    (projects db).

Definition find_criterion (db : Database) (cid pid : nat)
  : option CriterionRow :=
  find (fun c => (criterion_id c =? cid) && (criterion_project_id c =? pid))
    (criterion_table db).

Definition find_alternative (db : Database) (aid pid : nat)
  : option AlternativeRow :=
  find (fun a => (alternative_id a =? aid) && (alternative_project_id a =? pid))
    (alternative_table db).

(** [project.criteria] *)
Definition project_criteria (db : Database) (pid : nat)
  : list (Criterion F) :=
  map criterion_columns
    (filter (fun c => criterion_project_id c =? pid) (criterion_table db)).

(** [project.alternatives] *)
Definition project_alternatives (db : Database) (pid : nat)
  : list AlternativeRow :=
  filter (fun a => alternative_project_id a =? pid) (alternative_table db).

(** [alternative.values] *)
Definition alternative_values (db : Database) (aid : nat)
  : list (AlternativeCriterionValue F) :=
  map value_columns
    (filter (fun v => value_alternative_id v =? aid) (value_table db)).

Definition load_alternative (db : Database) (a : AlternativeRow)
  : Alternative F :=
  {| alt_name := alternative_row_name a;
     alt_values := alternative_values db (alternative_id a) |}.

(** The project as the calculation reads it. *)
Definition load_project (db : Database) (pid : nat) : Project F :=
  {| criteria := project_criteria db pid;
     alternatives := map (load_alternative db) (project_alternatives db pid) |}.

(** *** Writes *)

Definition add_user (db : Database) (u : User) : Database :=
  {| users := users db ++ [u]; projects := projects db;
     criterion_table := criterion_table db;
     alternative_table := alternative_table db;
     value_table := value_table db |}.

Definition add_project (db : Database) (p : ProjectRow) : Database :=
  {| users := users db; projects := projects db ++ [p];
     criterion_table := criterion_table db;
     alternative_table := alternative_table db;
     value_table := value_table db |}.

Definition add_criterion_row (db : Database) (c : CriterionRow) : Database :=
  {| users := users db; projects := projects db;
     criterion_table := criterion_table db ++ [c];
     alternative_table := alternative_table db;
     value_table := value_table db |}.

Definition add_alternative_row (db : Database) (a : AlternativeRow)
  : Database :=
  {| users := users db; projects := projects db;
     criterion_table := criterion_table db;
     alternative_table := alternative_table db ++ [a];
     value_table := value_table db |}.

Definition add_value_row (db : Database)
  (aid : nat) (v : AlternativeCriterionValue F) : Database :=
  {| users := users db; projects := projects db;
     criterion_table := criterion_table db;
     alternative_table := alternative_table db;
     value_table :=
       value_table db ++
       [{| value_id := new_id (map value_id (value_table db));
           value_alternative_id := aid;
           value_columns := v |}] |}.

(** [project.last_modified = datetime.utcnow()] *)
Definition touch (db : Database) (pid now : nat) : Database :=
  {| users := users db;
     projects :=
       map (fun p =>
              if project_id p =? pid
              then {| project_id := project_id p;
                      project_user_id := project_user_id p;
                      project_name := project_name p;
                      creation_date := creation_date p;
                      last_modified := now |}
              else p) (projects db);
     criterion_table := criterion_table db;
     alternative_table := alternative_table db;
     value_table := value_table db |}.

(** [user.theme_preference = theme] *)
Definition set_theme (db : Database) (uid : nat) (theme : string)
  : Database :=
  {| users :=
       map (fun u =>
              if user_id u =? uid
              then {| user_id := user_id u;
                      user_email := user_email u;
                      user_password := user_password u;
                      registration_date := registration_date u;
                      theme_preference := theme |}
              else u) (users db);
     projects := projects db;
     criterion_table := criterion_table db;
     alternative_table := alternative_table db;
     value_table := value_table db |}.

(** [db.session.delete(criterion)]: the row, and through [Criterion.values]
    every value stored for it. *)
Definition delete_criterion_row (db : Database) (cid : nat) : Database :=
  {| users := users db; projects := projects db;
     criterion_table :=
       filter (fun c => negb (criterion_id c =? cid)) (criterion_table db);
     alternative_table := alternative_table db;
     value_table :=
       filter (fun v => negb (value_criterion_id v =? cid)) (value_table db) |}.

(** [db.session.delete(alternative)]: the row, and through
    [Alternative.values] every value stored for it. *)
Definition delete_alternative_row (db : Database) (aid : nat) : Database :=
  {| users := users db; projects := projects db;
     criterion_table := criterion_table db;
     alternative_table :=
       filter (fun a => negb (alternative_id a =? aid)) (alternative_table db);
     value_table :=
       filter (fun v => negb (value_alternative_id v =? aid)) (value_table db) |}.

(** [db.session.delete(project)]: the row, and through [Project.criteria]
    and [Project.alternatives] its criteria and alternatives, each with its
    own cascade. *)
Definition delete_project_row (db : Database) (pid : nat) : Database :=
  let db1 :=
    fold_left delete_criterion_row (map (@crit_id F) (project_criteria db pid))
      db in
  let db2 :=
    fold_left delete_alternative_row
      (map alternative_id (project_alternatives db pid)) db1 in
  {| users := users db2;
     projects := filter (fun p => negb (project_id p =? pid)) (projects db2);
     criterion_table := criterion_table db2;
     alternative_table := alternative_table db2;
     value_table := value_table db2 |}.

(** *** The handlers *)

Definition register (db : Database) (now : nat) (salt : string)
  (email password : option string) : Database * reply :=
  match required email, required password with
  | Some e, Some p =>
      match user_by_email db email with
      | Some _ => (db, Reply 400 (Error "Email already registered"))
      | None =>
          let hashed_password := generate_password_hash salt p in
          let user :=
            {| user_id := new_id (map user_id (users db));
               user_email := e;
               user_password := hashed_password;
               registration_date := now;
               theme_preference := "light" |} in
          (add_user db user,
           Reply 201 (Message "User registered successfully"))
      end
  | _, _ => (db, Reply 400 (Error "Email and password are required"))
  end.

Definition login (db : Database) (email : option string) (password : string)
  : Database * reply :=
  match user_by_email db email with
  | Some user =>
      if check_password_hash (user_password user) password
      then (db, Reply 200 (Session (create_access_token (user_id user))
                             (user_id user) (user_email user)
                             (theme_preference user)))
      else (db, Reply 401 (Error "Invalid credentials"))
  | None => (db, Reply 401 (Error "Invalid credentials"))
  end.

Definition get_projects (db : Database) (identity : nat)
  : Database * reply :=
  (db, Reply 200
         (ProjectList
            (filter (fun p => project_user_id p =? identity) (projects db)))).

Definition create_project (db : Database) (now now' : nat) (identity : nat)
  (name : option string) : Database * reply :=
  match required name with
  | None => (db, Reply 400 (Error "Project name is required"))
  | Some n =>
      let project :=
        {| project_id := new_id (map project_id (projects db));
           project_user_id := identity;
           project_name := n;
           creation_date := now;
           last_modified := now' |} in
      (add_project db project, Reply 201 (ProjectCreated project))
  end.

Definition get_project (db : Database) (identity pid : nat)
  : Database * reply :=
  match find_project db identity pid with
  | None => (db, Reply 404 (Error "Project not found"))
  | Some project =>
      (db, Reply 200
             (ProjectDetail (project_id project) (project_name project)
                (project_criteria db (project_id project))
                (map (fun a => (alternative_id a, load_alternative db a))
                   (project_alternatives db (project_id project)))))
  end.

Definition delete_project (db : Database) (identity pid : nat)
  : Database * reply :=
  match find_project db identity pid with
  | None => (db, Reply 404 (Error "Project not found"))
  | Some project =>
      (delete_project_row db (project_id project),
       Reply 200 (Message "Project deleted successfully"))
  end.

Definition add_criterion (db : Database) (now : nat) (identity pid : nat)
  (name criterion_type : option string) (weight : option F)
  : Database * reply :=
  match find_project db identity pid with
  | None => (db, Reply 404 (Error "Project not found"))
  | Some project =>
      match required name, required criterion_type, weight with
      | Some n, Some t, Some w =>
          let criterion :=
            {| crit_id := new_id (map criterion_id (criterion_table db));
               crit_name := n;
               criterion_type := t;
               weight := w |} in
          (touch
             (add_criterion_row db
                {| criterion_project_id := pid;
                   criterion_columns := criterion |})
             (project_id project) now,
           Reply 201 (CriterionCreated criterion))
      | _, _, _ =>
          (db, Reply 400
                 (Error "Name, criterion_type, and weight are required"))
      end
  end.

Definition delete_criterion (db : Database) (now : nat)
  (identity pid cid : nat) : Database * reply :=
  match find_project db identity pid with
  | None => (db, Reply 404 (Error "Project not found"))
  | Some project =>
      match find_criterion db cid pid with
      | None => (db, Reply 404 (Error "Criterion not found"))
      | Some criterion =>
          (touch (delete_criterion_row db (criterion_id criterion))
             (project_id project) now,
           Reply 200 (Message "Criterion deleted successfully"))
      end
  end.

Definition add_alternative (db : Database) (now : nat) (identity pid : nat)
  (name : option string) (values : list (AlternativeCriterionValue F))
  : Database * reply :=
  match find_project db identity pid with
  | None => (db, Reply 404 (Error "Project not found"))
  | Some project =>
      match required name with
      | None => (db, Reply 400 (Error "Alternative name is required"))
      | Some n =>
          let alternative :=
            {| alternative_id := new_id (map alternative_id
                                           (alternative_table db));
               alternative_project_id := pid;
               alternative_row_name := n |} in
          let db1 := add_alternative_row db alternative in
          let db2 :=
            fold_left
              (fun d v => add_value_row d (alternative_id alternative) v)
              values db1 in
          (touch db2 (project_id project) now,
           Reply 201
             (AlternativeCreated (alternative_id alternative) n values))
      end
  end.

Definition delete_alternative (db : Database) (now : nat)
  (identity pid aid : nat) : Database * reply :=
  match find_project db identity pid with
  | None => (db, Reply 404 (Error "Project not found"))
  | Some project =>
      match find_alternative db aid pid with
      | None => (db, Reply 404 (Error "Alternative not found"))
      | Some alternative =>
          (touch (delete_alternative_row db (alternative_id alternative))
             (project_id project) now,
           Reply 200 (Message "Alternative deleted successfully"))
      end
  end.

(** The route of [calculate_topsis]: the query, then the body above on the
    project it loads. *)
Definition calculate_topsis_route (db : Database) (identity pid : nat)
  : Database * reply :=
  let project :=
    option_map (fun p => load_project db (project_id p))
      (find_project db identity pid) in
  match calculate_topsis project with
  | Ok r => (db, Calculation r)
  | Raise _ => (db, InternalServerError)
  end.

Definition update_theme (db : Database) (identity : nat)
  (theme : option string) : Database * reply :=
  match theme with
  | Some t =>
      if (t =? "light")%string || (t =? "dark")%string
      then
        match user_by_id db identity with
        | Some user =>
            (set_theme db (user_id user) t,
             Reply 200 (Message "Theme updated successfully"))
        | None => (db, InternalServerError)
        end
      else (db, Reply 400 (Error "Invalid theme"))
  | None => (db, Reply 400 (Error "Invalid theme"))
  end.

Definition get_current_user (db : Database) (identity : nat)
  : Database * reply :=
  match user_by_id db identity with
  | None => (db, Reply 404 (Error "User not found"))
  | Some user =>
      (db, Reply 200 (UserInfo (user_id user) (user_email user)
                        (theme_preference user)))
  end.

(** *** The URL map *)

Inductive request : Type :=
| POST_register (email password : option string)
| POST_login (email : option string) (password : string)
| GET_projects (identity : nat)
| POST_projects (identity : nat) (name : option string)
| GET_project (identity pid : nat)
| DELETE_project (identity pid : nat)
| POST_criteria (identity pid : nat) (name ctype : option string)
    (w : option F)
| DELETE_criterion (identity pid cid : nat)
| POST_alternatives (identity pid : nat) (name : option string)
    (values : list (AlternativeCriterionValue F))
| DELETE_alternative (identity pid aid : nat)
| POST_calculate (identity pid : nat)
| PUT_theme (identity : nat) (theme : option string)
| GET_user (identity : nat).

(** What a request reads from the world: the salt and two readings of the
    clock. *)
Record World : Type := {
  salt : string;
  utcnow : nat;
  utcnow' : nat
}.

Definition handle (w : World) (db : Database) (r : request)
  : Database * reply :=
  match r with
  | POST_register email password =>
      register db (utcnow w) (salt w) email password
  | POST_login email password => login db email password
  | GET_projects identity => get_projects db identity
  | POST_projects identity name =>
      create_project db (utcnow w) (utcnow' w) identity name
  | GET_project identity pid => get_project db identity pid
  | DELETE_project identity pid => delete_project db identity pid
  | POST_criteria identity pid name ctype wt =>
      add_criterion db (utcnow w) identity pid name ctype wt
  | DELETE_criterion identity pid cid =>
      delete_criterion db (utcnow w) identity pid cid
  | POST_alternatives identity pid name values =>
      add_alternative db (utcnow w) identity pid name values
  | DELETE_alternative identity pid aid =>
      delete_alternative db (utcnow w) identity pid aid
  | POST_calculate identity pid => calculate_topsis_route db identity pid
  | PUT_theme identity theme => update_theme db identity theme
  | GET_user identity => get_current_user db identity
  end.

(** The database after a sequence of requests, from the empty one. *)
Definition serve (trace : list (World * request)) : Database :=
  fold_left (fun db wr => fst (handle (fst wr) db (snd wr))) trace create_all.

(** The project a request addresses, and the identity it comes with. *)
Definition scope (r : request) : option (nat * nat) :=
  match r with
  | GET_project identity pid | DELETE_project identity pid
  | POST_criteria identity pid _ _ _ | DELETE_criterion identity pid _
  | POST_alternatives identity pid _ _ | DELETE_alternative identity pid _
  | POST_calculate identity pid => Some (identity, pid)
  | _ => None
  end.

(** *** What the handlers keep *)

(** Keys are new. *)
Definition keys_fresh : Prop := forall l, ~ In (new_id l) l.

Record consistent (db : Database) : Prop := {
  emails_unique : NoDup (map user_email (users db));
  user_keys : NoDup (map user_id (users db));
  project_keys : NoDup (map project_id (projects db));
  criterion_keys : NoDup (map criterion_id (criterion_table db));
  alternative_keys : NoDup (map alternative_id (alternative_table db));
  value_keys : NoDup (map value_id (value_table db));
  criteria_have_projects :
    forall c, In c (criterion_table db) ->
      In (criterion_project_id c) (map project_id (projects db));
  alternatives_have_projects :
    forall a, In a (alternative_table db) ->
      In (alternative_project_id a) (map project_id (projects db));
  values_have_alternatives :
    forall v, In v (value_table db) ->
      In (value_alternative_id v) (map alternative_id (alternative_table db))
}.

(** Two databases show the same project. *)
Definition same_project (db db' : Database) (pid : nat) : Prop :=
  (forall caller, find_project db' caller pid = find_project db caller pid) /\
  project_criteria db' pid = project_criteria db pid /\
  project_alternatives db' pid = project_alternatives db pid /\
  forall a, In a (project_alternatives db pid) ->
    alternative_values db' (alternative_id a) =
    alternative_values db (alternative_id a).

End Routes.

Arguments Database F : clear implicits.
Arguments CriterionRow F : clear implicits.
Arguments ValueRow F : clear implicits.
Arguments reply F : clear implicits.
Arguments body F : clear implicits.
Arguments request F : clear implicits.

(** *** A database to run the handlers on *)

(** The key SQLite gives a new row: one more than the largest in use. *)
Definition next_key (l : list nat) : nat := S (list_max l).

(** Stand-ins for bcrypt and the token. *)
Definition plain_hash (salt password : string) : string := password.

Definition plain_check (hash password : string) : bool :=
  (hash =? password)%string.

Definition plain_token (identity : nat) : string := "token".

Definition at_noon : World := {| salt := "salt"; utcnow := 12; utcnow' := 12 |}.

(** Two users with a project each: cars with two criteria and two
    alternatives, phones with one criterion and one alternative. *)
Definition two_projects : list (World * request xreal) :=
  map (pair at_noon)
    [POST_register (Some "ann@example.org") (Some "pw-ann");
     POST_register (Some "bob@example.org") (Some "pw-bob");
     POST_projects 1 (Some "cars");
     POST_projects 2 (Some "phones");
     POST_criteria 1 1 (Some "price") (Some "cost") (Some (Fin 1));
     POST_criteria 1 1 (Some "speed") (Some "benefit") (Some (Fin 1));
     POST_alternatives 1 1 (Some "a")
       [{| acv_criterion_id := 1; acv_value := Fin 3 |};
        {| acv_criterion_id := 2; acv_value := Fin 4 |}];
     POST_alternatives 1 1 (Some "b")
       [{| acv_criterion_id := 1; acv_value := Fin 5 |};
        {| acv_criterion_id := 2; acv_value := Fin 6 |}];
     POST_criteria 2 2 (Some "battery") (Some "benefit") (Some (Fin 1));
     POST_alternatives 2 2 (Some "p")
       [{| acv_criterion_id := 3; acv_value := Fin 7 |}]]%string.

Definition stored : Database xreal :=
  serve plain_hash plain_check plain_token next_key two_projects.

(** * Properties *)

(** ** Lists *)

Section ListFacts.
Context {A B C : Type}.

Lemma zip_with_length (f : A -> B -> C) u v :
  length (zip_with f u v) = Nat.min (length u) (length v).
Proof.
  revert v; induction u as [|x u IH]; intros [|y v]; simpl; auto.
Qed.

Lemma zip_with_length_same (f : A -> B -> C) u v n :
  length u = n -> length v = n -> length (zip_with f u v) = n.
Proof. intros Hu Hv; rewrite zip_with_length; lia. Qed.

Lemma nth_zip_with (f : A -> B -> C) u v j d d1 d2 :
  j < length u -> j < length v ->
  nth j (zip_with f u v) d = f (nth j u d1) (nth j v d2).
Proof.
  revert v j; induction u as [|x u IH]; intros [|y v] [|j]; simpl;
    try lia; auto.
  intros Hu Hv; apply IH; lia.
Qed.

Lemma bc_list_same (op : A -> B -> C) u v :
  length u = length v -> bc_list op u v = zip_with op u v.
Proof.
  intros H; unfold bc_list. rewrite H, Nat.eqb_refl; reflexivity.
Qed.

Lemma bc_list_length (op : A -> B -> C) u v :
  compat (length u) (length v) = true ->
  length (bc_list op u v) = bdim (length u) (length v).
Proof.
  unfold compat, bdim, bc_list; intros H.
  destruct (Nat.eqb_spec (length u) (length v)) as [E|E].
  - rewrite zip_with_length, E.
    destruct (length v =? 1); lia.
  - simpl in H. destruct (Nat.eqb_spec (length u) 1) as [E1|E1].
    + destruct u as [|x [|x' u]]; simpl in E1; try lia.
      now rewrite length_map.
    + simpl in H. apply Nat.eqb_eq in H.
      destruct v as [|y [|y' v]]; simpl in H; try lia.
      destruct u as [|x [|x' u]]; simpl in *; try lia;
        now rewrite length_map.
Qed.

End ListFacts.

Lemma set_nth_app {A : Type} (l1 l2 : list A) (y x : A) :
  set_nth (l1 ++ y :: l2) (length l1) x = l1 ++ x :: l2.
Proof. induction l1 as [|z l1 IH]; simpl; [reflexivity | now rewrite IH]. Qed.

Lemma set_nth_prefix {A : Type} (pre : list A) z n k x :
  length pre = k -> k < n ->
  set_nth (pre ++ repeat z (n - k)) k x = (pre ++ [x]) ++ repeat z (n - S k).
Proof.
  intros <- Hk.
  replace (n - length pre) with (S (n - S (length pre))) by lia.
  simpl. now rewrite set_nth_app, <- app_assoc.
Qed.

Lemma compat_refl n : compat n n = true.
Proof. unfold compat; now rewrite Nat.eqb_refl. Qed.

Lemma bdim_refl n : bdim n n = n.
Proof. unfold bdim; destruct (Nat.eqb_spec n 1); auto. Qed.

Lemma fold_raise {S : Type} (body : nat -> S -> result S) l e :
  fold_left (fun st j => s <- st ;; body j s) l (Raise e) = Raise e.
Proof. induction l as [|j l IH]; simpl; auto. Qed.

Lemma for_range_raise {St : Type} (body : nat -> St -> result St) init n k s
    e :
  k < n -> for_range k body init = Ok s -> body k s = Raise e ->
  for_range n body init = Raise e.
Proof.
  unfold for_range; intros Hk Hpre Hstep.
  replace n with (k + S (n - S k)) by lia.
  rewrite seq_app, fold_left_app, Hpre. simpl.
  rewrite Hstep. apply fold_raise.
Qed.

(** ** From arrays to lists *)

Section Shapes.
Context {F : Type} {FO : Float64 F}.

Lemma fold_zip_with_length (f : F -> F -> F) rows init n :
  rectangular n rows -> length init = n ->
  length (fold_left (zip_with f) rows init) = n.
Proof.
  intros Hr; revert init; induction Hr as [|r rows Hlen _ IH];
    intros init Hi; simpl; auto.
  apply IH. now apply zip_with_length_same.
Qed.

Lemma rectangular_map (f : F -> F) n rows :
  rectangular n rows -> rectangular n (map (map f) rows).
Proof.
  unfold rectangular; intros H; apply Forall_map.
  eapply Forall_impl; [|exact H]. intros r Hr; now rewrite length_map.
Qed.

Lemma denominators_length n rows :
  rectangular n rows -> length (denominators n rows) = n.
Proof.
  intros H; unfold denominators, col_sums. rewrite length_map.
  apply fold_zip_with_length; [now apply rectangular_map |].
  apply repeat_length.
Qed.

Lemma np_array_cons (r : list F) rs :
  np_array (r :: rs) =
  if forallb (fun r' => length r' =? length r) rs
  then Ok (Arr2 (length r) (r :: rs)) else Raise ValueError.
Proof. reflexivity. Qed.

Lemma rectangular_forallb (r : list F) rs :
  forallb (fun r' => length r' =? length r) rs = true <->
  rectangular (length r) (r :: rs).
Proof.
  unfold rectangular; rewrite forallb_forall, Forall_forall; split.
  - intros H x [<-|Hx]; auto. now apply Nat.eqb_eq, H.
  - intros H x Hx. apply Nat.eqb_eq, H. now right.
Qed.

Lemma normalize_matrix_rows n (rows : list (list F)) :
  rectangular n rows ->
  normalize_matrix (Arr2 n rows) = Ok (Arr2 n (norm_rows n rows)).
Proof.
  intros H. unfold normalize_matrix, np_divide; simpl.
  fold (sq (F := F)). fold (col_sums n (map (map sq) rows)).
  fold (denominators n rows).
  rewrite (denominators_length H), compat_refl, bdim_refl.
  reflexivity.
Qed.

Lemma weighted_matrix_rows n (rows : list (list F)) weights :
  calculate_weighted_matrix (Arr2 n rows) (Arr1 weights) =
  if compat n (length weights)
  then Ok (Arr2 (bdim n (length weights)) (weight_rows weights rows))
  else Raise ValueError.
Proof. reflexivity. Qed.

(** The loop of [find_ideal_solutions] after [k] iterations. *)
Lemma ideal_loop_prefix n (rows : list (list F)) types k :
  rows <> [] -> k <= n -> k <= length types ->
  for_range k
    (fun j '(A_plus, A_minus) =>
       t <- getitem types j ;;
       if String.eqb t "benefit" then
         c1 <- column (Arr2 n rows) j ;;
         hi <- amax c1 ;;
         A_plus' <- setitem A_plus j hi ;;
         c2 <- column (Arr2 n rows) j ;;
         lo <- amin c2 ;;
         A_minus' <- setitem A_minus j lo ;;
         Ok (A_plus', A_minus')
       else
         c1 <- column (Arr2 n rows) j ;;
         lo <- amin c1 ;;
         A_plus' <- setitem A_plus j lo ;;
         c2 <- column (Arr2 n rows) j ;;
         hi <- amax c2 ;;
         A_minus' <- setitem A_minus j hi ;;
         Ok (A_plus', A_minus'))
    (np_zeros n, np_zeros n) =
  Ok (Arr1 (map (ideal_plus types rows) (seq 0 k) ++ repeat f_zero (n - k)),
      Arr1 (map (ideal_minus types rows) (seq 0 k) ++ repeat f_zero (n - k))).
Proof.
  intros Hrows. unfold for_range.
  induction k as [|k IH]; intros Hn Ht.
  - simpl. rewrite Nat.sub_0_r. reflexivity.
  - rewrite seq_S, fold_left_app, IH by lia. simpl.
    unfold getitem.
    destruct (nth_error types k) as [t|] eqn:Et;
      [|apply nth_error_None in Et; lia].
    simpl.
    assert (Hlt : (k <? n) = true) by (apply Nat.ltb_lt; lia).
    rewrite Hlt. simpl.
    assert (Hnth : nth k types EmptyString = t)
      by (now apply nth_error_nth).
    assert (Hlen : forall f : nat -> F,
               length (map f (seq 0 k)) = k)
      by (intros f; now rewrite length_map, length_seq).
    assert (Hk : forall f : nat -> F,
               (k <? length (map f (seq 0 k) ++ repeat f_zero (n - k)))
               = true).
    { intros f. apply Nat.ltb_lt.
      rewrite length_app, Hlen, repeat_length. lia. }
    assert (Hset : forall (f : nat -> F),
               set_nth (map f (seq 0 k) ++ repeat f_zero (n - k)) k (f k) =
               map f (seq 0 k ++ [0 + k]) ++ repeat f_zero (n - S k)).
    { intros f. rewrite set_nth_prefix by (auto; lia).
      now rewrite map_app. }
    destruct rows as [|r0 rows']; [congruence|].
    unfold amax, amin, reduce.
    assert (Hp : ideal_plus types (r0 :: rows') k =
                 if String.eqb t "benefit"
                 then fold_left np_maximum (col rows' k) (nth k r0 f_zero)
                 else fold_left np_minimum (col rows' k) (nth k r0 f_zero)).
    { unfold ideal_plus, is_benefit. rewrite Hnth.
      destruct (String.eqb t "benefit"); reflexivity. }
    assert (Hm : ideal_minus types (r0 :: rows') k =
                 if String.eqb t "benefit"
                 then fold_left np_minimum (col rows' k) (nth k r0 f_zero)
                 else fold_left np_maximum (col rows' k) (nth k r0 f_zero)).
    { unfold ideal_minus, is_benefit. rewrite Hnth.
      destruct (String.eqb t "benefit"); reflexivity. }
    unfold col in Hp, Hm.
    destruct (String.eqb t "benefit"); simpl; rewrite !Hk; simpl;
      rewrite <- Hp, <- Hm, !Hset; reflexivity.
Qed.

Lemma find_ideal_solutions_rows n (rows : list (list F)) types :
  rows <> [] ->
  find_ideal_solutions (Arr2 n rows) types =
  if n <=? length types
  then Ok (Arr1 (map (ideal_plus types rows) (seq 0 n)),
           Arr1 (map (ideal_minus types rows) (seq 0 n)))
  else Raise IndexError.
Proof.
  intros Hrows. unfold find_ideal_solutions.
  change (getitem (shape (Arr2 n rows)) 1) with (Ok (A := nat) n).
  cbn [bind].
  destruct (Nat.leb_spec n (length types)) as [Hle|Hlt].
  - rewrite ideal_loop_prefix by auto.
    now rewrite Nat.sub_diag, !app_nil_r.
  - eapply for_range_raise with (k := length types); [exact Hlt | |].
    + apply ideal_loop_prefix; auto; lia.
    + unfold getitem at 1.
      destruct (nth_error types (length types)) eqn:Et; [|reflexivity].
      assert (nth_error types (length types) <> None) as Hs by congruence.
      apply nth_error_Some in Hs. lia.
Qed.

Lemma calculate_distances_rows n (rows : list (list F)) ap am :
  length ap = n -> length am = n ->
  calculate_distances (Arr2 n rows) (Arr1 ap) (Arr1 am) =
  Ok (Arr1 (map (dist ap) rows), Arr1 (map (dist am) rows)).
Proof.
  intros Hp Hm. unfold calculate_distances, np_subtract; simpl.
  rewrite Hp, Hm, compat_refl. simpl.
  rewrite !map_map. reflexivity.
Qed.

Lemma calculate_preference_values_lists (dp dm : list F) :
  length dp = length dm ->
  calculate_preference_values (Arr1 dp) (Arr1 dm) = Ok (Arr1 (scores dp dm)).
Proof.
  intros H. unfold calculate_preference_values, np_add, np_divide; simpl.
  rewrite H, compat_refl. simpl.
  rewrite (bc_list_same f_add dp dm H), zip_with_length, H, Nat.min_id.
  rewrite compat_refl. simpl. unfold scores.
  now rewrite (bc_list_same f_add dp dm H).
Qed.

(** What [perform_topsis_calculation] does, case by case. *)
Lemma perform_topsis_calculation_cases (data : list (list F)) weights types :
  perform_topsis_calculation data weights types =
  match data with
  | [] =>
      if compat 0 (length weights) then Raise IndexError
      else Raise ValueError
  | r :: rs =>
      if negb (forallb (fun r' => length r' =? length r) rs)
      then Raise ValueError
      else if negb (compat (length r) (length weights))
      then Raise ValueError
      else if negb (bdim (length r) (length weights) <=? length types)
      then Raise IndexError
      else Ok (stages data weights types)
  end.
Proof.
  unfold perform_topsis_calculation.
  destruct data as [|r rs].
  - simpl. unfold normalize_matrix, calculate_weighted_matrix, np_divide,
      np_multiply; simpl.
    destruct (compat 0 (length weights)); reflexivity.
  - rewrite np_array_cons.
    destruct (forallb _ rs) eqn:Hrect; [|reflexivity].
    apply rectangular_forallb in Hrect.
    cbn [bind negb]. rewrite (normalize_matrix_rows Hrect).
    cbn [bind]. rewrite weighted_matrix_rows.
    destruct (compat (length r) (length weights)) eqn:Hc; [|reflexivity].
    cbn [bind negb].
    rewrite find_ideal_solutions_rows by (simpl; discriminate).
    destruct (_ <=? length types); [|reflexivity].
    cbn [bind negb].
    rewrite calculate_distances_rows
      by (now rewrite length_map, length_seq).
    cbn [bind].
    rewrite calculate_preference_values_lists
      by (now rewrite !length_map).
    reflexivity.
Qed.

End Shapes.

(** ** Sorting *)

Lemma StronglySorted_snoc {A : Type} (R : A -> A -> Prop) l x :
  StronglySorted R l -> Forall (fun y => R y x) l ->
  StronglySorted R (l ++ [x]).
Proof.
  induction 1 as [|y l Hs IH Hy]; intros Hx; simpl.
  - constructor; constructor.
  - inversion Hx; subst. constructor; [apply IH; assumption |].
    apply Forall_app; split; [assumption | constructor; auto].
Qed.

Lemma StronglySorted_rev {A : Type} (R : A -> A -> Prop) l :
  StronglySorted R l -> StronglySorted (fun a b => R b a) (rev l).
Proof.
  induction 1 as [|y l Hs IH Hy]; simpl; [constructor |].
  apply StronglySorted_snoc; [assumption |].
  apply Forall_rev. assumption.
Qed.

Lemma StronglySorted_nth_error {A : Type} (R : A -> A -> Prop) l :
  StronglySorted R l ->
  forall p q a b, p < q -> nth_error l p = Some a -> nth_error l q = Some b ->
  R a b.
Proof.
  induction 1 as [|y l Hs IH Hy]; intros p q a b Hpq Hp Hq.
  - destruct p; discriminate.
  - destruct q as [|q]; [lia|]. simpl in Hq.
    destruct p as [|p]; simpl in Hp.
    + injection Hp as <-. rewrite Forall_forall in Hy.
      apply Hy. eapply nth_error_In; eauto.
    + eapply IH; [| eassumption | eassumption]. lia.
Qed.

Lemma Rltb_true a b : Rltb a b = true <-> (a < b)%R.
Proof. unfold Rltb; destruct (Rlt_dec a b); split; auto; discriminate. Qed.

Lemma Rleb_true a b : Rleb a b = true <-> (a <= b)%R.
Proof. unfold Rleb; destruct (Rle_dec a b); split; auto; discriminate. Qed.

Lemma Reqb_true a b : Reqb a b = true <-> a = b.
Proof. unfold Reqb; destruct (Req_dec_T a b); split; auto; discriminate. Qed.

Lemma Rltb_false a b : Rltb a b = false <-> (b <= a)%R.
Proof.
  unfold Rltb; destruct (Rlt_dec a b); split; auto; try discriminate; lra.
Qed.

Lemma Rleb_false a b : Rleb a b = false <-> (b < a)%R.
Proof.
  unfold Rleb; destruct (Rle_dec a b); split; auto; try discriminate; lra.
Qed.

Lemma Reqb_false a b : Reqb a b = false <-> a <> b.
Proof.
  unfold Reqb; destruct (Req_dec_T a b); split; auto; try discriminate.
  contradiction.
Qed.

Section SortFacts.
Context {A : Type}.
Variable key : A -> xreal.
Variable pre : A -> A -> Prop.

Lemma insert_by_perm x l : Permutation (insert_by key x l) (x :: l).
Proof.
  induction l as [|y l IH]; simpl; [reflexivity |].
  destruct (xltb (key y) (key x)); [|reflexivity].
  rewrite IH. apply perm_swap.
Qed.

Lemma sort_by_perm l : Permutation (sort_by key l) l.
Proof.
  induction l as [|x l IH]; simpl; [reflexivity |].
  rewrite insert_by_perm. now constructor.
Qed.

Lemma insert_by_sorted x s :
  finite (key x) -> Forall (fun y => finite (key y)) s ->
  Forall (pre x) s -> StronglySorted (key_lt key pre) s ->
  StronglySorted (key_lt key pre) (insert_by key x s).
Proof.
  intros Hx Hfin Hpre Hs.
  induction Hs as [|y s Hs IH Hy]; simpl.
  - constructor; constructor.
  - inversion Hfin as [|? ? Hfy Hfs]; subst.
    inversion Hpre as [|? ? Hpy Hps]; subst.
    assert (Hcmp : xltb (key y) (key x) =
                   Rltb (real_of (key y)) (real_of (key x)))
      by (rewrite Hx, Hfy; reflexivity).
    rewrite Hcmp.
    destruct (Rltb (real_of (key y)) (real_of (key x))) eqn:E.
    + apply Rltb_true in E.
      constructor; [apply IH; assumption |].
      eapply Permutation_Forall;
        [symmetry; apply insert_by_perm |].
      constructor; [left; exact E | exact Hy].
    + apply Rltb_false in E.
      constructor; [constructor; assumption |].
      constructor.
      * destruct (Rle_lt_or_eq_dec _ _ E) as [Hlt|Heq];
          [left; exact Hlt | right; split; assumption].
      * rewrite Forall_forall in *. intros z Hz.
        destruct (Hy z Hz) as [Hyz|[Hyz _]].
        -- left. lra.
        -- destruct (Rle_lt_or_eq_dec _ _ E) as [Hlt|Heq].
           ++ left. lra.
           ++ right. split; [lra | apply Hps; assumption].
Qed.

Lemma sort_by_sorted l :
  Forall (fun y => finite (key y)) l -> StronglySorted pre l ->
  StronglySorted (key_lt key pre) (sort_by key l).
Proof.
  intros Hfin Hs.
  induction Hs as [|x l Hs IH Hx]; simpl; [constructor |].
  inversion Hfin; subst.
  apply insert_by_sorted; auto.
  - eapply Permutation_Forall; [symmetry; apply sort_by_perm | assumption].
  - eapply Permutation_Forall; [symmetry; apply sort_by_perm | assumption].
Qed.

End SortFacts.

(** ** Valid inputs *)

Section Valid.
Context {F : Type} {FO : Float64 F}.

Lemma perform_valid (data : list (list F)) weights types n :
  data <> [] -> rectangular n data -> length weights = n ->
  n <= length types ->
  perform_topsis_calculation data weights types =
  Ok (stages data weights types).
Proof.
  intros Hne Hrect Hw Ht.
  rewrite perform_topsis_calculation_cases.
  destruct data as [|r rs]; [congruence |].
  assert (Hn : length r = n) by (inversion Hrect; assumption).
  rewrite <- Hn in Hrect.
  apply rectangular_forallb in Hrect. rewrite Hrect, Hn, Hw.
  rewrite compat_refl, bdim_refl.
  apply Nat.leb_le in Ht. rewrite Ht. reflexivity.
Qed.

Lemma np_array_rect (data : list (list F)) n :
  data <> [] -> rectangular n data -> np_array data = Ok (Arr2 n data).
Proof.
  intros Hne Hrect. destruct data as [|r rs]; [congruence |].
  assert (Hn : length r = n) by (inversion Hrect; assumption).
  rewrite np_array_cons. rewrite <- Hn in Hrect.
  apply rectangular_forallb in Hrect. now rewrite Hrect, Hn.
Qed.

Lemma scores_zip (dp dm : list F) :
  length dp = length dm ->
  scores dp dm = map nan_to_num_elt (zip_with f_div dm (zip_with f_add dp dm)).
Proof.
  intros H. unfold scores.
  rewrite (bc_list_same f_add dp dm H), bc_list_same; [reflexivity |].
  rewrite zip_with_length, H, Nat.min_id. reflexivity.
Qed.

Lemma scores_length (dp dm : list F) :
  length dp = length dm -> length (scores dp dm) = length dp.
Proof.
  intros H. rewrite scores_zip, length_map, !zip_with_length by assumption.
  lia.
Qed.

Lemma stages_scores_length (data : list (list F)) weights types pv :
  preference_values (stages data weights types) = Arr1 pv ->
  length pv = length data.
Proof.
  unfold stages; simpl. intros [= <-].
  rewrite scores_length by (now rewrite !length_map).
  unfold weight_rows, norm_rows. now rewrite !length_map.
Qed.

Lemma enumerate_fst {A : Type} (l : list A) :
  map fst (enumerate l) = seq 0 (length l).
Proof.
  unfold enumerate. generalize 0.
  induction l as [|x l IH]; intros s; simpl; [reflexivity |].
  now rewrite IH.
Qed.

Lemma enumerate_snd {A : Type} (l : list A) :
  map snd (enumerate l) = l.
Proof.
  unfold enumerate. generalize 0.
  induction l as [|x l IH]; intros s; simpl; [reflexivity |].
  now rewrite IH.
Qed.

Lemma enumerate_length {A : Type} (l : list A) :
  length (enumerate l) = length l.
Proof. rewrite <- (length_map fst), enumerate_fst. apply length_seq. Qed.

Lemma enumerate_nth_error {A : Type} (l : list A) i x :
  In (i, x) (enumerate l) -> nth_error l i = Some x.
Proof.
  unfold enumerate.
  assert (G : forall s, In (i, x) (combine (seq s (length l)) l) ->
                        s <= i /\ nth_error l (i - s) = Some x).
  { induction l as [|y l IH]; intros s; simpl; [tauto |].
    intros [[= <- <-]|Hin].
    - rewrite Nat.sub_diag. auto.
    - apply IH in Hin as [Hs Hn]. split; [lia |].
      replace (i - s) with (S (i - S s)) by lia. exact Hn. }
  intros H. apply G in H as [_ H]. now rewrite Nat.sub_0_r in H.
Qed.

Lemma enumerate_sorted {A : Type} (l : list A) :
  StronglySorted (fun a b : nat * A => fst a < fst b) (enumerate l).
Proof.
  unfold enumerate. generalize 0.
  induction l as [|x l IH]; intros s; simpl; constructor; [apply IH |].
  rewrite Forall_forall. intros [i y] Hin. simpl.
  apply in_combine_l in Hin. apply in_seq in Hin. lia.
Qed.

Lemma mapM_map {A B : Type} (f : A -> result B) (g : A -> B) l :
  (forall x, In x l -> f x = Ok (g x)) -> mapM f l = Ok (map g l).
Proof.
  induction l as [|x l IH]; intros H; simpl; [reflexivity |].
  rewrite H by (now left). simpl.
  rewrite IH by (intros y Hy; apply H; now right). reflexivity.
Qed.

End Valid.

(** ** The ranking *)

Lemma nan_to_num_finite (x : xreal) : finite (nan_to_num_elt x).
Proof. destruct x; reflexivity. Qed.

Lemma scores_finite (dp dm : list xreal) : Forall finite (scores dp dm).
Proof.
  unfold scores. apply Forall_map, Forall_forall.
  intros x _. apply nan_to_num_finite.
Qed.

Lemma sorted_reverse_perm {A : Type} (key : A -> xreal) l :
  Permutation (sorted_reverse key l) l.
Proof.
  unfold sorted_reverse.
  rewrite <- Permutation_rev, sort_by_perm, <- Permutation_rev. reflexivity.
Qed.

Lemma sorted_reverse_enumerate (pv : list xreal) :
  Forall finite pv ->
  StronglySorted ranked_before (sorted_reverse (fun x => snd x) (enumerate pv)).
Proof.
  intros Hfin. unfold sorted_reverse.
  apply StronglySorted_rev
    with (R := key_lt (fun x : nat * xreal => snd x)
                 (fun a b : nat * xreal => fst b < fst a)).
  apply sort_by_sorted.
  - apply Forall_rev. rewrite Forall_forall in *. intros [i x] Hin.
    apply Hfin. simpl. apply enumerate_nth_error in Hin.
    eapply nth_error_In; eauto.
  - apply StronglySorted_rev with (R := fun a b : nat * xreal => fst a < fst b).
    apply enumerate_sorted.
Qed.

Lemma create_ranking_entries (res : TopsisResult xreal) names pv :
  preference_values res = Arr1 pv -> length names = length pv ->
  create_ranking res names =
  Ok (map (rank_entry names)
        (enumerate (sorted_reverse (fun x => snd x) (enumerate pv)))).
Proof.
  intros Hpv Hlen. unfold create_ranking. rewrite Hpv.
  apply mapM_map. intros [i [k v]] Hin. simpl.
  apply enumerate_nth_error in Hin. apply nth_error_In in Hin.
  eapply Permutation_in in Hin; [| apply sorted_reverse_perm].
  apply enumerate_nth_error in Hin.
  assert (Hk : k < length names).
  { rewrite Hlen. apply nth_error_Some. congruence. }
  unfold getitem.
  destruct (nth_error names k) as [name|] eqn:En.
  - simpl. unfold rank_entry; simpl.
    now rewrite (nth_error_nth _ _ _ En).
  - apply nth_error_None in En. lia.
Qed.

(** C1. For a valid input ([m >= 1] rows of [n >= 1] entries, [n] weights,
    [n] criterion types, [m] names) the route's ranking carries the ranks
    [1..m], its alternative indices are a permutation of [0..m-1], every
    entry pairs an alternative with its own preference score, the scores
    are in descending order and, of two alternatives with equal scores, the
    one with the lower index comes first. *)
Theorem ranking_sorted_permutation (data : list (list xreal)) weights types
    names n :
  data <> [] -> 1 <= n -> rectangular n data ->
  length weights = n -> length types = n -> length names = length data ->
  exists res ranking pv,
    topsis_ranking data weights types names = Ok (res, ranking) /\
    preference_values res = Arr1 pv /\
    map (@rank _) ranking = seq 1 (length data) /\
    Permutation (map (@alternative_index _) ranking) (seq 0 (length data)) /\
    (forall e, In e ranking ->
       nth_error pv (alternative_index e) = Some (value e) /\
       finite (value e)) /\
    (forall p q ep eq,
       p < q -> nth_error ranking p = Some ep ->
       nth_error ranking q = Some eq ->
       (real_of (value eq) <= real_of (value ep))%R /\
       (value ep = value eq ->
        alternative_index ep < alternative_index eq)).
Proof.
  intros Hne Hn Hrect Hw Ht Hnames.
  unfold topsis_ranking.
  rewrite (@perform_valid _ _ data weights types n) by (auto; lia).
  cbn [bind].
  destruct (preference_values (stages data weights types)) as [| pv |]
    eqn:Hpv; try discriminate.
  pose proof (stages_scores_length Hpv) as Hlen.
  assert (Hfin : Forall finite pv).
  { unfold stages in Hpv; simpl in Hpv. injection Hpv as <-.
    apply scores_finite. }
  rewrite (create_ranking_entries _ _ Hpv) by congruence.
  cbn [bind].
  set (srt := sorted_reverse (fun x => snd x) (enumerate pv)).
  assert (Hperm : Permutation srt (enumerate pv))
    by apply sorted_reverse_perm.
  assert (Hslen : length srt = length data).
  { rewrite (Permutation_length Hperm), enumerate_length. exact Hlen. }
  exists (stages data weights types),
    (map (rank_entry names) (enumerate srt)), pv.
  split; [reflexivity |]. split; [exact Hpv |].
  split; [| split; [| split]].
  - rewrite map_map. simpl.
    rewrite <- (map_map fst (fun i => i + 1)), enumerate_fst, Hslen.
    rewrite <- seq_shift. apply map_ext. intros; lia.
  - rewrite map_map. simpl.
    rewrite <- (map_map snd fst), enumerate_snd.
    rewrite Hperm, enumerate_fst, Hlen. reflexivity.
  - intros e He. apply in_map_iff in He as [[i [k v]] [<- Hin]]. simpl.
    apply enumerate_nth_error in Hin. apply nth_error_In in Hin.
    eapply Permutation_in in Hin; [| exact Hperm].
    apply enumerate_nth_error in Hin. split; [exact Hin |].
    rewrite Forall_forall in Hfin. apply Hfin.
    eapply nth_error_In; eauto.
  - intros p q ep eq Hpq Hp Hq.
    rewrite nth_error_map in Hp, Hq.
    destruct (nth_error (enumerate srt) p) as [[i a]|] eqn:Ep;
      [| discriminate].
    destruct (nth_error (enumerate srt) q) as [[j b]|] eqn:Eq;
      [| discriminate].
    injection Hp as <-. injection Hq as <-. simpl.
    assert (Hi : nth_error srt i = Some a)
      by (apply enumerate_nth_error; eapply nth_error_In; eauto).
    assert (Hj : nth_error srt j = Some b)
      by (apply enumerate_nth_error; eapply nth_error_In; eauto).
    assert (Hij : i < j).
    { pose proof (enumerate_sorted srt) as Hs.
      apply (StronglySorted_nth_error Hs Hpq Ep Eq). }
    pose proof (StronglySorted_nth_error
                  (sorted_reverse_enumerate Hfin) Hij Hi Hj) as Hab.
    destruct Hab as [Hlt | [Heq Hidx]].
    + split; [lra |]. intros E. rewrite E in Hlt. lra.
    + split; [lra | intros _; exact Hidx].
Qed.

(** ** The stages, entry by entry *)

Section Entries.
Context {F : Type} {FO : Float64 F}.

Lemma fold_zip_with_nth (f : F -> F -> F) rows init n j d :
  rectangular n rows -> length init = n -> j < n ->
  nth j (fold_left (zip_with f) rows init) d =
  fold_left f (map (fun r => nth j r d) rows) (nth j init d).
Proof.
  intros Hr; revert init; induction Hr as [|r rows Hlen _ IH];
    intros init Hi Hj; simpl; [reflexivity |].
  rewrite IH by (auto using zip_with_length_same).
  now rewrite (nth_zip_with f init r d d d) by lia.
Qed.

Lemma col_sums_nth n (rows : list (list F)) j :
  rectangular n rows -> j < n ->
  nth j (col_sums n rows) f_zero = row_sum (col rows j).
Proof.
  intros Hr Hj. unfold col_sums, row_sum, col.
  rewrite (@fold_zip_with_nth f_add rows (repeat f_zero n) n j f_zero Hr)
    by (auto using repeat_length).
  now rewrite nth_repeat.
Qed.

Lemma col_map (f : F -> F) n (rows : list (list F)) j :
  rectangular n rows -> j < n ->
  col (map (map f) rows) j = map f (col rows j).
Proof.
  intros Hr Hj. unfold col. rewrite !map_map.
  apply map_ext_in. intros r Hin.
  unfold rectangular in Hr. rewrite Forall_forall in Hr.
  rewrite (nth_indep _ f_zero (f f_zero))
    by (rewrite length_map, (Hr r Hin); exact Hj).
  apply map_nth.
Qed.

Lemma denominators_nth n (rows : list (list F)) j :
  rectangular n rows -> j < n ->
  nth j (denominators n rows) f_zero =
  f_sqrt (row_sum (map sq (col rows j))).
Proof.
  intros Hr Hj. unfold denominators.
  rewrite (nth_indep _ f_zero (f_sqrt f_zero)).
  - rewrite map_nth, col_sums_nth by (auto using rectangular_map).
    now rewrite (col_map sq Hr Hj).
  - fold (denominators n rows). now rewrite denominators_length.
Qed.

Lemma norm_rows_zip n (rows : list (list F)) :
  rectangular n rows ->
  norm_rows n rows =
  map (fun r => zip_with f_div r (denominators n rows)) rows.
Proof.
  intros Hr. unfold norm_rows. apply map_ext_in. intros r Hin.
  apply bc_list_same. rewrite (denominators_length Hr).
  unfold rectangular in Hr. rewrite Forall_forall in Hr. now apply Hr.
Qed.

Lemma norm_rows_rectangular n (rows : list (list F)) :
  rectangular n rows -> rectangular n (norm_rows n rows).
Proof.
  intros Hr. rewrite norm_rows_zip by assumption.
  unfold rectangular in *. apply Forall_map.
  eapply Forall_impl; [| exact Hr]. intros r Hlen. simpl.
  apply zip_with_length_same; [assumption |].
  now apply denominators_length.
Qed.

Lemma weight_rows_zip n weights (rows : list (list F)) :
  rectangular n rows -> length weights = n ->
  weight_rows weights rows = map (fun r => zip_with f_mul r weights) rows.
Proof.
  intros Hr Hw. unfold weight_rows. apply map_ext_in. intros r Hin.
  apply bc_list_same.
  unfold rectangular in Hr. rewrite Forall_forall in Hr.
  now rewrite (Hr r Hin).
Qed.

Lemma weight_rows_rectangular n weights (rows : list (list F)) :
  rectangular n rows -> length weights = n ->
  rectangular n (weight_rows weights rows).
Proof.
  intros Hr Hw. rewrite (weight_rows_zip weights Hr Hw).
  unfold rectangular in *. apply Forall_map.
  eapply Forall_impl; [| exact Hr]. intros r Hlen. simpl.
  now apply zip_with_length_same.
Qed.

Lemma dist_zip (a r : list F) :
  length r = length a ->
  dist a r = f_sqrt (row_sum (map sq (zip_with f_sub r a))).
Proof. intros H. unfold dist. now rewrite bc_list_same. Qed.

Lemma ideal_length (f : nat -> F) n : length (map f (seq 0 n)) = n.
Proof. now rewrite length_map, length_seq. Qed.

Lemma ideal_nth (f : nat -> F) n j d :
  j < n -> nth j (map f (seq 0 n)) d = f j.
Proof.
  intros Hj. rewrite (nth_indep _ d (f 0)) by (now rewrite ideal_length).
  rewrite map_nth, seq_nth by assumption. reflexivity.
Qed.

End Entries.

Section Scores.
Context {F : Type} {FO : Float64 F}.

Lemma scores_map {A : Type} (f g : A -> F) l :
  scores (map f l) (map g l) =
  map (fun x => nan_to_num_elt (f_div (g x) (f_add (f x) (g x)))) l.
Proof.
  rewrite scores_zip by (now rewrite !length_map).
  induction l as [|x l IH]; simpl; [reflexivity |]. now rewrite <- IH.
Qed.

Lemma stages_scores (data : list (list F)) weights types :
  let n := bdim (length (hd [] data)) (length weights) in
  let W := weight_rows weights (norm_rows (length (hd [] data)) data) in
  preference_values (stages data weights types) =
  Arr1 (map (score_of (map (ideal_plus types W) (seq 0 n))
               (map (ideal_minus types W) (seq 0 n))) W).
Proof. unfold stages; simpl. now rewrite scores_map. Qed.

End Scores.

(** ** Extended reals: signs and special values *)

Ltac rcases :=
  repeat match goal with
    | |- context [Rltb ?a ?b] =>
        let E := fresh "E" in
        destruct (Rltb a b) eqn:E;
        [apply Rltb_true in E | apply Rltb_false in E]
    | |- context [Reqb ?a ?b] =>
        let E := fresh "E" in
        destruct (Reqb a b) eqn:E;
        [apply Reqb_true in E | apply Reqb_false in E]
    | |- context [Rleb ?a ?b] =>
        let E := fresh "E" in
        destruct (Rleb a b) eqn:E;
        [apply Rleb_true in E | apply Rleb_false in E]
    end.

Lemma xsign_zero : xsign (Fin 0) = Zer.
Proof. simpl. rcases; try lra; reflexivity. Qed.

Lemma xadd_nan_r x : xadd x NaN = NaN.
Proof. now destruct x. Qed.

Lemma xmul_nan_r x : xmul x NaN = NaN.
Proof. now destruct x. Qed.

Lemma xdiv_nan_r x : xdiv x NaN = NaN.
Proof. now destruct x. Qed.

Lemma fold_xadd_nan l : fold_left xadd l NaN = NaN.
Proof. induction l as [|x l IH]; simpl; auto. Qed.

Lemma row_sum_nan (l : list xreal) : In NaN l -> row_sum l = NaN.
Proof.
  unfold row_sum. generalize (f_zero (F := xreal)).
  induction l as [|x l IH]; intros a; simpl; [tauto |].
  intros [-> | Hin]; [| now apply IH].
  simpl. rewrite xadd_nan_r. apply fold_xadd_nan.
Qed.

Lemma fold_maximum_nan l : fold_left np_maximum l NaN = NaN.
Proof.
  induction l as [|x l IH]; cbn [fold_left]; [reflexivity |].
  replace (np_maximum NaN x) with NaN by (now destruct x). exact IH.
Qed.

Lemma fold_minimum_nan l : fold_left np_minimum l NaN = NaN.
Proof.
  induction l as [|x l IH]; cbn [fold_left]; [reflexivity |].
  replace (np_minimum NaN x) with NaN by (now destruct x). exact IH.
Qed.

Lemma nn_sq x : nn (sq x).
Proof.
  destruct x as [r| | |]; simpl; auto. apply Rle_0_sqr.
Qed.

Lemma nn_add a b : nn a -> nn b -> nn (xadd a b).
Proof. destruct a, b; simpl; auto; try tauto. intros; lra. Qed.

Lemma nn_fold l a : nn a -> Forall nn l -> nn (fold_left xadd l a).
Proof.
  revert a; induction l as [|x l IH]; intros a Ha Hl; simpl; auto.
  inversion Hl; subst. apply IH; auto using nn_add.
Qed.

Lemma nn_sqrt a : nn a -> nn (xsqrt a).
Proof.
  destruct a as [r| | |]; simpl; auto. intros Hr.
  rcases; simpl; auto. apply sqrt_pos.
Qed.

Lemma nn_dist (a r : list xreal) : nn (dist a r).
Proof.
  unfold dist. apply nn_sqrt. unfold row_sum. apply nn_fold.
  - simpl. lra.
  - apply Forall_map, Forall_forall. intros x _. apply nn_sq.
Qed.

Lemma score_in_unit_interval p q :
  nn p -> nn q -> in_unit_interval (nan_to_num_elt (xdiv q (xadd p q))).
Proof.
  unfold in_unit_interval. intros Hp Hq.
  destruct p as [a| | |], q as [b| | |];
    try (simpl in Hp, Hq; tauto);
    try (exists 0%R; split; [reflexivity | lra]).
  simpl in Hp, Hq.
  change (xdiv (Fin b) (xadd (Fin a) (Fin b)))
    with (if Reqb (a + b) 0 then inf_of_sign (xsign (Fin b))
          else Fin (b / (a + b))).
  destruct (Reqb (a + b) 0) eqn:E;
    [apply Reqb_true in E | apply Reqb_false in E].
  - assert (b = 0%R) by lra. subst b. rewrite xsign_zero. simpl.
    exists 0%R. split; [reflexivity | lra].
  - exists (b / (a + b))%R. split; [reflexivity |].
    assert (Hpos : (0 < a + b)%R) by lra.
    unfold Rdiv. split.
    + apply Rmult_le_pos; [lra |]. left. now apply Rinv_0_lt_compat.
    + apply (Rmult_le_reg_r (a + b)); [lra |].
      rewrite Rmult_assoc, Rinv_l by lra. lra.
Qed.

(** C6. For every valid input every preference score the calculation
    returns is a real number of the interval [0,1]. *)
Theorem preference_scores_in_unit_interval (data : list (list xreal)) weights
    types n :
  data <> [] -> 1 <= n -> rectangular n data ->
  length weights = n -> length types = n ->
  exists res pv,
    perform_topsis_calculation data weights types = Ok res /\
    preference_values res = Arr1 pv /\
    length pv = length data /\
    Forall in_unit_interval pv.
Proof.
  intros Hne Hn Hrect Hw Ht.
  rewrite (@perform_valid _ _ data weights types n) by (auto; lia).
  eexists. eexists. split; [reflexivity |].
  assert (Hpv := stages_scores data weights types). cbv zeta in Hpv.
  split; [exact Hpv |]. split.
  - now apply stages_scores_length with (weights := weights) (types := types).
  - apply Forall_map, Forall_forall. intros r _.
    apply score_in_unit_interval; apply nn_dist.
Qed.

(** ** An all-zero column *)

Lemma sq_zero : sq (Fin 0) = Fin 0.
Proof. simpl. f_equal. ring. Qed.

Lemma xsqrt_zero : xsqrt (Fin 0) = Fin 0.
Proof. simpl. rcases; [lra |]. now rewrite sqrt_0. Qed.

Lemma xdiv_zero_zero : xdiv (Fin 0) (Fin 0) = NaN.
Proof.
  change (xdiv (Fin 0) (Fin 0))
    with (if Reqb 0 0 then inf_of_sign (xsign (Fin 0)) else Fin (0 / 0)).
  rewrite xsign_zero. rcases; [reflexivity | congruence].
Qed.

Lemma row_sum_zero (l : list xreal) :
  Forall (eq (Fin 0)) l -> row_sum l = Fin 0.
Proof.
  unfold row_sum. simpl f_zero.
  induction 1 as [|x l <- _ IH]; simpl; [reflexivity |].
  replace (0 + 0)%R with 0%R by ring. exact IH.
Qed.

Lemma map_const_repeat {A B : Type} (y : B) (f : A -> B) l :
  (forall x, In x l -> f x = y) -> map f l = repeat y (length l).
Proof.
  induction l as [|x l IH]; intros H; simpl; [reflexivity |].
  rewrite H by (now left). f_equal. apply IH. intros z Hz. apply H. now right.
Qed.

Section ZeroColumn.
Variables (data : list (list xreal)) (weights : list xreal)
  (types : list string) (n j : nat).
Hypothesis Hne : data <> [].
Hypothesis Hrect : rectangular n data.
Hypothesis Hw : length weights = n.
Hypothesis Hj : j < n.
Hypothesis Hzero : forall r, In r data -> nth j r (Fin 0) = Fin 0.

Let N := norm_rows n data.
Let W := weight_rows weights N.
Let ap := map (ideal_plus types W) (seq 0 n).
Let am := map (ideal_minus types W) (seq 0 n).

Lemma zero_column_denominator : nth j (denominators n data) (Fin 0) = Fin 0.
Proof.
  change (Fin 0) with (f_zero (F := xreal)) at 1.
  rewrite (denominators_nth Hrect Hj).
  rewrite row_sum_zero; [apply xsqrt_zero |].
  apply Forall_map, Forall_map, Forall_forall. intros r Hin.
  simpl f_zero. rewrite (Hzero r Hin). symmetry. apply sq_zero.
Qed.

Lemma zero_column_normalized r : In r N -> nth j r (Fin 0) = NaN.
Proof.
  unfold N. rewrite (norm_rows_zip Hrect). intros Hin.
  apply in_map_iff in Hin as [r0 [<- Hin0]].
  assert (Hlen : length r0 = n).
  { unfold rectangular in Hrect. rewrite Forall_forall in Hrect. auto. }
  rewrite (nth_zip_with f_div r0 (denominators n data) (Fin 0) (Fin 0) (Fin 0))
    by (rewrite ?denominators_length; auto; lia).
  rewrite (Hzero r0 Hin0), zero_column_denominator.
  apply xdiv_zero_zero.
Qed.

Lemma zero_column_N_rect : rectangular n N.
Proof. apply norm_rows_rectangular, Hrect. Qed.

Lemma zero_column_W_rect : rectangular n W.
Proof. apply weight_rows_rectangular; [apply zero_column_N_rect | exact Hw]. Qed.

Lemma zero_column_weighted r : In r W -> nth j r (Fin 0) = NaN.
Proof.
  unfold W. rewrite (weight_rows_zip weights zero_column_N_rect Hw).
  intros Hin. apply in_map_iff in Hin as [r0 [<- Hin0]].
  assert (Hlen : length r0 = n).
  { pose proof zero_column_N_rect as H. unfold rectangular in H.
    rewrite Forall_forall in H. auto. }
  rewrite (nth_zip_with f_mul r0 weights (Fin 0) (Fin 0) (Fin 0)) by lia.
  now rewrite (zero_column_normalized r0 Hin0).
Qed.

Lemma zero_column_W_nonempty : W <> [].
Proof.
  unfold W, N, weight_rows, norm_rows.
  destruct data; [congruence | discriminate].
Qed.

Lemma zero_column_reduce (op : xreal -> xreal -> xreal) :
  (forall l, fold_left op l NaN = NaN) -> col_reduce op W j = NaN.
Proof.
  intros Hop. unfold col_reduce, col.
  pose proof zero_column_W_nonempty as HW.
  pose proof zero_column_weighted as Hcol.
  destruct W as [|r0 rows]; [congruence |]. simpl.
  simpl f_zero. rewrite (Hcol r0) by (now left). apply Hop.
Qed.

Lemma zero_column_ideal_plus : nth j ap (Fin 0) = NaN.
Proof.
  unfold ap. rewrite (ideal_nth _ _ Hj). unfold ideal_plus.
  destruct (is_benefit types j); apply zero_column_reduce;
    auto using fold_maximum_nan, fold_minimum_nan.
Qed.

Lemma zero_column_ideal_minus : nth j am (Fin 0) = NaN.
Proof.
  unfold am. rewrite (ideal_nth _ _ Hj). unfold ideal_minus.
  destruct (is_benefit types j); apply zero_column_reduce;
    auto using fold_maximum_nan, fold_minimum_nan.
Qed.

Lemma zero_column_dist a r :
  length a = n -> nth j a (Fin 0) = NaN -> In r W -> dist a r = NaN.
Proof.
  intros Ha Hnan Hin.
  assert (Hlen : length r = n).
  { pose proof zero_column_W_rect as H. unfold rectangular in H.
    rewrite Forall_forall in H. auto. }
  rewrite dist_zip by congruence.
  rewrite row_sum_nan; [reflexivity |].
  assert (Hnth : nth j (map sq (zip_with f_sub r a)) (sq (Fin 0)) = NaN).
  { rewrite map_nth.
    rewrite (nth_zip_with f_sub r a (Fin 0) (Fin 0) (Fin 0)) by lia.
    now rewrite Hnan, (zero_column_weighted r Hin). }
  rewrite <- Hnth. apply nth_In.
  rewrite length_map, zip_with_length. lia.
Qed.

Lemma zero_column_scores :
  map (score_of ap am) W = repeat (Fin 0) (length data).
Proof.
  replace (length data) with (length W)
    by (unfold W, N, weight_rows, norm_rows; now rewrite !length_map).
  apply map_const_repeat. intros r Hin. unfold score_of.
  rewrite (@zero_column_dist ap r (ideal_length _ _) zero_column_ideal_plus Hin).
  rewrite (@zero_column_dist am r (ideal_length _ _) zero_column_ideal_minus Hin).
  reflexivity.
Qed.

End ZeroColumn.

(** C10. When the decision matrix has an all-zero column the calculation
    returns, and every preference score is exactly 0: the division by the
    zero column norm gives NaN in that column of the normalised and of the
    weighted matrix and in both ideal points, every distance is NaN, and
    NaN is replaced by 0 only in the last stage. *)
Theorem zero_column_scores_all_zero (data : list (list xreal)) weights types
    n j :
  data <> [] -> rectangular n data ->
  length weights = n -> length types = n -> j < n ->
  (forall r, In r data -> nth_error r j = Some (Fin 0)) ->
  exists res N W ap am,
    perform_topsis_calculation data weights types = Ok res /\
    normalized_matrix res = Arr2 n N /\
    (forall r, In r N -> nth_error r j = Some NaN) /\
    weighted_matrix res = Arr2 n W /\
    (forall r, In r W -> nth_error r j = Some NaN) /\
    A_plus res = Arr1 ap /\ nth_error ap j = Some NaN /\
    A_minus res = Arr1 am /\ nth_error am j = Some NaN /\
    D_plus res = Arr1 (repeat NaN (length data)) /\
    D_minus res = Arr1 (repeat NaN (length data)) /\
    preference_values res = Arr1 (repeat (Fin 0) (length data)).
Proof.
  intros Hne Hrect Hw Ht Hj Hcol.
  assert (Hzero : forall r, In r data -> nth j r (Fin 0) = Fin 0)
    by (intros r Hin; now apply nth_error_nth, Hcol).
  assert (Hhd : length (hd [] data) = n).
  { destruct data as [|r rs]; [congruence |]. now inversion Hrect. }
  rewrite (@perform_valid _ _ data weights types n) by (auto; lia).
  pose proof (stages_scores data weights types) as Hpv. cbv zeta in Hpv.
  unfold stages in *. rewrite Hhd, Hw, bdim_refl in *.
  set (N := norm_rows n data) in *.
  set (W := weight_rows weights N) in *.
  set (ap := map (ideal_plus types W) (seq 0 n)) in *.
  set (am := map (ideal_minus types W) (seq 0 n)) in *.
  assert (HN : forall r, In r N -> nth j r (Fin 0) = NaN)
    by (intros r; eapply zero_column_normalized; eauto).
  assert (HW : forall r, In r W -> nth j r (Fin 0) = NaN)
    by (intros r; eapply zero_column_weighted; eauto).
  assert (Hnth : forall l : list xreal,
             nth j l (Fin 0) = NaN -> nth_error l j = Some NaN).
  { intros l H. destruct (nth_error l j) as [x|] eqn:E.
    - now rewrite <- (nth_error_nth _ _ (Fin 0) E), H.
    - apply nth_error_None in E. rewrite nth_overflow in H by exact E.
      discriminate. }
  assert (Hap : nth j ap (Fin 0) = NaN)
    by (eapply zero_column_ideal_plus; eauto).
  assert (Ham : nth j am (Fin 0) = NaN)
    by (eapply zero_column_ideal_minus; eauto).
  assert (Hlen : length W = length data)
    by (unfold W, N, weight_rows, norm_rows; now rewrite !length_map).
  exists (stages data weights types), N, W, ap, am.
  unfold stages. rewrite Hhd, Hw, bdim_refl. fold N W ap am. simpl.
  repeat split; auto.
  - f_equal. rewrite <- Hlen. apply map_const_repeat. intros r Hin.
    apply zero_column_dist with (data := data) (weights := weights) (n := n)
      (j := j); auto. apply ideal_length.
  - f_equal. rewrite <- Hlen. apply map_const_repeat. intros r Hin.
    apply zero_column_dist with (data := data) (weights := weights) (n := n)
      (j := j); auto. apply ideal_length.
  - simpl in Hpv. rewrite Hpv. f_equal.
    now apply zero_column_scores with (j := j).
Qed.

(** ** Finite values *)

Lemma lift_length l : length (lift l) = length l.
Proof. apply length_map. Qed.

Lemma lift_nth l j : nth j (lift l) (Fin 0) = Fin (nth j l 0%R).
Proof. unfold lift. apply (map_nth Fin). Qed.

Lemma lift2_rectangular n M : rectangular n M -> rectangular n (lift2 M).
Proof.
  unfold rectangular, lift2. intros H. apply Forall_map.
  eapply Forall_impl; [| exact H]. intros r Hr. now rewrite lift_length.
Qed.

Lemma zip_xadd_lift a b : zip_with xadd (lift a) (lift b) = lift (zip_with Rplus a b).
Proof.
  revert b; induction a as [|x a IH]; intros [|y b]; simpl; auto.
  now rewrite IH.
Qed.

Lemma zip_xsub_lift a b :
  zip_with xsub (lift a) (lift b) = lift (zip_with Rminus a b).
Proof.
  revert b; induction a as [|x a IH]; intros [|y b]; simpl; auto.
  now rewrite IH.
Qed.

Lemma zip_xmul_lift a b :
  zip_with xmul (lift a) (lift b) = lift (zip_with Rmult a b).
Proof.
  revert b; induction a as [|x a IH]; intros [|y b]; simpl; auto.
  now rewrite IH.
Qed.

Lemma xdiv_fin a b : b <> 0%R -> xdiv (Fin a) (Fin b) = Fin (a / b).
Proof.
  intros Hb.
  change (xdiv (Fin a) (Fin b))
    with (if Reqb b 0 then inf_of_sign (xsign (Fin a)) else Fin (a / b)).
  rcases; [contradiction | reflexivity].
Qed.

Lemma zip_xdiv_lift a b :
  Forall (fun d => d <> 0%R) b ->
  zip_with xdiv (lift a) (lift b) = lift (zip_with Rdiv a b).
Proof.
  intros Hb; revert a; induction Hb as [|y b Hy _ IH]; intros [|x a];
    try reflexivity.
  unfold lift in *. cbn [map zip_with].
  rewrite (xdiv_fin x Hy). f_equal. apply IH.
Qed.

Lemma xsqrt_fin a : (0 <= a)%R -> xsqrt (Fin a) = Fin (sqrt a).
Proof. intros Ha. simpl. rcases; [lra | reflexivity]. Qed.

Lemma map_sq_lift l : map sq (lift l) = lift (map (fun x => x * x)%R l).
Proof. unfold lift. rewrite !map_map. reflexivity. Qed.

Lemma fold_xadd_lift l a :
  fold_left xadd (lift l) (Fin a) = Fin (fold_left Rplus l a).
Proof. revert a; induction l as [|x l IH]; intros a; simpl; auto. Qed.

Lemma fold_Rplus_sum_sq l a :
  fold_left Rplus (map (fun x => x * x)%R l) a = (a + sum_sq l)%R.
Proof.
  revert a; induction l as [|x l IH]; intros a; simpl; [ring |].
  rewrite IH. ring.
Qed.

Lemma row_sum_sq_lift l : row_sum (map sq (lift l)) = Fin (sum_sq l).
Proof.
  unfold row_sum. rewrite map_sq_lift. simpl f_zero. simpl f_add.
  rewrite fold_xadd_lift, fold_Rplus_sum_sq. f_equal. ring.
Qed.

Lemma sum_sq_nonneg l : (0 <= sum_sq l)%R.
Proof.
  induction l as [|x l IH]; simpl; [lra |].
  pose proof (Rle_0_sqr x) as H. unfold Rsqr in H. lra.
Qed.

Lemma sum_sq_zero l : sum_sq l = 0%R <-> Forall (eq 0%R) l.
Proof.
  induction l as [|x l IH]; simpl.
  - split; auto.
  - pose proof (Rle_0_sqr x) as H. unfold Rsqr in H.
    pose proof (sum_sq_nonneg l) as Hl. split.
    + intros E. assert (Hx : (x * x = 0)%R) by lra.
      assert (Hs : sum_sq l = 0%R) by lra.
      constructor; [| now apply IH].
      apply Rmult_integral in Hx. destruct Hx; lra.
    + intros Hall. inversion Hall as [|? ? <- Hl']; subst.
      apply IH in Hl'. rewrite Hl'. ring.
Qed.

Lemma dist_lift a r :
  length r = length a -> dist (lift a) (lift r) = Fin (distance r a).
Proof.
  intros H. rewrite dist_zip by (now rewrite !lift_length).
  simpl f_sub. rewrite zip_xsub_lift, row_sum_sq_lift.
  simpl f_sqrt. apply xsqrt_fin, sum_sq_nonneg.
Qed.

Lemma distance_nonneg r a : (0 <= distance r a)%R.
Proof. apply sqrt_pos. Qed.

Lemma zip_minus_zero r a :
  length r = length a -> Forall (eq 0%R) (zip_with Rminus r a) <-> r = a.
Proof.
  revert a; induction r as [|x r IH]; intros [|y a]; simpl; intros H;
    try discriminate.
  - split; auto.
  - injection H as H. split.
    + intros Hall. inversion Hall as [|? ? Hxy Hr]; subst.
      apply IH in Hr; [| assumption]. f_equal; [lra | assumption].
    + intros [= -> ->]. constructor; [lra |]. now apply IH.
Qed.

Lemma distance_zero r a :
  length r = length a -> distance r a = 0%R <-> r = a.
Proof.
  intros H. unfold distance.
  rewrite <- (zip_minus_zero r a H), <- sum_sq_zero.
  split.
  - apply sqrt_eq_0, sum_sq_nonneg.
  - intros ->. apply sqrt_0.
Qed.

Lemma score_lift p q :
  (0 <= p)%R -> (0 <= q)%R ->
  nan_to_num_elt (xdiv (Fin q) (xadd (Fin p) (Fin q))) = Fin (closeness p q).
Proof.
  intros Hp Hq. unfold closeness. simpl xadd.
  destruct (Req_dec_T (p + q) 0) as [E|E].
  - assert (q = 0%R) by lra. subst q. rewrite E, xdiv_zero_zero.
    reflexivity.
  - now rewrite xdiv_fin.
Qed.


(** The distances in exact arithmetic.  For a weighted matrix and ideal
    points of real numbers both distance vectors are non-negative in every
    component, and the distance of a row to the positive ideal point is 0
    exactly when the row equals the positive ideal point on every
    criterion. *)
Lemma distances_exact (W : list (list R)) (ap am : list R)
    n :
  rectangular n W -> length ap = n -> length am = n ->
  exists dp dm,
    calculate_distances (Arr2 n (lift2 W)) (Arr1 (lift ap)) (Arr1 (lift am)) =
    Ok (Arr1 (lift dp), Arr1 (lift dm)) /\
    length dp = length W /\ length dm = length W /\
    Forall (fun d => 0 <= d)%R dp /\ Forall (fun d => 0 <= d)%R dm /\
    forall i r, nth_error W i = Some r ->
      exists d, nth_error dp i = Some d /\ (d = 0%R <-> r = ap).
Proof.
  intros Hrect Hp Hm.
  exists (map (fun r => distance r ap) W), (map (fun r => distance r am) W).
  assert (Hlen : forall r, In r W -> length r = n).
  { unfold rectangular in Hrect. rewrite Forall_forall in Hrect. exact Hrect. }
  split; [| split; [| split; [| split; [| split]]]].
  - rewrite calculate_distances_rows by (now rewrite lift_length).
    assert (Hd : forall a, length a = n ->
                 map (dist (lift a)) (lift2 W) =
                 lift (map (fun r => distance r a) W)).
    { intros a Ha. unfold lift2.
      change (lift (map (fun r => distance r a) W))
        with (map Fin (map (fun r => distance r a) W)).
      rewrite !map_map. apply map_ext_in. intros r Hin. apply dist_lift.
      rewrite (Hlen r Hin). congruence. }
    now rewrite !Hd.
  - apply length_map.
  - apply length_map.
  - apply Forall_map, Forall_forall. intros r _. apply distance_nonneg.
  - apply Forall_map, Forall_forall. intros r _. apply distance_nonneg.
  - intros i r Hi. exists (distance r ap). split.
    + rewrite nth_error_map, Hi. reflexivity.
    + apply distance_zero. rewrite (Hlen r) by (eapply nth_error_In; eauto).
      congruence.
Qed.

(** *** The distances in binary64 *)

Lemma float_sub_diag (x : float) :
  is_finite64 x = true -> (x - x)%float = 0%float.
Proof.
  intros H. apply FloatAxioms.Prim2SF_inj. rewrite FloatAxioms.sub_spec.
  unfold is_finite64 in H.
  destruct (FloatOps.Prim2SF x) as [sx | sx | | sx m e]; try discriminate.
  - now destruct sx.
  - unfold FloatAxioms.SF64sub, SpecFloat.SFsub. cbv zeta.
    rewrite Z.sub_diag. reflexivity.
Qed.

(** A square root is never below zero: it is a NaN, a zero, or positive. *)
Lemma float_sqrt_not_negative (x : float) :
  (PrimFloat.sqrt x <? 0)%float = false.
Proof.
  rewrite FloatAxioms.ltb_spec, FloatAxioms.sqrt_spec.
  change (FloatOps.Prim2SF 0) with (SpecFloat.S754_zero false).
  destruct (FloatOps.Prim2SF x) as [sx | sx | | sx m e]; simpl.
  - reflexivity.
  - now destruct sx.
  - reflexivity.
  - destruct sx; [reflexivity |].
    destruct (SpecFloat.SFsqrt_core_binary FloatOps.prec FloatOps.emax
                (Z.pos m) e) as [[mz ez] lz].
    unfold SpecFloat.binary_round_aux.
    destruct (SpecFloat.shr_fexp FloatOps.prec FloatOps.emax mz ez lz)
      as [mrs' e'].
    destruct (SpecFloat.shr_fexp _ _ _ _ _) as [mrs'' e''].
    destruct (SpecFloat.shr_m mrs''); try reflexivity.
    now destruct (_ <=? _)%Z.
Qed.

Lemma dist_not_negative (a r : list float) :
  (dist a r <? 0)%float = false.
Proof. unfold dist. apply float_sqrt_not_negative. Qed.

Lemma row_sum_zeros k : row_sum (repeat 0%float k) = 0%float.
Proof.
  unfold row_sum. induction k as [|k IH]; [reflexivity |].
  simpl. exact IH.
Qed.

Lemma dist_self (r : list float) :
  forallb is_finite64 r = true -> dist r r = 0%float.
Proof.
  intros Hfin. unfold dist. rewrite bc_list_same by reflexivity.
  assert (E : map sq (zip_with PrimFloat.sub r r) =
              repeat 0%float (length r)).
  { induction r as [|x r IH]; [reflexivity |].
    simpl in Hfin. apply andb_true_iff in Hfin as [Hx Hr].
    simpl. rewrite (float_sub_diag x Hx), (IH Hr). reflexivity. }
  change (@f_sub float binary64) with PrimFloat.sub.
  rewrite E, row_sum_zeros. reflexivity.
Qed.

(** C8, as amended.  In binary64, for every weighted matrix and ideal
    points, no component of the two distance vectors is below zero (each
    is non-negative, or a NaN when entries are not finite), and the
    distance of a row to the positive ideal point is 0 when the row equals
    the positive ideal point on every criterion and its entries are finite.
    In exact arithmetic the converse holds as well: the distance is 0 only
    for such a row.  (In binary64 a squared difference can underflow, and
    the distance of a row that differs from the ideal point by very little
    is 0 too: see [tiny_difference_distance_zero].) *)
Theorem distances_nonnegative_zero_at_ideal :
  (forall (W : list (list float)) (ap am : list float) (n : nat),
     rectangular n W -> length ap = n -> length am = n ->
     exists dp dm,
       calculate_distances (Arr2 n W) (Arr1 ap) (Arr1 am) =
       Ok (Arr1 dp, Arr1 dm) /\
       length dp = length W /\ length dm = length W /\
       Forall (fun d => (d <? 0)%float = false) dp /\
       Forall (fun d => (d <? 0)%float = false) dm /\
       forall i, nth_error W i = Some ap ->
         forallb is_finite64 ap = true ->
         nth_error dp i = Some 0%float) /\
  (forall (W : list (list R)) (ap am : list R) (n : nat),
     rectangular n W -> length ap = n -> length am = n ->
     exists dp dm,
       calculate_distances (Arr2 n (lift2 W)) (Arr1 (lift ap))
         (Arr1 (lift am)) =
       Ok (Arr1 (lift dp), Arr1 (lift dm)) /\
       length dp = length W /\ length dm = length W /\
       Forall (fun d => 0 <= d)%R dp /\ Forall (fun d => 0 <= d)%R dm /\
       forall i r, nth_error W i = Some r ->
         exists d, nth_error dp i = Some d /\ (d = 0%R <-> r = ap)).
Proof.
  split.
  - intros W ap am n Hrect Hp Hm.
    exists (map (dist ap) W), (map (dist am) W).
    split; [now apply calculate_distances_rows |].
    split; [apply length_map |]. split; [apply length_map |].
    split; [apply Forall_map, Forall_forall; intros r _;
            apply dist_not_negative |].
    split; [apply Forall_map, Forall_forall; intros r _;
            apply dist_not_negative |].
    intros i Hi Hfin. rewrite nth_error_map, Hi. cbn [option_map].
    now rewrite dist_self.
  - intros W ap am n. apply distances_exact.
Qed.

(** ** The preference scorer, and a single alternative *)

Lemma scores_lift dp dm :
  length dp = length dm ->
  Forall (fun d => 0 <= d)%R dp -> Forall (fun d => 0 <= d)%R dm ->
  scores (lift dp) (lift dm) = lift (zip_with closeness dp dm).
Proof.
  intros Hlen Hp Hm.
  rewrite scores_zip by (now rewrite !lift_length).
  revert dm Hlen Hm; induction Hp as [|p dp Hp0 _ IH]; intros [|q dm] Hlen Hm;
    try discriminate; [reflexivity |].
  inversion Hm; subst. injection Hlen as Hlen.
  unfold lift in *. cbn [map zip_with].
  change (@f_div xreal _) with xdiv in *.
  change (@f_add xreal _) with xadd in *.
  rewrite score_lift by assumption. f_equal. now apply IH.
Qed.

Lemma zn_sub_self x : zn (xsub x x).
Proof. destruct x; simpl; auto. ring. Qed.

Lemma zn_sq x : zn x -> zn (sq x).
Proof. destruct x; simpl; auto. intros ->. ring. Qed.

Lemma zn_add a b : zn a -> zn b -> zn (xadd a b).
Proof. destruct a, b; simpl; auto; try tauto. intros -> ->. ring. Qed.

Lemma zn_fold l a : zn a -> Forall zn l -> zn (fold_left xadd l a).
Proof.
  revert a; induction l as [|x l IH]; intros a Ha Hl; simpl; auto.
  inversion Hl; subst. apply IH; auto using zn_add.
Qed.

Lemma zn_sqrt a : zn a -> zn (xsqrt a).
Proof.
  destruct a as [r| | |]; simpl; auto. intros ->.
  rcases; simpl; auto. apply sqrt_0.
Qed.

Lemma zn_dist_self (r : list xreal) : zn (dist r r).
Proof.
  rewrite dist_zip by reflexivity.
  apply zn_sqrt. unfold row_sum. apply zn_fold; [reflexivity |].
  apply Forall_map.
  induction r as [|x r IH]; cbn [zip_with]; constructor; auto.
  apply zn_sq, zn_sub_self.
Qed.

Lemma zn_score p q : zn p -> zn q -> nan_to_num_elt (xdiv q (xadd p q)) = Fin 0.
Proof.
  destruct p as [a| | |], q as [b| | |]; simpl zn; try tauto;
    try reflexivity.
  intros -> ->. simpl xadd. replace (0 + 0)%R with 0%R by ring.
  now rewrite xdiv_zero_zero.
Qed.

Lemma map_nth_seq {A : Type} (l : list A) d :
  map (fun j => nth j l d) (seq 0 (length l)) = l.
Proof.
  induction l as [|x l IH]; simpl; [reflexivity |].
  f_equal. rewrite <- seq_shift, map_map. exact IH.
Qed.

Lemma single_row_scores (row : list xreal) weights types n :
  length row = n -> length weights = n ->
  preference_values (stages [row] weights types) = Arr1 [Fin 0].
Proof.
  intros Hr Hw.
  pose proof (stages_scores [row] weights types) as Hpv. cbv zeta in Hpv.
  rewrite Hpv. clear Hpv. simpl hd. rewrite Hr, Hw, bdim_refl.
  assert (HW : exists w, weight_rows weights (norm_rows n [row]) = [w] /\
                         length w = n).
  { eexists. split; [reflexivity |].
    assert (Hrect : rectangular n [row]) by (constructor; auto).
    pose proof (norm_rows_rectangular Hrect) as HN.
    pose proof (weight_rows_rectangular weights HN Hw) as HWr.
    inversion HWr; assumption. }
  destruct HW as [w [-> Hlen]].
  assert (Hideal : forall f,
             (forall j, f j = nth j w f_zero) -> map f (seq 0 n) = w).
  { intros f Hf. rewrite <- Hlen, (map_ext _ _ Hf). apply map_nth_seq. }
  rewrite (Hideal (ideal_plus types [w])), (Hideal (ideal_minus types [w])).
  - simpl map. unfold score_of.
    change (@f_div xreal _) with xdiv. change (@f_add xreal _) with xadd.
    now rewrite zn_score by apply zn_dist_self.
  - intros j. unfold ideal_minus. destruct (is_benefit types j); reflexivity.
  - intros j. unfold ideal_plus. destruct (is_benefit types j); reflexivity.
Qed.

(** C5. On distance vectors (real, non-negative, of one length) the scorer
    returns [D-[i] / (D+[i] + D-[i])] where [D+[i] + D-[i]] is not 0 and 0
    where it is; it raises nothing and returns no NaN.  For a single
    alternative the score is 0 and the rank is 1. *)
Theorem preference_values_closeness :
  (forall dp dm : list R,
     length dp = length dm ->
     Forall (fun d => 0 <= d)%R dp -> Forall (fun d => 0 <= d)%R dm ->
     exists V,
       calculate_preference_values (Arr1 (lift dp)) (Arr1 (lift dm)) =
       Ok (Arr1 (lift V)) /\
       length V = length dp /\
       forall i p q, nth_error dp i = Some p -> nth_error dm i = Some q ->
         exists v, nth_error V i = Some v /\
           ((p + q <> 0)%R -> v = (q / (p + q))%R) /\
           ((p + q = 0)%R -> v = 0%R)) /\
  (forall (row weights : list xreal) (types : list string) (name : string) n,
     1 <= n -> length row = n -> length weights = n -> length types = n ->
     exists res,
       topsis_ranking [row] weights types [name] =
       Ok (res, [{| rank := 1; alternative_index := 0;
                    alternative_name := name; value := Fin 0 |}]) /\
       preference_values res = Arr1 [Fin 0]).
Proof.
  split.
  - intros dp dm Hlen Hp Hm. exists (zip_with closeness dp dm).
    split; [| split].
    + rewrite calculate_preference_values_lists
        by (now rewrite !lift_length).
      now rewrite scores_lift.
    + rewrite zip_with_length. lia.
    + intros i p q Hi Hq. exists (closeness p q). split.
      * clear Hp Hm. revert dm i Hlen Hi Hq.
        induction dp as [|x dp IH]; intros [|y dm] [|i] Hlen Hi Hq;
          simpl in *; try discriminate.
        -- now injection Hi as ->; injection Hq as ->.
        -- apply IH; auto.
      * unfold closeness. destruct (Req_dec_T (p + q) 0); split; intros;
          try reflexivity; contradiction.
  - intros row weights types name n Hn Hr Hw Ht.
    unfold topsis_ranking.
    assert (Hrect : rectangular n [row]) by (constructor; auto).
    rewrite (@perform_valid _ _ [row] weights types n)
      by (auto; try lia; discriminate).
    cbn [bind].
    pose proof (@single_row_scores row weights types n Hr Hw) as Hpv.
    rewrite (create_ranking_entries _ [name] Hpv) by reflexivity.
    cbn [bind]. eexists. split; [reflexivity | exact Hpv].
Qed.

(** ** Ideal points *)

Lemma finite_lift l : Forall finite l -> l = lift (map real_of l).
Proof.
  induction 1 as [|x l Hx _ IH]; simpl; [reflexivity |].
  now rewrite <- IH, <- Hx.
Qed.

Lemma col_lift2 W j : col (lift2 W) j = lift (colR W j).
Proof.
  unfold col, colR, lift2. unfold lift at 2. rewrite !map_map.
  apply map_ext. intros r. apply lift_nth.
Qed.

Lemma np_maximum_fin a b :
  np_maximum (Fin a) (Fin b) = Fin (if Rleb b a then a else b).
Proof. unfold np_maximum. simpl. now destruct (Rleb b a). Qed.

Lemma np_minimum_fin a b :
  np_minimum (Fin a) (Fin b) = Fin (if Rleb a b then a else b).
Proof. unfold np_minimum. simpl. now destruct (Rleb a b). Qed.

Lemma fold_maximum_lift v x :
  exists y, fold_left np_maximum (lift v) (Fin x) = Fin y /\ is_max y (x :: v).
Proof.
  revert x; induction v as [|z v IH]; intros x.
  - exists x. split; [reflexivity |]. split; [now left |].
    intros y [<- | []]. lra.
  - unfold lift. cbn [map fold_left]. rewrite np_maximum_fin.
    destruct (IH (if Rleb z x then x else z)) as [y [Hy [Hin Hub]]].
    exists y. split; [exact Hy |].
    assert (Hx : (x <= y)%R /\ (z <= y)%R).
    { pose proof (Hub _ (or_introl eq_refl)) as H.
      destruct (Rleb z x) eqn:E;
        [apply Rleb_true in E | apply Rleb_false in E]; lra. }
    split.
    + destruct Hin as [Hin | Hin]; [| now right; right].
      destruct (Rleb z x); subst y; [now left | now right; left].
    + intros t [<- | [<- | Ht]]; try tauto. apply Hub. now right.
Qed.

Lemma fold_minimum_lift v x :
  exists y, fold_left np_minimum (lift v) (Fin x) = Fin y /\ is_min y (x :: v).
Proof.
  revert x; induction v as [|z v IH]; intros x.
  - exists x. split; [reflexivity |]. split; [now left |].
    intros y [<- | []]. lra.
  - unfold lift. cbn [map fold_left]. rewrite np_minimum_fin.
    destruct (IH (if Rleb x z then x else z)) as [y [Hy [Hin Hlb]]].
    exists y. split; [exact Hy |].
    assert (Hx : (y <= x)%R /\ (y <= z)%R).
    { pose proof (Hlb _ (or_introl eq_refl)) as H.
      destruct (Rleb x z) eqn:E;
        [apply Rleb_true in E | apply Rleb_false in E]; lra. }
    split.
    + destruct Hin as [Hin | Hin]; [| now right; right].
      destruct (Rleb x z); subst y; [now left | now right; left].
    + intros t [<- | [<- | Ht]]; try tauto. apply Hlb. now right.
Qed.

Lemma col_reduce_maximum W j :
  W <> [] ->
  exists y, col_reduce np_maximum (lift2 W) j = Fin y /\ is_max y (colR W j).
Proof.
  intros HW. unfold col_reduce. rewrite col_lift2.
  destruct W as [|r W]; [congruence |]. simpl colR. unfold lift at 1.
  cbn [map]. apply fold_maximum_lift.
Qed.

Lemma col_reduce_minimum W j :
  W <> [] ->
  exists y, col_reduce np_minimum (lift2 W) j = Fin y /\ is_min y (colR W j).
Proof.
  intros HW. unfold col_reduce. rewrite col_lift2.
  destruct W as [|r W]; [congruence |]. simpl colR. unfold lift at 1.
  cbn [map]. apply fold_minimum_lift.
Qed.

Lemma is_benefit_true types j :
  nth_error types j = Some "benefit"%string -> is_benefit types j = true.
Proof.
  intros H. unfold is_benefit. now rewrite (nth_error_nth _ _ _ H).
Qed.

Lemma is_benefit_false types j :
  nth_error types j = Some "cost"%string -> is_benefit types j = false.
Proof.
  intros H. unfold is_benefit. now rewrite (nth_error_nth _ _ _ H).
Qed.

(** The ideal points of a weighted matrix of real numbers. *)
Lemma ideal_points_real (W : list (list R)) types n :
  W <> [] ->
  exists ap am,
    map (ideal_plus types (lift2 W)) (seq 0 n) = lift ap /\
    map (ideal_minus types (lift2 W)) (seq 0 n) = lift am /\
    length ap = n /\ length am = n /\
    forall j, j < n ->
      (is_benefit types j = true ->
       is_max (nth j ap 0%R) (colR W j) /\ is_min (nth j am 0%R) (colR W j)) /\
      (is_benefit types j = false ->
       is_min (nth j ap 0%R) (colR W j) /\ is_max (nth j am 0%R) (colR W j)).
Proof.
  intros HW.
  assert (Hp : forall j, exists y, ideal_plus types (lift2 W) j = Fin y /\
                 (is_benefit types j = true -> is_max y (colR W j)) /\
                 (is_benefit types j = false -> is_min y (colR W j))).
  { intros j. unfold ideal_plus.
    destruct (is_benefit types j).
    - destruct (col_reduce_maximum j HW) as [y [Hy Hmax]].
      exists y. split; [exact Hy | split; [intros _; exact Hmax | discriminate]].
    - destruct (col_reduce_minimum j HW) as [y [Hy Hmin]].
      exists y. split; [exact Hy | split; [discriminate | intros _; exact Hmin]]. }
  assert (Hm : forall j, exists y, ideal_minus types (lift2 W) j = Fin y /\
                 (is_benefit types j = true -> is_min y (colR W j)) /\
                 (is_benefit types j = false -> is_max y (colR W j))).
  { intros j. unfold ideal_minus.
    destruct (is_benefit types j).
    - destruct (col_reduce_minimum j HW) as [y [Hy Hmin]].
      exists y. split; [exact Hy | split; [intros _; exact Hmin | discriminate]].
    - destruct (col_reduce_maximum j HW) as [y [Hy Hmax]].
      exists y. split; [exact Hy | split; [discriminate | intros _; exact Hmax]]. }
  exists (map (fun j => real_of (ideal_plus types (lift2 W) j)) (seq 0 n)),
    (map (fun j => real_of (ideal_minus types (lift2 W) j)) (seq 0 n)).
  split; [| split; [| split; [| split]]].
  - unfold lift. rewrite map_map. apply map_ext. intros j.
    destruct (Hp j) as [y [-> _]]. reflexivity.
  - unfold lift. rewrite map_map. apply map_ext. intros j.
    destruct (Hm j) as [y [-> _]]. reflexivity.
  - now rewrite length_map, length_seq.
  - now rewrite length_map, length_seq.
  - intros j Hj.
    rewrite !(nth_indep _ 0%R (real_of (ideal_plus types (lift2 W) 0)))
      by (now rewrite length_map, length_seq).
    rewrite (map_nth (fun j => real_of (ideal_plus types (lift2 W) j))).
    rewrite (nth_indep _ _ (real_of (ideal_minus types (lift2 W) 0)))
      by (now rewrite length_map, length_seq).
    rewrite (map_nth (fun j => real_of (ideal_minus types (lift2 W) j))).
    rewrite seq_nth by assumption. simpl Nat.add.
    destruct (Hp j) as [y [-> [Hy1 Hy2]]].
    destruct (Hm j) as [z [-> [Hz1 Hz2]]]. simpl real_of.
    split; intros E; split; auto.
Qed.

(** C4. For a weighted matrix of real numbers and every criterion [j], the
    positive ideal value is the maximum of column [j] and the negative
    ideal value its minimum when criterion [j] is a benefit, and the other
    way round when it is a cost. *)
Theorem ideal_points_are_column_extrema (W : list (list R)) types n :
  W <> [] -> rectangular n W -> length types = n ->
  exists ap am,
    find_ideal_solutions (Arr2 n (lift2 W)) types =
    Ok (Arr1 (lift ap), Arr1 (lift am)) /\
    length ap = n /\ length am = n /\
    forall j a b,
      nth_error ap j = Some a -> nth_error am j = Some b ->
      (nth_error types j = Some "benefit"%string ->
       is_max a (colR W j) /\ is_min b (colR W j)) /\
      (nth_error types j = Some "cost"%string ->
       is_min a (colR W j) /\ is_max b (colR W j)).
Proof.
  intros HW Hrect Ht.
  destruct (@ideal_points_real W types n HW)
    as (ap & am & Hap & Ham & Hlp & Hlm & Hcol).
  exists ap, am.
  split; [| split; [| split]]; auto.
  - rewrite find_ideal_solutions_rows
      by (unfold lift2; destruct W; [congruence | discriminate]).
    rewrite Ht, Nat.leb_refl, Hap, Ham. reflexivity.
  - intros j a b Ha Hb.
    assert (Hj : j < n).
    { rewrite <- Hlp. apply nth_error_Some. congruence. }
    destruct (Hcol j Hj) as [Hben Hcost].
    rewrite (nth_error_nth _ _ 0%R Ha), (nth_error_nth _ _ 0%R Hb)
      in Hben, Hcost.
    split; intros E.
    + apply Hben, is_benefit_true, E.
    + apply Hcost, is_benefit_false, E.
Qed.

(** ** Normalisation of a matrix without zero column *)

Lemma rect_length {A : Type} n (M : list (list A)) r :
  rectangular n M -> In r M -> length r = n.
Proof. unfold rectangular. rewrite Forall_forall. auto. Qed.

Lemma denominators_lift n M :
  rectangular n M -> denominators n (lift2 M) = lift (col_norms n M).
Proof.
  intros Hrect.
  pose proof (lift2_rectangular Hrect) as Hrect'.
  rewrite <- (map_nth_seq (denominators n (lift2 M)) (Fin 0)).
  rewrite (denominators_length Hrect').
  unfold col_norms, lift. rewrite map_map.
  apply map_ext_in. intros j Hj. apply in_seq in Hj.
  change (Fin 0) with (f_zero (F := xreal)).
  rewrite (denominators_nth Hrect') by lia.
  rewrite col_lift2, row_sum_sq_lift.
  apply xsqrt_fin, sum_sq_nonneg.
Qed.

Lemma norm_rows_lift n M :
  rectangular n M -> Forall (fun d => d <> 0%R) (col_norms n M) ->
  norm_rows n (lift2 M) = lift2 (normalized n M).
Proof.
  intros Hrect Hnz.
  rewrite (norm_rows_zip (lift2_rectangular Hrect)).
  rewrite (denominators_lift Hrect).
  unfold lift2, normalized. rewrite !map_map.
  apply map_ext. intros r. now apply zip_xdiv_lift.
Qed.

Lemma sum_sq_pos l x : In x l -> x <> 0%R -> (0 < sum_sq l)%R.
Proof.
  intros Hin Hx.
  destruct (Rle_lt_or_eq_dec _ _ (sum_sq_nonneg l)) as [H | H]; [exact H |].
  symmetry in H. apply sum_sq_zero in H. rewrite Forall_forall in H.
  specialize (H x Hin). congruence.
Qed.

Lemma col_norm_pos M j :
  (exists r, In r M /\ nth j r 0%R <> 0%R) -> (0 < l2norm (colR M j))%R.
Proof.
  intros [r [Hin Hr]]. unfold l2norm. apply sqrt_lt_R0.
  apply sum_sq_pos with (x := nth j r 0%R); [| exact Hr].
  unfold colR. now apply (in_map (fun r => nth j r 0%R)).
Qed.


Lemma col_norms_nonzero n M :
  (forall j, j < n -> exists r, In r M /\ nth j r 0%R <> 0%R) ->
  Forall (fun d => d <> 0%R) (col_norms n M).
Proof.
  intros H. unfold col_norms. apply Forall_map, Forall_forall.
  intros j Hj. apply in_seq in Hj.
  pose proof (col_norm_pos M j (H j ltac:(lia))). lra.
Qed.




Lemma normalized_rectangular n M :
  rectangular n M -> rectangular n (normalized n M).
Proof.
  intros Hrect. unfold normalized, rectangular. apply Forall_map.
  apply Forall_forall. intros r Hin. rewrite zip_with_length.
  rewrite (@rect_length _ n M r Hrect Hin). unfold col_norms.
  rewrite length_map, length_seq. lia.
Qed.



(** ** Dominance *)

Lemma weight_rows_lift n M w :
  rectangular n M -> length w = n ->
  Forall (fun d => d <> 0%R) (col_norms n M) ->
  weight_rows (lift w) (norm_rows n (lift2 M)) = lift2 (weightedR n M w).
Proof.
  intros Hrect Hw Hnz. rewrite (norm_rows_lift Hrect Hnz).
  rewrite (weight_rows_zip (lift w)
             (lift2_rectangular (normalized_rectangular Hrect)))
    by (now rewrite lift_length).
  unfold weightedR, lift2. rewrite !map_map. apply map_ext.
  intros r. apply zip_xmul_lift.
Qed.








Lemma zero_column_dec (M : list (list R)) j :
  (forall r, In r M -> nth j r 0%R = 0%R) \/
  (exists r, In r M /\ nth j r 0%R <> 0%R).
Proof.
  induction M as [|r M IH].
  - left. intros r [].
  - destruct (Req_dec_T (nth j r 0%R) 0) as [E | E].
    + destruct IH as [IH | [r' [Hin Hr']]].
      * left. intros r' [<- | Hin]; auto.
      * right. exists r'. split; [now right | assumption].
    + right. exists r. split; [now left | assumption].
Qed.

Lemma zero_columns_dec (M : list (list R)) n :
  (exists j, j < n /\ forall r, In r M -> nth j r 0%R = 0%R) \/
  (forall j, j < n -> exists r, In r M /\ nth j r 0%R <> 0%R).
Proof.
  induction n as [|n IH].
  - right. intros j Hj. lia.
  - destruct IH as [[j [Hj Hz]] | IH].
    + left. exists j. split; [lia | assumption].
    + destruct (zero_column_dec M n) as [Hz | Hnz].
      * left. exists n. split; [lia | assumption].
      * right. intros j Hj.
        destruct (Nat.eq_dec j n) as [-> | Hne]; [assumption |].
        apply IH. lia.
Qed.




(** ** Failure *)

Lemma compat_false n k :
  compat n k = false <-> (k <> n /\ k <> 1 /\ n <> 1).
Proof.
  unfold compat.
  destruct (Nat.eqb_spec n k), (Nat.eqb_spec n 1), (Nat.eqb_spec k 1);
    simpl; split; intros H; try discriminate; try lia; auto.
Qed.

(** C9, as the code has it.  The calculation raises exactly when the
    matrix has no row, or is not rectangular, or the number of weights can
    not be broadcast against the number of columns (it differs from it and
    neither is one), or there are fewer criterion types than columns of the
    weighted matrix.  In particular a weight vector of length [n + 1]
    raises [ValueError] when [n >= 2]. *)
Theorem perform_topsis_calculation_raises_iff {F : Type} {FO : Float64 F}
    (data : list (list F)) (weights : list F) (types : list string) :
  let n := length (hd [] data) in
  let k := length weights in
  ((exists e, perform_topsis_calculation data weights types = Raise e) <->
   (data = [] \/ ~ rectangular n data \/ (k <> n /\ k <> 1 /\ n <> 1) \/
    length types < bdim n k)) /\
  (data <> [] /\ rectangular n data /\ 2 <= n /\ k = n + 1 ->
   perform_topsis_calculation data weights types = Raise ValueError).
Proof.
  intros n k. subst n k.
  rewrite perform_topsis_calculation_cases.
  destruct data as [|r rs]; simpl hd.
  - split.
    + split; [tauto |]. intros _.
      destruct (compat 0 (length weights)); eauto.
    + intros [H _]. congruence.
  - pose proof (rectangular_forallb r rs) as Hrect.
    destruct (forallb (fun r' => length r' =? length r) rs); cbn [negb].
    + destruct (compat (length r) (length weights)) eqn:Hc; cbn [negb].
      * destruct (Nat.leb_spec (bdim (length r) (length weights))
                    (length types)) as [Hle | Hlt]; cbn [negb].
        -- split.
           ++ split.
              ** intros [e He]. discriminate.
              ** intros [H | [H | [H | H]]]; try discriminate.
                 --- exfalso. apply H, Hrect. reflexivity.
                 --- apply compat_false in H. congruence.
                 --- lia.
           ++ intros (_ & _ & Hn & Hk).
              assert (compat (length r) (length weights) = false)
                by (apply compat_false; lia).
              congruence.
        -- split; [| intros (_ & _ & Hn & Hk);
                     assert (compat (length r) (length weights) = false)
                       by (apply compat_false; lia); congruence].
           split; eauto.
      * split; [| reflexivity]. split; [| eauto].
        intros _. right. right. left. now apply compat_false.
    + split; [| intros (_ & H & _); apply Hrect in H; discriminate].
      split; [| eauto]. intros _. right. left. intros H.
      apply Hrect in H. discriminate.
Qed.

(** C9 as stated fails: no input is validated.  A criterion type outside
    [benefit]/[cost], a single weight for two columns, a type vector that
    is too long and a matrix without columns all return a result, in
    binary64 and in the idealised arithmetic alike. *)
Lemma unchecked_inputs_return :
  (is_ok (perform_topsis_calculation (F := float)
            [[1; 2]; [3; 4]]%float [0.5; 0.5]%float
            ["benefit"; "maximize"]%string) = true /\
   is_ok (perform_topsis_calculation (F := float)
            [[1; 2]; [3; 4]]%float [0.5]%float
            ["benefit"; "cost"]%string) = true /\
   is_ok (perform_topsis_calculation (F := float)
            [[1; 2]; [3; 4]]%float [0.5; 0.5]%float
            ["benefit"; "cost"; "cost"]%string) = true /\
   is_ok (perform_topsis_calculation (F := float)
            [[]; []] [] []) = true) /\
  (is_ok (perform_topsis_calculation
            [[Fin 1; Fin 2]; [Fin 3; Fin 4]] [Fin (1 / 2); Fin (1 / 2)]
            ["benefit"; "maximize"]%string) = true /\
   is_ok (perform_topsis_calculation
            [[Fin 1; Fin 2]; [Fin 3; Fin 4]] [Fin (1 / 2)]
            ["benefit"; "cost"]%string) = true /\
   is_ok (perform_topsis_calculation
            [[Fin 1; Fin 2]; [Fin 3; Fin 4]] [Fin (1 / 2); Fin (1 / 2)]
            ["benefit"; "cost"; "cost"]%string) = true /\
   is_ok (perform_topsis_calculation (F := xreal)
            [[]; []] [] []) = true).
Proof.
  split.
  - repeat split; vm_compute; reflexivity.
  - repeat split; rewrite perform_topsis_calculation_cases; reflexivity.
Qed.

(** C3, at the matrix [[0, 3], [0, 4]].  The normaliser divides the zero
    column by its zero norm and returns NaN there, not zero, in binary64
    and in the idealised arithmetic; the calculation as a whole returns,
    with every score 0. *)
Theorem zero_column_normalizes_to_nan :
  (matrix <- np_array [[0; 3]; [0; 4]]%float ;; normalize_matrix matrix) =
  Ok (Arr2 2 [[nan; 0x1.3333333333333p-1];
             [nan; 0x1.999999999999ap-1]]%float) /\
  (matrix <- np_array [[Fin 0; Fin 3]; [Fin 0; Fin 4]] ;;
   normalize_matrix matrix) =
  Ok (Arr2 2 [[NaN; Fin (3 / 5)]; [NaN; Fin (4 / 5)]]) /\
  (res <- perform_topsis_calculation [[0; 3]; [0; 4]]%float
            [0.5; 0.5]%float ["benefit"; "benefit"]%string ;;
   Ok (preference_values res)) = Ok (Arr1 [0; 0]%float).
Proof.
  split; [vm_compute; reflexivity |].
  split; [| vm_compute; reflexivity].
  set (data := [[Fin 0; Fin 3]; [Fin 0; Fin 4]]).
  assert (Hrect : rectangular 2 data) by (repeat constructor).
  rewrite (@np_array_rect _ data 2) by (auto; discriminate).
  cbn [bind]. rewrite (normalize_matrix_rows Hrect).
  rewrite (norm_rows_zip Hrect).
  assert (H0 : nth 0 (denominators 2 data) (Fin 0) = Fin 0).
  { apply zero_column_denominator; auto.
    intros r [<- | [<- | []]]; reflexivity. }
  assert (H1 : nth 1 (denominators 2 data) (Fin 0) = Fin 5).
  { change (Fin 0) with (f_zero (F := xreal)).
    rewrite (denominators_nth Hrect) by lia.
    change (col data 1) with (lift [3; 4]%R).
    rewrite row_sum_sq_lift.
    change (@f_sqrt xreal _) with xsqrt.
    rewrite xsqrt_fin by apply sum_sq_nonneg. f_equal. simpl sum_sq.
    replace (3 * 3 + (4 * 4 + 0))%R with (5 * 5)%R by ring.
    apply sqrt_square. lra. }
  pose proof (denominators_length Hrect) as Hlen.
  destruct (denominators 2 data) as [|d0 [|d1 [|d2 ds]]]; try discriminate.
  simpl in H0, H1. subst d0 d1.
  unfold data. cbn [map zip_with].
  change (@f_div xreal _) with xdiv.
  rewrite xdiv_zero_zero, !xdiv_fin by lra. reflexivity.
Qed.

(** ** The route *)

(** The matrix the route assembles has one row per alternative and one
    column per criterion, so the shape conditions of the theorems above
    hold for every project that passes the route's guard. *)
Lemma calculate_topsis_shapes {F : Type} {FO : Float64 F}
    (project : Project F) :
  let n := length (criteria project) in
  let data := map (fun alt => map (value_of alt) (criteria project))
                (alternatives project) in
  rectangular n data /\
  length data = length (alternatives project) /\
  length (map (@weight F) (criteria project)) = n /\
  length (map (@criterion_type F) (criteria project)) = n /\
  length (map (@alt_name F) (alternatives project)) = length data.
Proof.
  cbv zeta. repeat split; rewrite ?length_map; auto.
  unfold rectangular. apply Forall_map, Forall_forall.
  intros alt _. apply length_map.
Qed.

Lemma topsis_ranking_returns (data : list (list xreal)) weights types names n :
  data <> [] -> rectangular n data -> length weights = n ->
  length types = n -> length names = length data ->
  exists res ranking,
    topsis_ranking data weights types names = Ok (res, ranking) /\
    length ranking = length data.
Proof.
  intros Hne Hrect Hw Ht Hnames. unfold topsis_ranking.
  rewrite (@perform_valid _ _ data weights types n) by (auto; lia).
  cbn [bind].
  destruct (preference_values (stages data weights types)) as [| pv |]
    eqn:Hpv; try discriminate.
  pose proof (stages_scores_length Hpv) as Hlen.
  rewrite (create_ranking_entries _ _ Hpv) by congruence.
  cbn [bind]. eexists. eexists. split; [reflexivity |].
  rewrite length_map, enumerate_length.
  rewrite (Permutation_length (sorted_reverse_perm _ _)), enumerate_length.
  exact Hlen.
Qed.

(** The route answers 404 without a project, 400 without criteria or
    alternatives, and otherwise, in the idealised arithmetic, 200 with a
    ranking of all the alternatives: the calculation never raises on the
    data the route assembles. *)
Lemma calculate_topsis_responses (project : option (Project xreal)) :
  match project with
  | None => calculate_topsis project = Ok (@Http404 xreal)
  | Some p =>
      if (length (criteria p) =? 0) || (length (alternatives p) =? 0)
      then calculate_topsis project = Ok (@Http400 xreal)
      else exists res names cnames ranking,
          calculate_topsis project = Ok (Http200 res names cnames ranking) /\
          length ranking = length (alternatives p)
  end.
Proof.
  destruct project as [p |]; [| reflexivity].
  pose proof (calculate_topsis_shapes p) as Hs. cbv zeta in Hs.
  destruct p as [crits alts]. unfold calculate_topsis. cbn [criteria alternatives] in *.
  destruct crits as [| c cs]; [reflexivity |].
  destruct alts as [| a al]; [reflexivity |].
  destruct Hs as (Hrect & Hlen & Hw & Ht & Hnames).
  cbn [length Nat.eqb orb].
  assert (Hne : map (fun alt => map (value_of alt) (c :: cs)) (a :: al) <> [])
    by discriminate.
  destruct (@topsis_ranking_returns _ _ _ _ _ Hne Hrect Hw Ht Hnames)
    as (res & ranking & Hrun & Hrl).
  rewrite Hrun. cbn [bind].
  eexists. eexists. eexists. eexists. split; [reflexivity |].
  now rewrite Hrl, Hlen.
Qed.

(** ** Binary64 against exact arithmetic

    Where a statement above is about the values of real numbers, binary64
    follows it up to rounding at best.  The next three lemmas run the code
    in binary64 on inputs at which rounding or underflow breaks the
    statement as the specification has it. *)



(** C8 as stated fails in binary64.  In the weighted matrix of the rows
    [2^-600] and [0] with a benefit criterion the positive ideal point is
    [2^-600]; the second row differs from it, and its squared difference
    underflows: its distance to the positive ideal point is 0. *)
Lemma tiny_difference_distance_zero :
  find_ideal_solutions (Arr2 1 [[0x1p-600]; [0]]%float) ["benefit"%string] =
  Ok (Arr1 [0x1p-600]%float, Arr1 [0]%float) /\
  calculate_distances (Arr2 1 [[0x1p-600]; [0]]%float)
    (Arr1 [0x1p-600]%float) (Arr1 [0]%float) =
  Ok (Arr1 [0; 0]%float, Arr1 [0; 0]%float) /\
  (0 =? 0x1p-600)%float = false.
Proof. repeat split; vm_compute; reflexivity. Qed.

(** ** The theorems at concrete inputs *)

(** Three alternatives and four criteria, in binary64: scores in [0,1] and
    the ranking third, first, second. *)
Example ranking_of_three_alternatives :
  (r <- topsis_ranking (F := float)
          [[250; 16; 12; 5]; [200; 16; 8; 3]; [300; 32; 16; 4]]%float
          [0.25; 0.25; 0.25; 0.25]%float
          ["cost"; "benefit"; "benefit"; "benefit"]%string
          ["A"; "B"; "C"]%string ;;
   Ok (map (fun e => (rank e, alternative_index e, alternative_name e,
                      (0 <=? value e)%float && (value e <=? 1)%float))
         (snd r))) =
  Ok [(1, 2, "C"%string, true); (2, 0, "A"%string, true);
      (3, 1, "B"%string, true)].
Proof. vm_compute. reflexivity. Qed.

Lemma ranking_sorted_permutation_witness :
  exists res ranking,
    topsis_ranking [[Fin 1; Fin 2]; [Fin 3; Fin 4]] [Fin 1; Fin 1]
      ["benefit"; "cost"]%string ["a"; "b"]%string = Ok (res, ranking) /\
    map (@rank _) ranking = [1; 2] /\
    Permutation (map (@alternative_index _) ranking) [0; 1].
Proof.
  destruct (@ranking_sorted_permutation
              [[Fin 1; Fin 2]; [Fin 3; Fin 4]] [Fin 1; Fin 1]
              ["benefit"; "cost"]%string ["a"; "b"]%string 2)
    as (res & ranking & pv & H1 & _ & H2 & H3 & _);
    [discriminate | lia | repeat constructor | reflexivity | reflexivity
    | reflexivity |].
  exists res, ranking. auto.
Defined.


Lemma ideal_points_are_column_extrema_witness :
  exists ap am,
    find_ideal_solutions (Arr2 2 (lift2 [[1; 2]; [3; 4]]%R))
      ["benefit"; "cost"]%string = Ok (Arr1 (lift ap), Arr1 (lift am)) /\
    length ap = 2 /\ length am = 2.
Proof.
  destruct (@ideal_points_are_column_extrema [[1; 2]; [3; 4]]%R
              ["benefit"; "cost"]%string 2)
    as (ap & am & H1 & H2 & H3 & _);
    [discriminate | repeat constructor | reflexivity |].
  exists ap, am. auto.
Defined.

Lemma preference_values_closeness_witness :
  exists V,
    calculate_preference_values (Arr1 (lift [3; 0]%R)) (Arr1 (lift [1; 0]%R)) =
    Ok (Arr1 (lift V)) /\ length V = 2.
Proof.
  destruct (proj1 preference_values_closeness [3; 0]%R [1; 0]%R)
    as (V & H1 & H2 & _);
    [reflexivity | repeat constructor; lra | repeat constructor; lra |].
  exists V. auto.
Defined.

Lemma preference_scores_in_unit_interval_witness :
  exists res pv,
    perform_topsis_calculation [[Fin 1; Fin 2]; [Fin 3; Fin 4]]
      [Fin 1; Fin 1] ["benefit"; "cost"]%string = Ok res /\
    preference_values res = Arr1 pv /\ Forall in_unit_interval pv.
Proof.
  destruct (@preference_scores_in_unit_interval
              [[Fin 1; Fin 2]; [Fin 3; Fin 4]] [Fin 1; Fin 1]
              ["benefit"; "cost"]%string 2)
    as (res & pv & H1 & H2 & _ & H3);
    [discriminate | lia | repeat constructor | reflexivity | reflexivity |].
  exists res, pv. auto.
Defined.


Lemma distances_nonnegative_zero_at_ideal_witness :
  (exists dp dm,
     calculate_distances (Arr2 2 [[1; 2]; [3; 4]]%float)
       (Arr1 [3; 4]%float) (Arr1 [1; 2]%float) = Ok (Arr1 dp, Arr1 dm) /\
     Forall (fun d => (d <? 0)%float = false) dp /\
     nth_error dp 1 = Some 0%float) /\
  (exists dp dm,
     calculate_distances (Arr2 2 (lift2 [[1; 2]; [3; 4]]%R))
       (Arr1 (lift [3; 4]%R)) (Arr1 (lift [1; 2]%R)) =
     Ok (Arr1 (lift dp), Arr1 (lift dm)) /\
     Forall (fun d => 0 <= d)%R dp /\ Forall (fun d => 0 <= d)%R dm).
Proof.
  destruct distances_nonnegative_zero_at_ideal as [Hfloat Hexact]. split.
  - destruct (Hfloat [[1; 2]; [3; 4]]%float [3; 4]%float [1; 2]%float 2)
      as (dp & dm & H1 & _ & _ & H2 & _ & H3);
      [repeat constructor | reflexivity | reflexivity |].
    exists dp, dm. split; [exact H1 |]. split; [exact H2 |].
    apply H3; reflexivity.
  - destruct (Hexact [[1; 2]; [3; 4]]%R [3; 4]%R [1; 2]%R 2)
      as (dp & dm & H1 & _ & _ & H2 & H3 & _);
      [repeat constructor | reflexivity | reflexivity |].
    exists dp, dm. auto.
Defined.

Lemma perform_topsis_calculation_raises_iff_witness :
  perform_topsis_calculation [[Fin 1; Fin 2]; [Fin 3; Fin 4]]
    [Fin 1; Fin 1; Fin 1] ["benefit"; "cost"]%string = Raise ValueError.
Proof.
  apply (proj2 (perform_topsis_calculation_raises_iff
                  [[Fin 1; Fin 2]; [Fin 3; Fin 4]]
                  [Fin 1; Fin 1; Fin 1] ["benefit"; "cost"]%string)).
  simpl. repeat split; try lia; try discriminate. repeat constructor.
Defined.

Lemma zero_column_scores_all_zero_witness :
  exists res,
    perform_topsis_calculation [[Fin 0; Fin 3]; [Fin 0; Fin 4]]
      [Fin 1; Fin 1] ["benefit"; "cost"]%string = Ok res /\
    preference_values res = Arr1 [Fin 0; Fin 0].
Proof.
  destruct (@zero_column_scores_all_zero
              [[Fin 0; Fin 3]; [Fin 0; Fin 4]] [Fin 1; Fin 1]
              ["benefit"; "cost"]%string 2 0)
    as (res & N & W & ap & am & H);
    [discriminate | repeat constructor | reflexivity | reflexivity | lia | |].
  - intros r [<- | [<- | []]]; reflexivity.
  - exists res. split; [apply H |].
    destruct H as (_ & _ & _ & _ & _ & _ & _ & _ & _ & _ & _ & H). exact H.
Defined.

(** * Further properties of the calculation *)

(** ** Shapes, in every arithmetic *)

Section AnyArithmetic.
Context {F : Type} {FO : Float64 F}.

(** On a valid input every array of the result has the shape of its role:
    the two matrices are [m] by [n], the ideal points have [n] entries,
    the distances and the scores [m]. *)
Theorem perform_topsis_calculation_shapes (data : list (list F)) weights
    types n :
  data <> [] -> rectangular n data ->
  length weights = n -> length types = n ->
  exists res N W ap am dp dm pv,
    perform_topsis_calculation data weights types = Ok res /\
    (normalized_matrix res = Arr2 n N /\ length N = length data /\
     rectangular n N) /\
    (weighted_matrix res = Arr2 n W /\ length W = length data /\
     rectangular n W) /\
    (A_plus res = Arr1 ap /\ length ap = n) /\
    (A_minus res = Arr1 am /\ length am = n) /\
    (D_plus res = Arr1 dp /\ length dp = length data) /\
    (D_minus res = Arr1 dm /\ length dm = length data) /\
    (preference_values res = Arr1 pv /\ length pv = length data).
Proof.
  intros Hne Hrect Hw Ht.
  rewrite (@perform_valid _ _ data weights types n) by (auto; lia).
  assert (Hhd : length (hd [] data) = n).
  { destruct data as [|r rs]; [congruence |]. now inversion Hrect. }
  pose proof (norm_rows_rectangular Hrect) as HN.
  pose proof (weight_rows_rectangular weights HN Hw) as HW.
  unfold stages. rewrite Hhd, Hw, bdim_refl.
  do 8 eexists. split; [reflexivity |]. cbn.
  repeat match goal with |- _ /\ _ => split end;
    try reflexivity; auto;
    rewrite ?scores_length, ?length_map, ?length_seq;
    unfold weight_rows, norm_rows; rewrite ?length_map; auto.
Qed.

(** A single weight is not rejected: NumPy broadcasts it, and the result is
    the one for that weight repeated for every column. *)
Theorem single_weight_is_broadcast (data : list (list F)) w types n :
  data <> [] -> rectangular n data ->
  perform_topsis_calculation data [w] types =
  perform_topsis_calculation data (repeat w n) types.
Proof.
  intros Hne Hrect.
  rewrite !perform_topsis_calculation_cases.
  destruct data as [|r rs]; [congruence |].
  assert (Hn : length r = n) by (inversion Hrect; assumption).
  rewrite repeat_length, Hn. cbn [length].
  assert (Hc : compat n 1 = true).
  { unfold compat. rewrite Nat.eqb_refl. apply orb_true_r. }
  assert (Hb : bdim n 1 = n).
  { unfold bdim. destruct (Nat.eqb_spec n 1); congruence. }
  rewrite Hc, compat_refl, Hb, bdim_refl.
  destruct (forallb _ rs); cbn [negb]; [| reflexivity].
  destruct (n <=? length types); cbn [negb]; [| reflexivity].
  f_equal. unfold stages. cbn [hd length].
  rewrite repeat_length, Hn, Hb, bdim_refl.
  assert (HW : weight_rows [w] (norm_rows n (r :: rs)) =
               weight_rows (repeat w n) (norm_rows n (r :: rs))).
  { unfold weight_rows. apply map_ext_in. intros x Hin.
    assert (Hx : length x = n)
      by (eapply rect_length; [apply (norm_rows_rectangular Hrect) | exact Hin]).
    rewrite (bc_list_same f_mul x (repeat w n))
      by (now rewrite repeat_length).
    unfold bc_list. cbn [length].
    destruct (Nat.eqb_spec (length x) 1) as [E | E].
    - rewrite <- Hx, E. destruct x as [|y [|z x]]; try discriminate.
      reflexivity.
    - rewrite <- Hx. clear Hx Hin.
      destruct x as [|y [|z x]]; [reflexivity | simpl in E; lia |].
      generalize (y :: z :: x). intros l.
      induction l as [|a l IH]; simpl; [reflexivity | now rewrite <- IH]. }
  now rewrite HW.
Qed.

Lemma insert_by_permutation {A : Type} (key : A -> F) x l :
  Permutation (insert_by key x l) (x :: l).
Proof.
  induction l as [|y l IH]; simpl; [reflexivity |].
  destruct (f_ltb (key y) (key x)); [| reflexivity].
  rewrite IH. apply perm_swap.
Qed.

Lemma sort_by_permutation {A : Type} (key : A -> F) l :
  Permutation (sort_by key l) l.
Proof.
  induction l as [|x l IH]; simpl; [reflexivity |].
  rewrite insert_by_permutation. now constructor.
Qed.

Lemma sorted_reverse_permutation {A : Type} (key : A -> F) l :
  Permutation (sorted_reverse key l) l.
Proof.
  unfold sorted_reverse.
  rewrite <- Permutation_rev, sort_by_permutation, <- Permutation_rev.
  reflexivity.
Qed.

Lemma create_ranking_list (res : TopsisResult F) names pv :
  preference_values res = Arr1 pv -> length pv <= length names ->
  create_ranking res names =
  Ok (map (rank_entry names)
        (enumerate (sorted_reverse (fun x => snd x) (enumerate pv)))).
Proof.
  intros Hpv Hlen. unfold create_ranking. rewrite Hpv.
  apply mapM_map. intros [i [k v]] Hin. simpl.
  apply enumerate_nth_error in Hin. apply nth_error_In in Hin.
  eapply Permutation_in in Hin; [| apply sorted_reverse_permutation].
  apply enumerate_nth_error in Hin.
  assert (Hk : k < length names).
  { apply Nat.lt_le_trans with (length pv); [| exact Hlen].
    apply nth_error_Some. congruence. }
  unfold getitem.
  destruct (nth_error names k) as [name|] eqn:En.
  - simpl. unfold rank_entry; simpl.
    now rewrite (nth_error_nth _ _ _ En).
  - apply nth_error_None in En. lia.
Qed.

(** Whatever the scores are (NaN included, where [<] is no order), the
    ranking of the route loses and repeats no alternative: the ranks are
    [1..m], the indices a permutation of [0..m-1], and every entry carries
    the score and the name of its own alternative. *)
Theorem create_ranking_keeps_alternatives (res : TopsisResult F) names pv :
  preference_values res = Arr1 pv -> length names = length pv ->
  exists ranking,
    create_ranking res names = Ok ranking /\
    map (@rank _) ranking = seq 1 (length pv) /\
    Permutation (map (@alternative_index _) ranking) (seq 0 (length pv)) /\
    forall e, In e ranking ->
      nth_error pv (alternative_index e) = Some (value e) /\
      nth_error names (alternative_index e) = Some (alternative_name e).
Proof.
  intros Hpv Hlen.
  rewrite (create_ranking_list _ _ Hpv) by lia.
  set (srt := sorted_reverse (fun x => snd x) (enumerate pv)).
  assert (Hperm : Permutation srt (enumerate pv))
    by apply sorted_reverse_permutation.
  assert (Hslen : length srt = length pv)
    by (now rewrite (Permutation_length Hperm), enumerate_length).
  eexists. split; [reflexivity |]. split; [| split].
  - rewrite map_map. simpl.
    rewrite <- (map_map fst (fun i => i + 1)), enumerate_fst, Hslen.
    rewrite <- seq_shift. apply map_ext. intros; lia.
  - rewrite map_map. simpl.
    rewrite <- (map_map snd fst), enumerate_snd.
    now rewrite Hperm, enumerate_fst.
  - intros e He. apply in_map_iff in He as [[i [k v]] [<- Hin]]. simpl.
    apply enumerate_nth_error in Hin. apply nth_error_In in Hin.
    eapply Permutation_in in Hin; [| exact Hperm].
    apply enumerate_nth_error in Hin. split; [exact Hin |].
    apply nth_error_nth'. rewrite Hlen. apply nth_error_Some. congruence.
Qed.

End AnyArithmetic.

(** ** Ties and identical alternatives *)

Section Ties.
Context {F : Type} {FO : Float64 F}.

Lemma sort_by_unordered {A : Type} (key : A -> F) l :
  (forall x y, In x l -> In y l -> f_ltb (key x) (key y) = false) ->
  sort_by key l = l.
Proof.
  induction l as [|x l IH]; intros H; simpl; [reflexivity |].
  rewrite IH by (intros a b Ha Hb; apply H; now right).
  destruct l as [|y l]; simpl; [reflexivity |].
  rewrite H; [reflexivity | now right; left | now left].
Qed.

Lemma sorted_reverse_unordered {A : Type} (key : A -> F) l :
  (forall x y, In x l -> In y l -> f_ltb (key x) (key y) = false) ->
  sorted_reverse key l = l.
Proof.
  intros H. unfold sorted_reverse.
  rewrite sort_by_unordered; [apply rev_involutive |].
  intros x y Hx Hy. apply H; now apply in_rev.
Qed.

Lemma np_maximum_same (x : F) : np_maximum x x = x.
Proof. unfold np_maximum. now destruct (f_leb x x || f_isnan x). Qed.

Lemma np_minimum_same (x : F) : np_minimum x x = x.
Proof. unfold np_minimum. now destruct (f_leb x x || f_isnan x). Qed.

Lemma fold_same (op : F -> F -> F) x l :
  op x x = x -> Forall (eq x) l -> fold_left op l x = x.
Proof.
  intros Hop Hl. induction Hl as [|y l <- _ IH]; simpl; [reflexivity |].
  now rewrite Hop.
Qed.

Lemma col_reduce_same (op : F -> F -> F) (w : list F) rows j :
  (forall x, op x x = x) -> rows <> [] -> Forall (eq w) rows ->
  col_reduce op rows j = nth j w f_zero.
Proof.
  intros Hop Hne Hall. unfold col_reduce, col.
  destruct rows as [|r rows]; [congruence |].
  inversion Hall as [|? ? <- Hrest]; subst. cbn [map].
  apply fold_same; [apply Hop |].
  apply Forall_map. eapply Forall_impl; [| exact Hrest].
  intros r' <-. reflexivity.
Qed.

(** When all weighted rows are the same row, both ideal points are that
    row. *)
Lemma ideal_points_same (w : list F) rows types :
  rows <> [] -> Forall (eq w) rows ->
  map (ideal_plus types rows) (seq 0 (length w)) = w /\
  map (ideal_minus types rows) (seq 0 (length w)) = w.
Proof.
  intros Hne Hall.
  assert (Hp : forall j, ideal_plus types rows j = nth j w f_zero).
  { intros j. unfold ideal_plus.
    destruct (is_benefit types j); apply col_reduce_same;
      auto using np_maximum_same, np_minimum_same. }
  assert (Hm : forall j, ideal_minus types rows j = nth j w f_zero).
  { intros j. unfold ideal_minus.
    destruct (is_benefit types j); apply col_reduce_same;
      auto using np_maximum_same, np_minimum_same. }
  split.
  - rewrite (map_ext _ _ Hp). apply map_nth_seq.
  - rewrite (map_ext _ _ Hm). apply map_nth_seq.
Qed.

End Ties.

Lemma xltb_irrefl x : xltb x x = false.
Proof. destruct x; simpl; auto. apply Rltb_false. lra. Qed.

Lemma enumerate_repeat_in {A : Type} (v : A) m p :
  In p (enumerate (repeat v m)) -> snd p = v.
Proof.
  destruct p as [i x]. intros H. apply enumerate_nth_error in H.
  apply nth_error_In in H. apply repeat_spec in H. exact H.
Qed.

(** With equal scores the ranking is the input order. *)
Lemma ranking_of_equal_scores (res : TopsisResult xreal) names v m :
  preference_values res = Arr1 (repeat v m) -> length names = m ->
  exists ranking,
    create_ranking res names = Ok ranking /\
    map (@rank _) ranking = seq 1 m /\
    map (@alternative_index _) ranking = seq 0 m /\
    map (@value _) ranking = repeat v m.
Proof.
  intros Hpv Hlen.
  rewrite (create_ranking_list _ _ Hpv) by (rewrite repeat_length; lia).
  rewrite sorted_reverse_unordered.
  2:{ intros x y Hx Hy. cbn [f_ltb xreal_float].
      rewrite (enumerate_repeat_in _ _ _ Hx), (enumerate_repeat_in _ _ _ Hy).
      apply xltb_irrefl. }
  eexists. split; [reflexivity |].
  rewrite !map_map. cbn [rank alternative_index value rank_entry].
  split; [| split].
  - rewrite <- (map_map fst (fun i => i + 1)), enumerate_fst.
    rewrite enumerate_length, repeat_length, <- seq_shift.
    apply map_ext. intros; lia.
  - rewrite <- (map_map snd fst), enumerate_snd, enumerate_fst.
    now rewrite repeat_length.
  - rewrite <- (map_map snd snd), !enumerate_snd. reflexivity.
Qed.

(** Alternatives that are all alike cannot be told apart: whatever the
    common row, every score is 0 and the ranking is the input order. *)
Theorem identical_alternatives_score_zero (row weights : list xreal) types
    names m n :
  1 <= m -> length row = n -> length weights = n -> length types = n ->
  length names = m ->
  exists res ranking,
    topsis_ranking (repeat row m) weights types names = Ok (res, ranking) /\
    preference_values res = Arr1 (repeat (Fin 0) m) /\
    map (@rank _) ranking = seq 1 m /\
    map (@alternative_index _) ranking = seq 0 m.
Proof.
  intros Hm Hr Hw Ht Hnames.
  assert (Hne : repeat row m <> []) by (destruct m; [lia | discriminate]).
  assert (Hrect : rectangular n (repeat row m)).
  { apply Forall_forall. intros r Hin. apply repeat_spec in Hin. congruence. }
  unfold topsis_ranking.
  rewrite (@perform_valid _ _ (repeat row m) weights types n) by (auto; lia).
  cbn [bind].
  assert (Hpv : preference_values (stages (repeat row m) weights types) =
                Arr1 (repeat (Fin 0) m)).
  { pose proof (stages_scores (repeat row m) weights types) as H.
    cbv zeta in H. rewrite H. clear H.
    assert (Hhd : length (hd [] (repeat row m)) = n)
      by (destruct m; [lia | exact Hr]).
    rewrite Hhd, Hw, bdim_refl.
    set (W := weight_rows weights (norm_rows n (repeat row m))).
    assert (HW : exists w, length w = n /\ Forall (eq w) W /\
                           length W = m /\ W <> []).
    { exists (bc_list f_mul
                (bc_list f_div row (denominators n (repeat row m))) weights).
      pose proof (weight_rows_rectangular weights
                    (norm_rows_rectangular Hrect) Hw) as HWr.
      fold W in HWr. unfold W, weight_rows, norm_rows in *.
      rewrite !map_repeat in *. split; [| split; [| split]].
      - apply (@rect_length _ n _ _ HWr). destruct m; [lia | now left].
      - apply Forall_forall. intros r Hin. apply repeat_spec in Hin.
        now symmetry.
      - apply repeat_length.
      - destruct m; [lia | discriminate]. }
    destruct HW as (w & Hlw & Hall & HlW & HWne).
    destruct (ideal_points_same types HWne Hall) as [Hap Ham].
    rewrite Hlw in Hap, Ham. rewrite Hap, Ham.
    rewrite <- HlW. f_equal. apply map_const_repeat.
    intros r Hin. rewrite Forall_forall in Hall. rewrite <- (Hall r Hin).
    unfold score_of.
    change (@f_div xreal _) with xdiv. change (@f_add xreal _) with xadd.
    apply zn_score; apply zn_dist_self. }
  destruct (@ranking_of_equal_scores _ names _ _ Hpv Hnames)
    as (ranking & Hrk & Hranks & Hidx & _).
  rewrite Hrk. cbn [bind].
  exists (stages (repeat row m) weights types), ranking. auto.
Qed.

(** ** The route on incomplete data *)

Lemma find_none_all {A : Type} (f : A -> bool) l :
  (forall x, In x l -> f x = false) -> find f l = None.
Proof.
  induction l as [|x l IH]; intros H; simpl; [reflexivity |].
  rewrite H by (now left). apply IH. intros y Hy. apply H. now right.
Qed.

Lemma zero_column_ranking (data : list (list xreal)) weights types names n j :
  data <> [] -> rectangular n data -> length weights = n ->
  length types = n -> length names = length data -> j < n ->
  (forall r, In r data -> nth j r (Fin 0) = Fin 0) ->
  exists res ranking,
    topsis_ranking data weights types names = Ok (res, ranking) /\
    preference_values res = Arr1 (repeat (Fin 0) (length data)) /\
    map (@rank _) ranking = seq 1 (length data) /\
    map (@alternative_index _) ranking = seq 0 (length data).
Proof.
  intros Hne Hrect Hw Ht Hnames Hj Hz.
  unfold topsis_ranking.
  rewrite (@perform_valid _ _ data weights types n) by (auto; lia).
  cbn [bind].
  assert (Hpv : preference_values (stages data weights types) =
                Arr1 (repeat (Fin 0) (length data))).
  { pose proof (stages_scores data weights types) as H. cbv zeta in H.
    rewrite H. clear H.
    assert (Hhd : length (hd [] data) = n).
    { destruct data as [|r rs]; [congruence |]. now inversion Hrect. }
    rewrite Hhd, Hw, bdim_refl. f_equal.
    now apply zero_column_scores with (j := j). }
  destruct (@ranking_of_equal_scores _ names _ _ Hpv Hnames)
    as (ranking & Hrk & Hranks & Hidx & _).
  rewrite Hrk. cbn [bind].
  exists (stages data weights types), ranking. auto.
Qed.

(** A criterion for which no alternative has a value makes the ranking void.
    The route fills its column with the default 0; the column is divided by
    its zero norm; the route still answers 200, with every score 0 and the
    alternatives in their stored order. *)
Theorem calculate_topsis_unvalued_criterion (p : Project xreal) c j :
  alternatives p <> [] -> nth_error (criteria p) j = Some c ->
  (forall alt v, In alt (alternatives p) -> In v (alt_values alt) ->
     acv_criterion_id v <> crit_id c) ->
  exists res names cnames ranking,
    calculate_topsis (Some p) = Ok (Http200 res names cnames ranking) /\
    preference_values res =
      Arr1 (repeat (Fin 0) (length (alternatives p))) /\
    map (@rank _) ranking = seq 1 (length (alternatives p)) /\
    map (@alternative_index _) ranking = seq 0 (length (alternatives p)).
Proof.
  intros Halts Hc Hnone.
  pose proof (calculate_topsis_shapes p) as Hs. cbv zeta in Hs.
  destruct p as [crits alts]. unfold calculate_topsis.
  cbn [criteria alternatives] in *.
  destruct crits as [| c0 cs]; [destruct j; discriminate |].
  destruct alts as [| a al]; [congruence |].
  destruct Hs as (Hrect & Hlen & Hw & Ht & Hnames).
  set (crits := c0 :: cs) in *. set (alts := a :: al) in *.
  assert (Hne : map (fun alt => map (value_of alt) crits) alts <> [])
    by discriminate.
  assert (Hj : j < length crits) by (apply nth_error_Some; congruence).
  assert (Hz : forall r,
             In r (map (fun alt => map (value_of alt) crits) alts) ->
             nth j r (Fin 0) = Fin 0).
  { intros r Hin. apply in_map_iff in Hin as [alt [<- Halt]].
    apply nth_error_nth. rewrite nth_error_map, Hc. cbn [option_map].
    f_equal. unfold value_of. rewrite find_none_all; [reflexivity |].
    intros v Hv. apply Nat.eqb_neq. now apply (Hnone alt v). }
  destruct (@zero_column_ranking _ _ _ _ _ j Hne Hrect Hw Ht Hnames Hj Hz)
    as (res & ranking & Hrun & Hpv & Hranks & Hidx).
  rewrite Hrun. cbn [bind]. rewrite Hlen in *.
  do 4 eexists. split; [reflexivity |]. auto.
Qed.

(** ** Criterion types, and the scorer on arbitrary arrays *)

Lemma is_benefit_other types j t :
  nth_error types j = Some t -> t <> "benefit"%string ->
  is_benefit types j = false.
Proof.
  intros H Ht. unfold is_benefit. rewrite (nth_error_nth _ _ _ H).
  now apply String.eqb_neq.
Qed.

(** Only the exact string [benefit] selects the maximum.  Every other type
    ([cost], but also [Benefit], the empty string or a misspelling) is
    handled as a cost: the positive ideal is the column minimum and the
    negative ideal the column maximum. *)
Theorem other_types_are_costs (W : list (list R)) types n :
  W <> [] -> rectangular n W -> length types = n ->
  exists ap am,
    find_ideal_solutions (Arr2 n (lift2 W)) types =
    Ok (Arr1 (lift ap), Arr1 (lift am)) /\
    forall j t a b,
      nth_error types j = Some t -> t <> "benefit"%string ->
      nth_error ap j = Some a -> nth_error am j = Some b ->
      is_min a (colR W j) /\ is_max b (colR W j).
Proof.
  intros HW Hrect Ht.
  destruct (@ideal_points_real W types n HW)
    as (ap & am & Hap & Ham & Hlp & Hlm & Hcol).
  exists ap, am. split.
  - rewrite find_ideal_solutions_rows
      by (unfold lift2; destruct W; [congruence | discriminate]).
    rewrite Ht, Nat.leb_refl, Hap, Ham. reflexivity.
  - intros j t a b Hj Hne Ha Hb.
    assert (Hlt : j < n).
    { rewrite <- Hlp. apply nth_error_Some. congruence. }
    destruct (Hcol j Hlt) as [_ Hcost].
    rewrite (nth_error_nth _ _ 0%R Ha), (nth_error_nth _ _ 0%R Hb) in Hcost.
    apply Hcost. eapply is_benefit_other; eauto.
Qed.

(** The scorer accepts every pair of 1-d arrays whose lengths NumPy can
    broadcast and raises [ValueError] on the others; what it returns holds
    no NaN and no infinity, whatever the arrays hold. *)
Theorem calculate_preference_values_finite (dp dm : list xreal) :
  if compat (length dp) (length dm)
  then exists V,
      calculate_preference_values (Arr1 dp) (Arr1 dm) = Ok (Arr1 V) /\
      length V = bdim (length dp) (length dm) /\ Forall finite V
  else calculate_preference_values (Arr1 dp) (Arr1 dm) = Raise ValueError.
Proof.
  unfold calculate_preference_values, np_add, np_divide. cbn [ufunc2].
  destruct (compat (length dp) (length dm)) eqn:Hc; [| reflexivity].
  cbn [bind ufunc2].
  pose proof (bc_list_length f_add dp dm Hc) as Hlen.
  assert (Hc' : compat (length dm) (length (bc_list f_add dp dm)) = true).
  { rewrite Hlen. unfold compat, bdim in *.
    destruct (Nat.eqb_spec (length dp) (length dm)),
      (Nat.eqb_spec (length dp) 1), (Nat.eqb_spec (length dm) 1);
      simpl in *; try discriminate;
      rewrite ?Nat.eqb_refl, ?orb_true_r; auto.
    destruct (Nat.eqb_spec (length dm) (length dp)); auto. }
  rewrite Hc'. cbn [bind nan_to_num ufunc1].
  eexists. split; [reflexivity |]. split.
  - rewrite length_map, (bc_list_length f_div _ _ Hc'), Hlen.
    unfold compat, bdim in *.
    destruct (Nat.eqb_spec (length dp) (length dm)),
      (Nat.eqb_spec (length dp) 1), (Nat.eqb_spec (length dm) 1);
      simpl in *; try discriminate; try congruence; try lia.
  - apply Forall_map, Forall_forall. intros x _. apply nan_to_num_finite.
Qed.

(** ** Weights that are all zero *)

Lemma hd_length_rect {A : Type} n (data : list (list A)) :
  data <> [] -> rectangular n data -> length (hd [] data) = n.
Proof.
  intros Hne Hrect. destruct data as [|r rs]; [congruence |].
  now inversion Hrect.
Qed.

Lemma stages_zero_column (data : list (list xreal)) weights types n j :
  data <> [] -> rectangular n data -> length weights = n -> j < n ->
  (forall r, In r data -> nth j r (Fin 0) = Fin 0) ->
  preference_values (stages data weights types) =
  Arr1 (repeat (Fin 0) (length data)).
Proof.
  intros Hne Hrect Hw Hj Hz.
  pose proof (stages_scores data weights types) as H. cbv zeta in H.
  rewrite H, (hd_length_rect Hne Hrect), Hw, bdim_refl. f_equal.
  now apply zero_column_scores with (j := j).
Qed.

Lemma lift2_zero_column M j :
  (forall r, In r M -> nth j r 0%R = 0%R) ->
  forall r, In r (lift2 M) -> nth j r (Fin 0) = Fin 0.
Proof.
  intros Hz r Hin. unfold lift2 in Hin.
  apply in_map_iff in Hin as [r0 [<- Hin0]].
  now rewrite lift_nth, (Hz r0 Hin0).
Qed.

Lemma equal_rows_scores (W : list (list xreal)) (w : list xreal) types :
  W <> [] -> Forall (eq w) W ->
  map (score_of (map (ideal_plus types W) (seq 0 (length w)))
         (map (ideal_minus types W) (seq 0 (length w)))) W =
  repeat (Fin 0) (length W).
Proof.
  intros Hne Hall.
  destruct (ideal_points_same types Hne Hall) as [-> ->].
  apply map_const_repeat. intros r Hin.
  rewrite Forall_forall in Hall. rewrite <- (Hall r Hin).
  unfold score_of.
  change (@f_div xreal _) with xdiv. change (@f_add xreal _) with xadd.
  apply zn_score; apply zn_dist_self.
Qed.

Lemma zip_mult_zero r n :
  length r = n -> zip_with Rmult r (repeat 0%R n) = repeat 0%R n.
Proof.
  revert n; induction r as [|x r IH]; intros [|n] H; try discriminate;
    [reflexivity |].
  injection H as H. simpl. rewrite (IH n H). f_equal. ring.
Qed.

(** Weights that are all 0 are accepted, and make every score 0. *)
Theorem zero_weights_score_zero (M : list (list R)) types n :
  M <> [] -> rectangular n M -> length types = n ->
  exists res,
    perform_topsis_calculation (lift2 M) (lift (repeat 0%R n)) types =
    Ok res /\
    preference_values res = Arr1 (repeat (Fin 0) (length M)).
Proof.
  intros HM Hrect Ht.
  assert (HM' : lift2 M <> []) by (destruct M; [congruence | discriminate]).
  assert (Hw : length (repeat 0%R n) = n) by apply repeat_length.
  pose proof (lift2_rectangular Hrect) as Hrect'.
  assert (Hlen : length (lift2 M) = length M) by apply length_map.
  rewrite (@perform_valid _ _ (lift2 M) _ types n)
    by (auto; rewrite ?lift_length; lia).
  eexists. split; [reflexivity |].
  destruct (zero_columns_dec M n) as [[j [Hj Hz]] | Hnz].
  - rewrite (@stages_zero_column (lift2 M) _ types n j);
      rewrite ?lift_length; try assumption; try (now rewrite Hlen).
    now apply lift2_zero_column.
  - pose proof (stages_scores (lift2 M) (lift (repeat 0%R n)) types) as Hpv.
    cbv zeta in Hpv.
    rewrite (hd_length_rect HM' Hrect'), lift_length, Hw, bdim_refl in Hpv.
    rewrite (weight_rows_lift (repeat 0%R n) Hrect Hw
               (col_norms_nonzero M Hnz)) in Hpv.
    rewrite Hpv. f_equal.
    set (W := lift2 (weightedR n M (repeat 0%R n))).
    assert (HWlen : length W = length M).
    { unfold W, lift2, weightedR, normalized. now rewrite !length_map. }
    assert (Hall : Forall (eq (lift (repeat 0%R n))) W).
    { unfold W, lift2, weightedR. rewrite map_map.
      apply Forall_map, Forall_forall. intros r Hin. f_equal. symmetry.
      apply zip_mult_zero.
      apply (@rect_length _ n _ r (normalized_rectangular Hrect) Hin). }
    assert (HWne : W <> []).
    { destruct W; [| discriminate]. simpl in HWlen.
      destruct M; [congruence | discriminate]. }
    pose proof (equal_rows_scores types HWne Hall) as H.
    rewrite lift_length, Hw, HWlen in H. exact H.
Qed.

(** ** The further properties at concrete inputs *)

Lemma perform_topsis_calculation_shapes_witness :
  exists res pv,
    perform_topsis_calculation (F := float) [[1; 2]; [3; 4]]%float
      [0.5; 0.5]%float ["benefit"; "cost"]%string = Ok res /\
    preference_values res = Arr1 pv /\ length pv = 2.
Proof.
  destruct (@perform_topsis_calculation_shapes float _
              [[1; 2]; [3; 4]]%float [0.5; 0.5]%float
              ["benefit"; "cost"]%string 2)
    as (res & N & W & ap & am & dp & dm & pv & H & _ & _ & _ & _ & _ & _ & Hpv);
    [discriminate | repeat constructor | reflexivity | reflexivity |].
  exists res, pv. destruct Hpv. auto.
Defined.

Lemma single_weight_is_broadcast_witness :
  perform_topsis_calculation (F := float) [[1; 2]; [3; 4]]%float
    [0.5]%float ["benefit"; "cost"]%string =
  perform_topsis_calculation [[1; 2]; [3; 4]]%float
    [0.5; 0.5]%float ["benefit"; "cost"]%string.
Proof.
  apply (@single_weight_is_broadcast float _ [[1; 2]; [3; 4]]%float
           0.5%float ["benefit"; "cost"]%string 2);
    [discriminate | repeat constructor].
Defined.

Lemma create_ranking_keeps_alternatives_witness :
  exists ranking,
    create_ranking
      {| normalized_matrix := Arr1 []; weighted_matrix := Arr1 [];
         A_plus := Arr1 []; A_minus := Arr1 [];
         D_plus := Arr1 []; D_minus := Arr1 [];
         preference_values := Arr1 [nan; 0.5; nan]%float |}
      ["a"; "b"; "c"]%string = Ok ranking /\
    map (@rank _) ranking = [1; 2; 3].
Proof.
  destruct (@create_ranking_keeps_alternatives float _
              {| normalized_matrix := Arr1 []; weighted_matrix := Arr1 [];
                 A_plus := Arr1 []; A_minus := Arr1 [];
                 D_plus := Arr1 []; D_minus := Arr1 [];
                 preference_values := Arr1 [nan; 0.5; nan]%float |}
              ["a"; "b"; "c"]%string [nan; 0.5; nan]%float)
    as (ranking & H1 & H2 & _); [reflexivity | reflexivity |].
  exists ranking. auto.
Defined.

Lemma identical_alternatives_score_zero_witness :
  exists res ranking,
    topsis_ranking (repeat [Fin 2; Fin 5] 3) [Fin 1; Fin 1]
      ["benefit"; "cost"]%string ["a"; "b"; "c"]%string = Ok (res, ranking) /\
    map (@alternative_index _) ranking = [0; 1; 2].
Proof.
  destruct (@identical_alternatives_score_zero [Fin 2; Fin 5] [Fin 1; Fin 1]
              ["benefit"; "cost"]%string ["a"; "b"; "c"]%string 3 2)
    as (res & ranking & H1 & _ & _ & H2);
    [lia | reflexivity | reflexivity | reflexivity | reflexivity |].
  exists res, ranking. auto.
Defined.

Lemma calculate_topsis_unvalued_criterion_witness :
  exists res names cnames ranking,
    calculate_topsis
      (Some {| criteria :=
                 [{| crit_id := 1; crit_name := "price";
                     criterion_type := "cost"; weight := Fin 1 |};
                  {| crit_id := 2; crit_name := "speed";
                     criterion_type := "benefit"; weight := Fin 1 |}];
               alternatives :=
                 [{| alt_name := "a";
                     alt_values := [{| acv_criterion_id := 1;
                                       acv_value := Fin 3 |}] |};
                  {| alt_name := "b";
                     alt_values := [{| acv_criterion_id := 1;
                                       acv_value := Fin 4 |}] |}] |}) =
    Ok (Http200 res names cnames ranking) /\
    preference_values res = Arr1 [Fin 0; Fin 0] /\
    map (@alternative_index _) ranking = [0; 1].
Proof.
  destruct (@calculate_topsis_unvalued_criterion
              {| criteria :=
                   [{| crit_id := 1; crit_name := "price";
                       criterion_type := "cost"; weight := Fin 1 |};
                    {| crit_id := 2; crit_name := "speed";
                       criterion_type := "benefit"; weight := Fin 1 |}];
                 alternatives :=
                   [{| alt_name := "a";
                       alt_values := [{| acv_criterion_id := 1;
                                         acv_value := Fin 3 |}] |};
                    {| alt_name := "b";
                       alt_values := [{| acv_criterion_id := 1;
                                         acv_value := Fin 4 |}] |}] |}
              {| crit_id := 2; crit_name := "speed";
                 criterion_type := "benefit"; weight := Fin 1 |} 1)
    as (res & names & cnames & ranking & H1 & H2 & _ & H3);
    [discriminate | reflexivity | |].
  - intros alt v [<- | [<- | []]] [<- | []]; simpl; lia.
  - exists res, names, cnames, ranking. auto.
Defined.

Lemma other_types_are_costs_witness :
  exists ap am,
    find_ideal_solutions (Arr2 2 (lift2 [[1; 2]; [3; 4]]%R))
      ["Benefit"; ""]%string = Ok (Arr1 (lift ap), Arr1 (lift am)).
Proof.
  destruct (@other_types_are_costs [[1; 2]; [3; 4]]%R
              ["Benefit"; ""]%string 2)
    as (ap & am & H & _);
    [discriminate | repeat constructor | reflexivity |].
  exists ap, am. exact H.
Defined.

Lemma zero_weights_score_zero_witness :
  exists res,
    perform_topsis_calculation (lift2 [[1; 2]; [3; 1]]%R)
      (lift (repeat 0%R 2)) ["benefit"; "cost"]%string = Ok res /\
    preference_values res = Arr1 [Fin 0; Fin 0].
Proof.
  apply (@zero_weights_score_zero [[1; 2]; [3; 1]]%R
           ["benefit"; "cost"]%string 2);
    [discriminate | repeat constructor | reflexivity].
Defined.

(** * Properties of the routes *)

(** ** Queries on lists of rows *)

Section RowFacts.
Context {A : Type}.

Lemma filter_filter (p q : A -> bool) l :
  filter p (filter q l) = filter (fun x => q x && p x) l.
Proof.
  induction l as [|x l IH]; simpl; [reflexivity |].
  destruct (q x); simpl; [destruct (p x) |]; now rewrite IH.
Qed.

Lemma filter_comm (p q : A -> bool) l :
  filter p (filter q l) = filter q (filter p l).
Proof.
  rewrite !filter_filter. apply filter_ext. intros x. apply andb_comm.
Qed.

Lemma filter_keep (p q : A -> bool) l :
  (forall x, In x l -> p x = true -> q x = true) ->
  filter p (filter q l) = filter p l.
Proof.
  intros H. rewrite filter_filter. apply filter_ext_in. intros x Hx.
  destruct (p x) eqn:E; [| apply andb_false_r].
  now rewrite (H x Hx E).
Qed.

Lemma filter_all (p : A -> bool) l :
  (forall x, In x l -> p x = true) -> filter p l = l.
Proof.
  intros H. induction l as [|x l IH]; simpl; [reflexivity |].
  rewrite H by (now left). f_equal. apply IH. intros y Hy. apply H. now right.
Qed.

Lemma filter_nothing (p : A -> bool) l :
  (forall x, In x l -> p x = false) -> filter p l = [].
Proof.
  intros H. induction l as [|x l IH]; simpl; [reflexivity |].
  rewrite H by (now left). apply IH. intros y Hy. apply H. now right.
Qed.

Lemma find_filter (p q : A -> bool) l :
  (forall x, In x l -> p x = true -> q x = true) ->
  find p (filter q l) = find p l.
Proof.
  intros H. induction l as [|x l IH]; simpl; [reflexivity |].
  assert (IH' : find p (filter q l) = find p l)
    by (apply IH; intros y Hy; apply H; now right).
  destruct (p x) eqn:E.
  - rewrite (H x (or_introl eq_refl) E). simpl. now rewrite E.
  - destruct (q x); simpl; [now rewrite E |]; exact IH'.
Qed.

Lemma find_map_same (p : A -> bool) (g : A -> A) l :
  (forall x, p (g x) = p x) ->
  find p (map g l) = option_map g (find p l).
Proof.
  intros H. induction l as [|x l IH]; simpl; [reflexivity |].
  rewrite H. destruct (p x); [reflexivity | exact IH].
Qed.

Lemma find_last (p : A -> bool) l x :
  find p l = None -> find p (l ++ [x]) = if p x then Some x else None.
Proof.
  induction l as [|y l IH]; simpl; [reflexivity |].
  destruct (p y); [discriminate | exact IH].
Qed.

Lemma find_app_some (p : A -> bool) l l' x :
  find p l = Some x -> find p (l ++ l') = Some x.
Proof.
  induction l as [|y l IH]; simpl; [discriminate |].
  destruct (p y); [trivial | exact IH].
Qed.

Lemma NoDup_map_filter {B : Type} (f : A -> B) (p : A -> bool) l :
  NoDup (map f l) -> NoDup (map f (filter p l)).
Proof.
  induction l as [|x l IH]; simpl; intros H; [constructor |].
  inversion H as [| ? ? Hx Hl]; subst.
  destruct (p x); simpl; [| now apply IH].
  constructor; [| now apply IH].
  intros Hin. apply Hx. apply in_map_iff in Hin as [y [Hy Hyin]].
  apply in_map_iff. exists y. split; [exact Hy |].
  now apply filter_In in Hyin.
Qed.

Lemma NoDup_map_last {B : Type} (f : A -> B) l x :
  NoDup (map f l) -> ~ In (f x) (map f l) -> NoDup (map f (l ++ [x])).
Proof.
  intros Hl Hx. rewrite map_app. apply NoDup_app; [exact Hl | |].
  - simpl. constructor; [intros [] | constructor].
  - intros a Ha [<- | []]. now apply Hx.
Qed.

Lemma NoDup_map_eq {B : Type} (f : A -> B) l x y :
  NoDup (map f l) -> In x l -> In y l -> f x = f y -> x = y.
Proof.
  induction l as [|z l IH]; simpl; intros H Hx Hy E; [contradiction |].
  inversion H as [| ? ? Hz Hl]; subst.
  destruct Hx as [-> | Hx], Hy as [-> | Hy]; auto.
  - exfalso. apply Hz. rewrite E. now apply in_map.
  - exfalso. apply Hz. rewrite <- E. now apply in_map.
Qed.

Lemma existsb_eqb_in (k : nat) l :
  existsb (Nat.eqb k) l = true <-> In k l.
Proof.
  rewrite existsb_exists. split.
  - intros [x [Hx E]]. apply Nat.eqb_eq in E. now subst.
  - intros H. exists k. split; [exact H | apply Nat.eqb_refl].
Qed.

Lemma fold_filter_keys (key : A -> nat) ids l :
  fold_left (fun l a => filter (fun x => negb (key x =? a)) l) ids l =
  filter (fun x => negb (existsb (Nat.eqb (key x)) ids)) l.
Proof.
  revert l. induction ids as [|a ids IH]; intros l; simpl.
  - symmetry. now apply filter_all.
  - rewrite IH, filter_filter. apply filter_ext. intros x.
    now rewrite negb_orb.
Qed.

End RowFacts.

(** ** The tables after a write *)

Section TableFacts.
Context {F : Type} {FO : Float64 F}.
Variable new_id : list nat -> nat.

Lemma delete_criteria_tables ids (db : Database F) :
  fold_left (@delete_criterion_row F) ids db =
  {| users := users db; projects := projects db;
     criterion_table :=
       filter (fun c => negb (existsb (Nat.eqb (criterion_id c)) ids))
         (criterion_table db);
     alternative_table := alternative_table db;
     value_table :=
       filter (fun v => negb (existsb (Nat.eqb (value_criterion_id v)) ids))
         (value_table db) |}.
Proof.
  revert db. induction ids as [|a ids IH]; intros db; simpl.
  - destruct db; simpl. now rewrite !filter_all.
  - rewrite IH. unfold delete_criterion_row; simpl.
    rewrite !filter_filter. f_equal; apply filter_ext; intros x;
      now rewrite negb_orb.
Qed.

Lemma delete_alternatives_tables ids (db : Database F) :
  fold_left (@delete_alternative_row F) ids db =
  {| users := users db; projects := projects db;
     criterion_table := criterion_table db;
     alternative_table :=
       filter (fun a => negb (existsb (Nat.eqb (alternative_id a)) ids))
         (alternative_table db);
     value_table :=
       filter (fun v => negb (existsb (Nat.eqb (value_alternative_id v)) ids))
         (value_table db) |}.
Proof.
  revert db. induction ids as [|a ids IH]; intros db; simpl.
  - destruct db; simpl. now rewrite !filter_all.
  - rewrite IH. unfold delete_alternative_row; simpl.
    rewrite !filter_filter. f_equal; apply filter_ext; intros x;
      now rewrite negb_orb.
Qed.

(** The rows the loop of [add_alternative] adds. *)
Lemma add_values_tables aid values (db : Database F) :
  exists rows,
    fold_left (fun d v => add_value_row new_id d aid v) values db =
    {| users := users db; projects := projects db;
       criterion_table := criterion_table db;
       alternative_table := alternative_table db;
       value_table := value_table db ++ rows |} /\
    map (@value_columns F) rows = values /\
    (forall r, In r rows -> value_alternative_id r = aid) /\
    (keys_fresh new_id -> NoDup (map (@value_id F) (value_table db)) ->
     NoDup (map (@value_id F) (value_table db ++ rows))).
Proof.
  revert db. induction values as [|v values IH]; intros db; simpl.
  - exists []. rewrite app_nil_r. destruct db; simpl. repeat split; auto.
    intros r [].
  - destruct (IH (add_value_row new_id db aid v))
      as (rows & Hdb & Hcols & Haid & Hkeys).
    set (row := {| value_id := new_id (map (@value_id F) (value_table db));
                   value_alternative_id := aid; value_columns := v |}).
    exists (row :: rows). rewrite Hdb. simpl.
    replace (value_table db ++ row :: rows)
      with ((value_table db ++ [row]) ++ rows)
      by (now rewrite <- app_assoc).
    split; [reflexivity |]. split; [now rewrite Hcols |].
    split; [intros r [<- | Hr]; auto |].
    intros Hfresh Hnd. apply Hkeys; [exact Hfresh |]. simpl.
    apply NoDup_map_last; [exact Hnd | apply Hfresh].
Qed.

Lemma touch_project_ids (db : Database F) pid now :
  map project_id (projects (touch db pid now)) = map project_id (projects db).
Proof.
  unfold touch; simpl. rewrite map_map. apply map_ext. intros p.
  now destruct (project_id p =? pid).
Qed.

Lemma touch_find_project (db : Database F) pid now identity pid' :
  find_project (touch db pid now) identity pid' =
  option_map
    (fun p => if project_id p =? pid
              then {| project_id := project_id p;
                      project_user_id := project_user_id p;
                      project_name := project_name p;
                      creation_date := creation_date p;
                      last_modified := now |}
              else p) (find_project db identity pid').
Proof.
  unfold find_project, touch; simpl. apply find_map_same.
  intros p. now destruct (project_id p =? pid).
Qed.

Lemma find_project_some (db : Database F) identity pid p :
  find_project db identity pid = Some p ->
  In p (projects db) /\ project_id p = pid /\ project_user_id p = identity.
Proof.
  intros H. apply find_some in H as [Hin H].
  apply andb_true_iff in H as [H1 H2].
  apply Nat.eqb_eq in H1, H2. auto.
Qed.

Lemma find_criterion_some (db : Database F) cid pid c :
  find_criterion db cid pid = Some c ->
  In c (criterion_table db) /\ criterion_id c = cid /\
  criterion_project_id c = pid.
Proof.
  intros H. apply find_some in H as [Hin H].
  apply andb_true_iff in H as [H1 H2].
  apply Nat.eqb_eq in H1, H2. auto.
Qed.

Lemma find_alternative_some (db : Database F) aid pid a :
  find_alternative db aid pid = Some a ->
  In a (alternative_table db) /\ alternative_id a = aid /\
  alternative_project_id a = pid.
Proof.
  intros H. apply find_some in H as [Hin H].
  apply andb_true_iff in H as [H1 H2].
  apply Nat.eqb_eq in H1, H2. auto.
Qed.

Lemma required_some x s : required x = Some s -> x = Some s /\ s <> ""%string.
Proof.
  destruct x as [[|a t]|]; simpl; intros H; inversion H; subst.
  split; [reflexivity | discriminate].
Qed.

(** *** The handlers keep the database consistent *)

Lemma create_all_consistent : consistent (@create_all F).
Proof. constructor; simpl; try constructor; intros ? []. Qed.

Lemma touch_consistent (db : Database F) pid now :
  consistent db -> consistent (touch db pid now).
Proof.
  intros [He Hu Hp Hc Ha Hv Hcp Hap Hva].
  constructor; try rewrite touch_project_ids; try assumption.
Qed.

Lemma set_theme_consistent (db : Database F) uid theme :
  consistent db -> consistent (set_theme db uid theme).
Proof.
  intros [He Hu Hp Hc Ha Hv Hcp Hap Hva].
  assert (E1 : map user_email (users (set_theme db uid theme)) =
               map user_email (users db)).
  { unfold set_theme; simpl. rewrite map_map. apply map_ext. intros u.
    now destruct (user_id u =? uid). }
  assert (E2 : map user_id (users (set_theme db uid theme)) =
               map user_id (users db)).
  { unfold set_theme; simpl. rewrite map_map. apply map_ext. intros u.
    now destruct (user_id u =? uid). }
  constructor; try rewrite E1; try rewrite E2; assumption.
Qed.

Lemma add_user_consistent (db : Database F) u :
  consistent db ->
  ~ In (user_email u) (map user_email (users db)) ->
  ~ In (user_id u) (map user_id (users db)) ->
  consistent (add_user db u).
Proof.
  intros [He Hu Hp Hc Ha Hv Hcp Hap Hva] Hemail Hid.
  constructor; simpl; try assumption; now apply NoDup_map_last.
Qed.

Lemma add_project_consistent (db : Database F) p :
  consistent db ->
  ~ In (project_id p) (map project_id (projects db)) ->
  consistent (add_project db p).
Proof.
  intros [He Hu Hp Hc Ha Hv Hcp Hap Hva] Hid.
  constructor; simpl; try assumption.
  - now apply NoDup_map_last.
  - intros c Hin. rewrite map_app. apply in_or_app. left. now apply Hcp.
  - intros a Hin. rewrite map_app. apply in_or_app. left. now apply Hap.
Qed.

Lemma add_criterion_row_consistent (db : Database F) c :
  consistent db ->
  ~ In (criterion_id c) (map (@criterion_id F) (criterion_table db)) ->
  In (criterion_project_id c) (map project_id (projects db)) ->
  consistent (add_criterion_row db c).
Proof.
  intros [He Hu Hp Hc Ha Hv Hcp Hap Hva] Hid Hproj.
  constructor; simpl; try assumption.
  - now apply NoDup_map_last.
  - intros c' Hin. apply in_app_or in Hin as [Hin | [<- | []]]; auto.
Qed.

Lemma delete_criterion_row_consistent (db : Database F) cid :
  consistent db -> consistent (delete_criterion_row db cid).
Proof.
  intros [He Hu Hp Hc Ha Hv Hcp Hap Hva].
  constructor; simpl; try assumption.
  - now apply NoDup_map_filter.
  - now apply NoDup_map_filter.
  - intros c Hin. apply filter_In in Hin as [Hin _]. now apply Hcp.
  - intros v Hin. apply filter_In in Hin as [Hin _]. now apply Hva.
Qed.

Lemma delete_alternative_row_consistent (db : Database F) aid :
  consistent db -> consistent (delete_alternative_row db aid).
Proof.
  intros [He Hu Hp Hc Ha Hv Hcp Hap Hva].
  constructor; simpl; try assumption.
  - now apply NoDup_map_filter.
  - now apply NoDup_map_filter.
  - intros a Hin. apply filter_In in Hin as [Hin _]. now apply Hap.
  - intros v Hin. apply filter_In in Hin as [Hin Hne].
    apply negb_true_iff, Nat.eqb_neq in Hne.
    destruct (proj1 (in_map_iff _ _ _) (Hva v Hin)) as [a [Ea Hain]].
    apply in_map_iff. exists a. split; [exact Ea |].
    apply filter_In. split; [exact Hain |].
    apply negb_true_iff, Nat.eqb_neq. congruence.
Qed.

Lemma fold_consistent {K : Type} (step : Database F -> K -> Database F) ks db :
  (forall d k, consistent d -> consistent (step d k)) ->
  consistent db -> consistent (fold_left step ks db).
Proof.
  intros Hstep. revert db. induction ks as [|k ks IH]; intros db H; simpl;
    [exact H | apply IH, Hstep, H].
Qed.

Lemma delete_project_row_consistent (db : Database F) pid :
  consistent db -> consistent (delete_project_row db pid).
Proof.
  intros H. unfold delete_project_row.
  set (cs := map (@crit_id F) (project_criteria db pid)).
  set (al := map alternative_id (project_alternatives db pid)).
  assert (H2 : consistent
                 (fold_left (@delete_alternative_row F) al
                    (fold_left (@delete_criterion_row F) cs db))).
  { apply fold_consistent; [apply delete_alternative_row_consistent |].
    apply fold_consistent; [apply delete_criterion_row_consistent | exact H]. }
  destruct H2 as [He Hu Hp Hc Ha Hv Hcp Hap Hva].
  assert (Htabs := delete_alternatives_tables al
                     (fold_left (@delete_criterion_row F) cs db)).
  rewrite delete_criteria_tables in Htabs.
  rewrite delete_criteria_tables in *. rewrite Htabs in *. clear Htabs.
  cbn [users projects criterion_table alternative_table value_table] in *.
  constructor;
    cbn [users projects criterion_table alternative_table value_table];
    try assumption.
  - now apply NoDup_map_filter.
  - intros c Hin. pose proof (Hcp c Hin) as Hproj.
    apply filter_In in Hin as [Hin Hkeep].
    apply in_map_iff in Hproj as [p [Ep Hp']].
    apply in_map_iff. exists p. split; [exact Ep |].
    apply filter_In. split; [exact Hp' |].
    apply negb_true_iff, Nat.eqb_neq. intros Epid.
    apply negb_true_iff in Hkeep.
    assert (Hc' : existsb (Nat.eqb (criterion_id c)) cs = true);
      [| congruence].
    apply existsb_eqb_in. unfold cs, project_criteria.
    rewrite map_map. apply in_map_iff. exists c. split; [reflexivity |].
    apply filter_In. split; [exact Hin |]. apply Nat.eqb_eq. congruence.
  - intros a Hin. pose proof (Hap a Hin) as Hproj.
    apply filter_In in Hin as [Hin Hkeep].
    apply in_map_iff in Hproj as [p [Ep Hp']].
    apply in_map_iff. exists p. split; [exact Ep |].
    apply filter_In. split; [exact Hp' |].
    apply negb_true_iff, Nat.eqb_neq. intros Epid.
    apply negb_true_iff in Hkeep.
    assert (Ha' : existsb (Nat.eqb (alternative_id a)) al = true);
      [| congruence].
    apply existsb_eqb_in. unfold al, project_alternatives.
    apply in_map_iff. exists a. split; [reflexivity |].
    apply filter_In. split; [exact Hin |]. apply Nat.eqb_eq. congruence.
Qed.

End TableFacts.

(** ** The invariant of the database *)

Section Invariant.
Context {F : Type} {FO : Float64 F}.
Variable generate_password_hash : string -> string -> string.
Variable check_password_hash : string -> string -> bool.
Variable create_access_token : nat -> string.
Variable new_id : list nat -> nat.
Hypothesis fresh : keys_fresh new_id.

Lemma register_consistent (db : Database F) now salt email password :
  consistent db ->
  consistent
    (fst (register generate_password_hash new_id db now salt email password)).
Proof.
  intros H. unfold register.
  destruct (required email) as [e|] eqn:Ee; [| exact H].
  destruct (required password) as [p|]; [| exact H].
  destruct (user_by_email db email) as [u|] eqn:Eu; [exact H |].
  apply required_some in Ee as [-> _]. unfold user_by_email in Eu.
  apply add_user_consistent; [exact H | | apply fresh]. simpl.
  intros Hin. apply in_map_iff in Hin as [u [Hu Hin]].
  pose proof (find_none _ _ Eu u Hin) as Hne. simpl in Hne.
  apply String.eqb_neq in Hne. contradiction.
Qed.

Lemma create_project_consistent (db : Database F) now now' identity name :
  consistent db ->
  consistent (fst (create_project new_id db now now' identity name)).
Proof.
  intros H. unfold create_project.
  destruct (required name); [| exact H].
  apply add_project_consistent; [exact H | apply fresh].
Qed.

Lemma delete_project_consistent (db : Database F) identity pid :
  consistent db -> consistent (fst (delete_project db identity pid)).
Proof.
  intros H. unfold delete_project.
  destruct (find_project db identity pid); [| exact H].
  now apply delete_project_row_consistent.
Qed.

Lemma add_criterion_consistent (db : Database F) now identity pid name ctype w :
  consistent db ->
  consistent (fst (add_criterion new_id db now identity pid name ctype w)).
Proof.
  intros H. unfold add_criterion.
  destruct (find_project db identity pid) as [p|] eqn:Ep; [| exact H].
  destruct (required name); [| exact H].
  destruct (required ctype); [| exact H].
  destruct w; [| exact H].
  apply find_project_some in Ep as (Hin & Hid & _).
  apply touch_consistent, add_criterion_row_consistent;
    [exact H | apply fresh |].
  simpl. rewrite <- Hid. now apply in_map.
Qed.

Lemma delete_criterion_consistent (db : Database F) now identity pid cid :
  consistent db ->
  consistent (fst (delete_criterion db now identity pid cid)).
Proof.
  intros H. unfold delete_criterion.
  destruct (find_project db identity pid); [| exact H].
  destruct (find_criterion db cid pid); [| exact H].
  now apply touch_consistent, delete_criterion_row_consistent.
Qed.

Lemma add_alternative_consistent (db : Database F) now identity pid name
  values :
  consistent db ->
  consistent (fst (add_alternative new_id db now identity pid name values)).
Proof.
  intros H. unfold add_alternative.
  destruct (find_project db identity pid) as [p|] eqn:Ep; [| exact H].
  destruct (required name) as [n|]; [| exact H].
  apply find_project_some in Ep as (Hin & Hid & _).
  cbv zeta. cbn [fst alternative_id]. apply touch_consistent.
  set (aid := new_id (map alternative_id (alternative_table db))).
  set (a := {| alternative_id := aid; alternative_project_id := pid;
               alternative_row_name := n |}).
  destruct (add_values_tables new_id aid values (add_alternative_row db a))
    as (rows & -> & _ & Haid & Hkeys).
  destruct H as [He Hu Hp Hc Ha Hv Hcp Hap Hva].
  constructor; cbn [users projects criterion_table alternative_table
                      value_table add_alternative_row]; try assumption.
  - apply NoDup_map_last; [exact Ha | apply fresh].
  - now apply Hkeys.
  - intros a' Hin'. apply in_app_or in Hin' as [Hin' | [<- | []]]; auto.
    simpl. rewrite <- Hid. now apply in_map.
  - intros v Hin'. rewrite map_app. apply in_or_app.
    apply in_app_or in Hin' as [Hin' | Hin']; [left; now apply Hva |].
    right. rewrite (Haid v Hin'). now left.
Qed.

Lemma delete_alternative_consistent (db : Database F) now identity pid aid :
  consistent db ->
  consistent (fst (delete_alternative db now identity pid aid)).
Proof.
  intros H. unfold delete_alternative.
  destruct (find_project db identity pid); [| exact H].
  destruct (find_alternative db aid pid); [| exact H].
  now apply touch_consistent, delete_alternative_row_consistent.
Qed.

Lemma update_theme_consistent (db : Database F) identity theme :
  consistent db -> consistent (fst (update_theme db identity theme)).
Proof.
  intros H. unfold update_theme.
  destruct theme as [t|]; [| exact H].
  destruct ((t =? "light")%string || (t =? "dark")%string); [| exact H].
  destruct (user_by_id db identity); [| exact H].
  now apply set_theme_consistent.
Qed.

Lemma handle_consistent w (db : Database F) r :
  consistent db ->
  consistent
    (fst (handle generate_password_hash check_password_hash
            create_access_token new_id w db r)).
Proof.
  intros H. destruct r; cbn [handle].
  - now apply register_consistent.
  - unfold login. destruct (user_by_email db email); [| exact H].
    now destruct (check_password_hash _ _).
  - exact H.
  - now apply create_project_consistent.
  - unfold get_project. now destruct (find_project db identity pid).
  - now apply delete_project_consistent.
  - now apply add_criterion_consistent.
  - now apply delete_criterion_consistent.
  - now apply add_alternative_consistent.
  - now apply delete_alternative_consistent.
  - unfold calculate_topsis_route. now destruct (calculate_topsis _).
  - now apply update_theme_consistent.
  - unfold get_current_user. now destruct (user_by_id db identity).
Qed.

(** Whatever requests are served, from the empty database on, the
    handlers keep the tables consistent although they never check it: no two
    users share an email, no two rows of a table share a key, every criterion
    and every alternative belongs to a stored project, and every value
    belongs to a stored alternative.  The cascades of the three deletions
    and the query of [register] are what keeps it so; the database only has
    to give a new row a key that is not in use. *)
Theorem served_database_consistent (trace : list (World * request F)) :
  consistent
    (serve generate_password_hash check_password_hash create_access_token
       new_id trace).
Proof.
  unfold serve. apply fold_consistent; [| apply create_all_consistent].
  intros d [w r] Hd. now apply handle_consistent.
Qed.

End Invariant.

(** ** Accounts and ownership *)

Section Accounts.
Context {F : Type} {FO : Float64 F}.
Variable generate_password_hash : string -> string -> string.
Variable check_password_hash : string -> string -> bool.
Variable create_access_token : nat -> string.
Variable new_id : list nat -> nat.

Lemma find_project_none (db : Database F) identity pid :
  (forall p, In p (projects db) -> project_id p = pid ->
     project_user_id p <> identity) ->
  find_project db identity pid = None.
Proof.
  intros H. apply find_none_all. intros p Hin.
  destruct (project_id p =? pid) eqn:E; [| reflexivity].
  apply Nat.eqb_eq in E. simpl. apply Nat.eqb_neq. now apply H.
Qed.

(** A project is closed to everybody but its owner.  Every request on a
    project that the caller does not own, or that does not exist, is
    answered 404 and changes nothing, whatever else it carries: reading,
    deleting, adding or deleting a criterion or an alternative, and the
    calculation. *)
Theorem foreign_project_not_found w (db : Database F) r identity pid :
  scope r = Some (identity, pid) ->
  (forall p, In p (projects db) -> project_id p = pid ->
     project_user_id p <> identity) ->
  fst (handle generate_password_hash check_password_hash create_access_token
         new_id w db r) = db /\
  status (snd (handle generate_password_hash check_password_hash
                 create_access_token new_id w db r)) = 404.
Proof.
  intros Hscope Hforeign. apply find_project_none in Hforeign.
  destruct r; simpl in Hscope; inversion Hscope; subst; cbn [handle];
    unfold get_project, delete_project, add_criterion, delete_criterion,
      add_alternative, delete_alternative, calculate_topsis_route;
    rewrite Hforeign; split; reflexivity.
Qed.

(** Registration and login fit together.  When [register] answers 201, a
    login with the same email and password is answered 200 with the token
    of the new user, whose theme is light, and a second registration of the
    email is refused with 400 and stores nothing.  The only fact used about
    bcrypt is that a hash it generates checks against its password. *)
Theorem register_then_login (db : Database F) now salt e p :
  (forall s x, check_password_hash (generate_password_hash s x) x = true) ->
  status (snd (register generate_password_hash new_id db now salt
                 (Some e) (Some p))) = 201 ->
  let db' := fst (register generate_password_hash new_id db now salt
                    (Some e) (Some p)) in
  let id := new_id (map user_id (users db)) in
  login check_password_hash create_access_token db' (Some e) p =
    (db', Reply 200 (Session (create_access_token id) id e "light")) /\
  forall now' salt' password,
    fst (register generate_password_hash new_id db' now' salt' (Some e)
           password) = db' /\
    status (snd (register generate_password_hash new_id db' now' salt'
                   (Some e) password)) = 400.
Proof.
  intros Hbcrypt H201. cbv zeta. unfold register in *.
  destruct (required (Some e)) as [e'|] eqn:Ee; [| discriminate].
  destruct (required (Some p)) as [p'|] eqn:Ep; [| discriminate].
  apply required_some in Ee as [Ee _], Ep as [Ep _].
  inversion Ee; inversion Ep; subst e' p'.
  destruct (user_by_email db (Some e)) eqn:Eu; [discriminate |].
  cbn [fst snd]. unfold user_by_email in Eu.
  set (u := {| user_id := new_id (map user_id (users db)); user_email := e;
               user_password := generate_password_hash salt p;
               registration_date := now; theme_preference := "light" |}).
  assert (Hfind : user_by_email (add_user db u) (Some e) = Some u).
  { unfold user_by_email, add_user; cbn [users].
    rewrite (find_last _ _ u Eu). cbn [user_email u].
    now rewrite String.eqb_refl. }
  split.
  - unfold login. rewrite Hfind. cbn [user_password u]. now rewrite Hbcrypt.
  - intros now' salt' password.
    destruct (required password); rewrite ?Hfind; split; reflexivity.
Qed.

(** The theme of a user.  A theme other than [light] and [dark] is refused
    with 400.  A valid one is stored, and the next [get_current_user] shows
    it with the identity and email unchanged.  For an identity that has no
    user row, the handler fails on the missing row, where
    [get_current_user] answers 404: the reply is 500 and nothing is
    stored. *)
Theorem update_theme_outcomes (db : Database F) identity theme :
  (forall t, theme = Some t -> t = "light"%string \/ t = "dark"%string ->
     match user_by_id db identity with
     | Some user =>
         status (snd (update_theme db identity theme)) = 200 /\
         snd (get_current_user (fst (update_theme db identity theme))
                identity) =
         Reply 200 (UserInfo (user_id user) (user_email user) t)
     | None =>
         update_theme db identity theme = (db, @InternalServerError F) /\
         status (snd (get_current_user db identity)) = 404
     end) /\
  ((forall t, theme = Some t -> t <> "light"%string /\ t <> "dark"%string) ->
   fst (update_theme db identity theme) = db /\
   status (snd (update_theme db identity theme)) = 400).
Proof.
  split.
  - intros t -> Ht.
    assert (Hv : (t =? "light")%string || (t =? "dark")%string = true).
    { destruct Ht as [-> | ->]; reflexivity. }
    unfold update_theme, get_current_user. rewrite Hv.
    destruct (user_by_id db identity) as [user|] eqn:Eu;
      [| split; reflexivity].
    split; [reflexivity |].
    cbn [fst]. unfold user_by_id, set_theme in *; cbn [users].
    rewrite find_map_same
      by (intros u; now destruct (user_id u =? user_id user)).
    rewrite Eu. cbn [option_map].
    apply find_some in Eu as [_ Eid]. apply Nat.eqb_eq in Eid.
    now rewrite Nat.eqb_refl.
  - intros Hn. unfold update_theme.
    destruct theme as [t|]; [| split; reflexivity].
    destruct (Hn t eq_refl) as [Hl Hd].
    apply String.eqb_neq in Hl, Hd. rewrite Hl, Hd. split; reflexivity.
Qed.

End Accounts.

(** ** The contents of a project *)

Section Contents.
Context {F : Type} {FO : Float64 F}.
Variable new_id : list nat -> nat.

Lemma touch_load (db : Database F) pid now pid' :
  load_project (touch db pid now) pid' = load_project db pid'.
Proof. reflexivity. Qed.

Lemma filter_key_length {A : Type} (key : A -> nat) l x :
  NoDup (map key l) -> In x l ->
  S (length (filter (fun y => negb (key y =? key x)) l)) = length l.
Proof.
  induction l as [|y l IH]; simpl; intros Hnd Hin; [contradiction |].
  inversion Hnd as [| ? ? Hy Hl]; subst.
  destruct Hin as [-> | Hin].
  - rewrite Nat.eqb_refl. simpl. f_equal. f_equal. apply filter_all.
    intros z Hz. apply negb_true_iff, Nat.eqb_neq. intros E.
    apply Hy. rewrite <- E. now apply in_map.
  - destruct (key y =? key x) eqn:E; simpl.
    + exfalso. apply Nat.eqb_eq in E. apply Hy. rewrite E. now apply in_map.
    + f_equal. now apply IH.
Qed.

(** A new project is empty.  [create_project] with a name answers 201;
    the project can then be read by its creator, it has no criterion and no
    alternative, whatever rows the tables held before, and its calculation
    is refused with 400. *)
Theorem create_project_then_get (db : Database F) now now' identity n :
  keys_fresh new_id -> consistent db -> n <> ""%string ->
  let id := new_id (map project_id (projects db)) in
  let db' := fst (create_project new_id db now now' identity (Some n)) in
  status (snd (create_project new_id db now now' identity (Some n))) = 201 /\
  snd (get_project db' identity id) = Reply 200 (ProjectDetail id n [] []) /\
  snd (calculate_topsis_route db' identity id) = Calculation (@Http400 F).
Proof.
  intros Hfresh Hdb Hn. cbv zeta. unfold create_project.
  assert (Hreq : required (Some n) = Some n) by (now destruct n).
  rewrite Hreq. cbn [fst snd status]. split; [reflexivity |].
  set (id := new_id (map project_id (projects db))).
  set (p := {| project_id := id; project_user_id := identity;
               project_name := n; creation_date := now;
               last_modified := now' |}).
  assert (Hnew : forall q, In q (projects db) -> project_id q <> id).
  { intros q Hq E. apply (Hfresh (map project_id (projects db))).
    fold id. rewrite <- E. now apply in_map. }
  assert (Hfind : find_project (add_project db p) identity id = Some p).
  { unfold find_project, add_project; cbn [projects].
    rewrite find_last.
    - cbn [project_id project_user_id p]. now rewrite !Nat.eqb_refl.
    - apply find_none_all. intros q Hq.
      apply andb_false_iff. left. apply Nat.eqb_neq. now apply Hnew. }
  assert (Hcrit : project_criteria (add_project db p) id = []).
  { unfold project_criteria, add_project; cbn [criterion_table].
    rewrite filter_nothing; [reflexivity |]. intros c Hc.
    apply Nat.eqb_neq. intros E.
    pose proof (criteria_have_projects Hdb c Hc) as Hin.
    apply in_map_iff in Hin as [q [Eq Hq]]. apply (Hnew q Hq). congruence. }
  assert (Halt : project_alternatives (add_project db p) id = []).
  { unfold project_alternatives, add_project; cbn [alternative_table].
    rewrite filter_nothing; [reflexivity |]. intros a Ha.
    apply Nat.eqb_neq. intros E.
    pose proof (alternatives_have_projects Hdb a Ha) as Hin.
    apply in_map_iff in Hin as [q [Eq Hq]]. apply (Hnew q Hq). congruence. }
  split.
  - unfold get_project. rewrite Hfind. cbn [snd project_id project_name p].
    now rewrite Hcrit, Halt.
  - unfold calculate_topsis_route. rewrite Hfind. cbn [option_map project_id p].
    unfold load_project. rewrite Hcrit, Halt. reflexivity.
Qed.

(** An alternative is stored as it is sent.  After [add_alternative]
    answers 201 the project is loaded with the criteria it had and one more
    alternative, in the last place, with the name and exactly the values of
    the request; the alternatives that were there keep their values. *)
Theorem add_alternative_then_load (db : Database F) now identity pid n values :
  keys_fresh new_id -> consistent db ->
  status (snd (add_alternative new_id db now identity pid (Some n) values))
    = 201 ->
  load_project
    (fst (add_alternative new_id db now identity pid (Some n) values)) pid =
  {| criteria := criteria (load_project db pid);
     alternatives :=
       alternatives (load_project db pid) ++
       [{| alt_name := n; alt_values := values |}] |}.
Proof.
  intros Hfresh Hdb H201. unfold add_alternative in *.
  destruct (find_project db identity pid) as [p|]; [| discriminate].
  destruct (required (Some n)) as [n'|] eqn:En; [| discriminate].
  apply required_some in En as [En _]. inversion En; subst n'.
  cbv zeta. cbn [fst alternative_id]. rewrite touch_load.
  set (aid := new_id (map alternative_id (alternative_table db))).
  set (a := {| alternative_id := aid; alternative_project_id := pid;
               alternative_row_name := n |}).
  destruct (add_values_tables new_id aid values (add_alternative_row db a))
    as (rows & -> & Hcols & Haid & _).
  assert (Hold : forall a0, In a0 (alternative_table db) ->
                   alternative_id a0 <> aid).
  { intros a0 Ha0 E. apply (Hfresh (map alternative_id (alternative_table db))).
    fold aid. rewrite <- E. now apply in_map. }
  unfold load_project, project_criteria, project_alternatives.
  cbn [criterion_table alternative_table value_table add_alternative_row
         criteria alternatives].
  f_equal. rewrite filter_app, map_app. f_equal.
  - apply map_ext_in. intros a0 Ha0. apply filter_In in Ha0 as [Ha0 _].
    unfold load_alternative, alternative_values. cbn [value_table].
    f_equal. rewrite filter_app, map_app.
    rewrite (@filter_nothing _ _ rows); [now rewrite app_nil_r |].
    intros r Hr. apply Nat.eqb_neq. rewrite (Haid r Hr).
    intros E. now apply (Hold a0 Ha0).
  - cbn [filter alternative_project_id a]. rewrite Nat.eqb_refl.
    cbn [map]. unfold load_alternative, alternative_values.
    cbn [value_table alternative_id alternative_row_name a].
    f_equal. f_equal. rewrite filter_app, map_app.
    rewrite filter_nothing.
    + rewrite filter_all; [exact Hcols |].
      intros r Hr. apply Nat.eqb_eq. now apply Haid.
    + intros v Hv. apply Nat.eqb_neq. intros E.
      pose proof (values_have_alternatives Hdb v Hv) as Hin.
      apply in_map_iff in Hin as [a0 [Ea0 Ha0]].
      apply (Hold a0 Ha0). congruence.
Qed.

(** Deleting a project deletes all of it.  After [delete_project] answers
    200 nobody can read the project any more, no criterion and no
    alternative of it is left, and no stored value belongs to one of its
    alternatives or to one of its criteria. *)
Theorem delete_project_removes_everything (db : Database F) identity pid :
  status (snd (delete_project db identity pid)) = 200 ->
  let db' := fst (delete_project db identity pid) in
  (forall caller, status (snd (get_project db' caller pid)) = 404) /\
  project_criteria db' pid = [] /\
  project_alternatives db' pid = [] /\
  forall v, In v (value_table db') ->
    ~ In (value_alternative_id v)
        (map alternative_id (project_alternatives db pid)) /\
    ~ In (value_criterion_id v) (map (@crit_id F) (project_criteria db pid)).
Proof.
  intros H200. cbv zeta. unfold delete_project in *.
  destruct (find_project db identity pid) as [p|] eqn:Ep; [| discriminate].
  apply find_project_some in Ep as (_ & Hid & _). rewrite Hid. cbn [fst].
  unfold delete_project_row.
  rewrite delete_alternatives_tables, delete_criteria_tables.
  cbn [users projects criterion_table alternative_table value_table].
  set (cs := map (@crit_id F) (project_criteria db pid)).
  set (al := map alternative_id (project_alternatives db pid)).
  repeat match goal with |- _ /\ _ => split end.
  - intros caller. unfold get_project, find_project. cbn [projects].
    rewrite find_none_all; [reflexivity |].
    intros q Hq. apply filter_In in Hq as [_ Hq].
    apply negb_true_iff in Hq. now rewrite Hq.
  - unfold project_criteria at 1. cbn [criterion_table].
    rewrite filter_nothing; [reflexivity |].
    intros c Hc. apply filter_In in Hc as [Hc Hkeep].
    apply Nat.eqb_neq. intros E. apply negb_true_iff in Hkeep.
    assert (Hin : existsb (Nat.eqb (criterion_id c)) cs = true);
      [| congruence].
    apply existsb_eqb_in. unfold cs, project_criteria. rewrite map_map.
    apply in_map_iff. exists c. split; [reflexivity |].
    apply filter_In. split; [exact Hc | now apply Nat.eqb_eq].
  - unfold project_alternatives at 1. cbn [alternative_table].
    rewrite filter_nothing; [reflexivity |].
    intros a Ha. apply filter_In in Ha as [Ha Hkeep].
    apply Nat.eqb_neq. intros E. apply negb_true_iff in Hkeep.
    assert (Hin : existsb (Nat.eqb (alternative_id a)) al = true);
      [| congruence].
    apply existsb_eqb_in. unfold al, project_alternatives.
    apply in_map_iff. exists a. split; [reflexivity |].
    apply filter_In. split; [exact Ha | now apply Nat.eqb_eq].
  - intros v H. apply filter_In in H as [H Ha].
    apply filter_In in H as [_ Hc].
    split; intros Hin; apply existsb_eqb_in in Hin.
    + fold al in Hin. now rewrite Hin in Ha.
    + fold cs in Hin. now rewrite Hin in Hc.
Qed.

(** Deleting a criterion removes its column and nothing else.  After
    [delete_criterion] answers 200 the project has the criteria it had
    without the deleted one, the same alternatives in the same order, and
    the decision matrix over the criteria that remain is the one it was:
    no other value is lost. *)
Theorem delete_criterion_removes_column (db : Database F) now identity pid
  cid :
  consistent db ->
  status (snd (delete_criterion db now identity pid cid)) = 200 ->
  let p := load_project db pid in
  let p' := load_project (fst (delete_criterion db now identity pid cid)) pid in
  criteria p' = filter (fun c => negb (crit_id c =? cid)) (criteria p) /\
  S (length (criteria p')) = length (criteria p) /\
  map (@alt_name F) (alternatives p') = map (@alt_name F) (alternatives p) /\
  map (fun alt => map (value_of alt) (criteria p')) (alternatives p') =
  map (fun alt => map (value_of alt) (criteria p')) (alternatives p).
Proof.
  intros Hdb H200. cbv zeta. unfold delete_criterion in *.
  destruct (find_project db identity pid) as [p|]; [| discriminate].
  destruct (find_criterion db cid pid) as [c|] eqn:Ec; [| discriminate].
  apply find_criterion_some in Ec as (Hc & Hcid & Hcp).
  cbn [fst]. rewrite touch_load. rewrite Hcid.
  assert (Hcrit : criteria (load_project (delete_criterion_row db cid) pid) =
                  filter (fun c => negb (crit_id c =? cid))
                    (criteria (load_project db pid))).
  { unfold load_project, project_criteria, delete_criterion_row.
    cbn [criteria criterion_table].
    rewrite filter_map_swap. f_equal.
    rewrite !filter_filter. apply filter_ext. intros x. apply andb_comm. }
  split; [exact Hcrit |]. split.
  - rewrite Hcrit. unfold load_project, project_criteria. cbn [criteria].
    rewrite filter_map_swap, !length_map.
    change (fun a : CriterionRow F => negb (crit_id (criterion_columns a) =? cid))
      with (fun a : CriterionRow F => negb (criterion_id a =? cid)).
    rewrite <- Hcid. apply filter_key_length.
    + apply NoDup_map_filter, (criterion_keys Hdb).
    + apply filter_In. split; [exact Hc | now apply Nat.eqb_eq].
  - split.
    + unfold load_project. cbn [alternatives]. rewrite !map_map.
      reflexivity.
    + rewrite Hcrit.
      set (ks := filter (fun c => negb (crit_id c =? cid))
                   (criteria (load_project db pid))).
      assert (Hks : forall k, In k ks -> negb (crit_id k =? cid) = true)
        by (intros k Hk; now apply filter_In in Hk).
      clearbody ks.
      unfold load_project, project_alternatives, delete_criterion_row.
      cbn [alternatives alternative_table]. rewrite !map_map.
      apply map_ext. intros a.
      apply map_ext_in. intros k Hk. apply Hks in Hk.
      unfold value_of, load_alternative, alternative_values,
        delete_criterion_row. cbn [alt_values value_table].
      assert (E : forall l : list (ValueRow F),
                find (fun v => acv_criterion_id v =? crit_id k)
                  (map (@value_columns F) l) =
                option_map (@value_columns F)
                  (find (fun v => value_criterion_id v =? crit_id k) l)).
      { induction l as [|v l IH]; simpl; [reflexivity |].
        unfold value_criterion_id at 1.
        destruct (acv_criterion_id (value_columns v) =? crit_id k);
          [reflexivity | exact IH]. }
      rewrite !E. rewrite filter_comm.
      rewrite find_filter; [reflexivity |].
      intros v _ Hv. apply Nat.eqb_eq in Hv. rewrite Hv. exact Hk.
Qed.

(** Deleting an alternative removes its row and nothing else.  After
    [delete_alternative] answers 200 the project has the same criteria and
    one alternative less; the others are loaded as before, with all their
    values. *)
Theorem delete_alternative_removes_row (db : Database F) now identity pid aid :
  consistent db ->
  status (snd (delete_alternative db now identity pid aid)) = 200 ->
  let p := load_project db pid in
  let p' :=
    load_project (fst (delete_alternative db now identity pid aid)) pid in
  criteria p' = criteria p /\
  alternatives p' =
    map (load_alternative db)
      (filter (fun a => negb (alternative_id a =? aid))
         (project_alternatives db pid)) /\
  S (length (alternatives p')) = length (alternatives p).
Proof.
  intros Hdb H200. cbv zeta. unfold delete_alternative in *.
  destruct (find_project db identity pid) as [p|]; [| discriminate].
  destruct (find_alternative db aid pid) as [a|] eqn:Ea; [| discriminate].
  apply find_alternative_some in Ea as (Ha & Haid & Hap).
  cbn [fst]. rewrite touch_load. rewrite Haid.
  split; [reflexivity |].
  assert (Halts : alternatives
                    (load_project (delete_alternative_row db aid) pid) =
                  map (load_alternative db)
                    (filter (fun a => negb (alternative_id a =? aid))
                       (project_alternatives db pid))).
  { unfold load_project, project_alternatives, delete_alternative_row.
    cbn [alternatives alternative_table].
    rewrite filter_comm.
    apply map_ext_in. intros a0 Ha0. apply filter_In in Ha0 as [_ Hne].
    unfold load_alternative, alternative_values. cbn [value_table].
    f_equal. f_equal. apply filter_keep.
    intros v _ Hv. apply Nat.eqb_eq in Hv. now rewrite Hv. }
  split; [exact Halts |].
  rewrite Halts. unfold load_project. cbn [alternatives].
  rewrite !length_map. rewrite <- Haid. apply filter_key_length.
  - apply NoDup_map_filter, (alternative_keys Hdb).
  - apply filter_In. split; [exact Ha | now apply Nat.eqb_eq].
Qed.

End Contents.

(** ** A new criterion and the ranking *)

Section NewCriterion.
Variable new_id : list nat -> nat.

Lemma add_criterion_load (db : Database xreal) c pid :
  load_project
    (add_criterion_row db
       {| criterion_project_id := pid; criterion_columns := c |}) pid =
  {| criteria := criteria (load_project db pid) ++ [c];
     alternatives := alternatives (load_project db pid) |}.
Proof.
  unfold load_project, project_criteria, add_criterion_row.
  cbn [criteria alternatives criterion_table]. f_equal.
  rewrite filter_app, map_app. cbn [filter criterion_project_id].
  now rewrite Nat.eqb_refl.
Qed.

(** Adding a criterion to a project that has alternatives voids its
    ranking.  The new criterion gets a key that no stored value refers to,
    so the calculation reads its column as zeros; it answers 200 with every
    score 0 and the alternatives in their stored order, whatever the values
    of the other criteria, and whatever the weight and type of the new
    one. *)
Theorem add_criterion_voids_ranking (db : Database xreal) now identity pid
  n t w :
  keys_fresh new_id ->
  (forall v, In v (value_table db) ->
     In (value_criterion_id v)
       (map (@criterion_id xreal) (criterion_table db))) ->
  project_alternatives db pid <> [] ->
  status (snd (add_criterion new_id db now identity pid (Some n) (Some t)
                 (Some w))) = 201 ->
  let m := length (project_alternatives db pid) in
  exists res names cnames ranking,
    snd (calculate_topsis_route
           (fst (add_criterion new_id db now identity pid (Some n) (Some t)
                   (Some w))) identity pid) =
    Calculation (Http200 res names cnames ranking) /\
    preference_values res = Arr1 (repeat (Fin 0) m) /\
    map (@rank _) ranking = seq 1 m /\
    map (@alternative_index _) ranking = seq 0 m.
Proof.
  intros Hfresh Hvals Halts H201. cbv zeta. unfold add_criterion in *.
  destruct (find_project db identity pid) as [p|] eqn:Ep; [| discriminate].
  destruct (required (Some n)) as [n'|]; [| discriminate].
  destruct (required (Some t)) as [t'|]; [| discriminate].
  cbn [fst]. clear H201.
  set (cid := new_id (map (@criterion_id xreal) (criterion_table db))).
  set (c := {| crit_id := cid; crit_name := n'; criterion_type := t';
               weight := w |}).
  unfold calculate_topsis_route. rewrite touch_find_project.
  change (find_project (add_criterion_row db _) identity pid)
    with (find_project db identity pid).
  rewrite Ep. cbn [option_map].
  apply find_project_some in Ep as (_ & Hid & _).
  assert (Epid : project_id
                   (if project_id p =? project_id p
                    then {| project_id := project_id p;
                            project_user_id := project_user_id p;
                            project_name := project_name p;
                            creation_date := creation_date p;
                            last_modified := now |}
                    else p) = pid)
    by (now rewrite Nat.eqb_refl).
  rewrite Epid, touch_load, add_criterion_load.
  set (crits := criteria (load_project db pid)).
  set (alts := alternatives (load_project db pid)).
  assert (Hm : length alts = length (project_alternatives db pid))
    by (unfold alts, load_project; cbn [alternatives]; apply length_map).
  assert (Hne : alts <> []).
  { intros E. apply Halts. apply length_zero_iff_nil.
    rewrite <- Hm, E. reflexivity. }
  pose proof (calculate_topsis_shapes
                {| criteria := crits ++ [c]; alternatives := alts |}) as Hs.
  cbv zeta in Hs. cbn [criteria alternatives] in Hs.
  destruct Hs as (Hrect & Hlen & Hw & Ht & Hnames).
  unfold calculate_topsis. cbn [criteria alternatives].
  destruct (crits ++ [c]) as [|c0 cs] eqn:Ecs;
    [now destruct crits |].
  destruct alts as [|a al] eqn:Eal; [congruence |].
  rewrite <- Ecs, <- Eal in *. clear Ecs.
  assert (Hdata : map (fun alt => map (value_of alt) (crits ++ [c])) alts
                  <> []) by (rewrite Eal; discriminate).
  assert (Hj : length crits < length (crits ++ [c]))
    by (rewrite length_app; simpl; lia).
  assert (Hz : forall r,
             In r (map (fun alt => map (value_of alt) (crits ++ [c])) alts) ->
             nth (length crits) r (Fin 0) = Fin 0).
  { intros r Hin. apply in_map_iff in Hin as [alt [<- Halt]].
    apply nth_error_nth. rewrite nth_error_map.
    rewrite nth_error_app2, Nat.sub_diag by lia. cbn [nth_error option_map].
    f_equal. unfold value_of. rewrite find_none_all; [reflexivity |].
    intros v Hv. apply Nat.eqb_neq. cbn [crit_id c]. intros E.
    unfold alts, load_project in Halt. cbn [alternatives] in Halt.
    apply in_map_iff in Halt as [row [<- _]].
    unfold load_alternative, alternative_values in Hv. cbn [alt_values] in Hv.
    apply in_map_iff in Hv as [vr [<- Hvr]].
    apply filter_In in Hvr as [Hvr _].
    apply (Hfresh (map (@criterion_id xreal) (criterion_table db))).
    fold cid. rewrite <- E. now apply Hvals. }
  destruct (@zero_column_ranking _ _ _ _ _ (length crits) Hdata Hrect Hw Ht
              Hnames Hj Hz) as (res & ranking & Hrun & Hpv & Hranks & Hidx).
  rewrite Hrun. cbn [bind snd]. rewrite Hlen, Hm in *.
  do 4 eexists. split; [reflexivity |]. auto.
Qed.

End NewCriterion.

(** ** The other projects *)

Section Isolation.
Context {F : Type} {FO : Float64 F}.
Variable generate_password_hash : string -> string -> string.
Variable check_password_hash : string -> string -> bool.
Variable create_access_token : nat -> string.
Variable new_id : list nat -> nat.

Lemma same_project_refl (db : Database F) pid : same_project db db pid.
Proof. repeat split; auto. Qed.

Lemma same_project_trans (db1 db2 db3 : Database F) pid :
  same_project db1 db2 pid -> same_project db2 db3 pid ->
  same_project db1 db3 pid.
Proof.
  intros (A1 & B1 & C1 & D1) (A2 & B2 & C2 & D2).
  split; [intros caller; now rewrite A2, A1 |].
  split; [now rewrite B2, B1 |]. split; [now rewrite C2, C1 |].
  intros a Ha. rewrite D2 by (now rewrite C1). now apply D1.
Qed.

Lemma same_project_replies (db db' : Database F) pid caller :
  same_project db db' pid ->
  snd (get_project db' caller pid) = snd (get_project db caller pid) /\
  snd (calculate_topsis_route db' caller pid) =
  snd (calculate_topsis_route db caller pid).
Proof.
  intros (A & B & C & D).
  assert (Hload : forall p, find_project db caller pid = Some p ->
            map (fun a => (alternative_id a, load_alternative db' a))
              (project_alternatives db' (project_id p)) =
            map (fun a => (alternative_id a, load_alternative db a))
              (project_alternatives db (project_id p)) /\
            load_project db' (project_id p) = load_project db (project_id p) /\
            project_criteria db' (project_id p) =
            project_criteria db (project_id p)).
  { intros p Hp. apply find_project_some in Hp as (_ & -> & _).
    assert (E : forall a, In a (project_alternatives db pid) ->
                  load_alternative db' a = load_alternative db a).
    { intros a Ha. unfold load_alternative. now rewrite D. }
    split; [| split; [| exact B]].
    - rewrite C. apply map_ext_in. intros a Ha. now rewrite E.
    - unfold load_project. rewrite B, C. f_equal. now apply map_ext_in. }
  unfold get_project, calculate_topsis_route. rewrite A.
  destruct (find_project db caller pid) as [p|] eqn:Ep; [| split; reflexivity].
  destruct (Hload p eq_refl) as (H1 & H2 & H3).
  cbn [snd option_map]. rewrite H1, H2, H3. split; [reflexivity |].
  now destruct (calculate_topsis _).
Qed.

Lemma touch_same_project (db : Database F) pid now other :
  other <> pid -> same_project db (touch db pid now) other.
Proof.
  intros Hne. split; [| repeat split; auto].
  intros caller. rewrite touch_find_project.
  destruct (find_project db caller other) as [p|] eqn:Ep; [| reflexivity].
  apply find_project_some in Ep as (_ & Hid & _). cbn [option_map].
  apply Nat.eqb_neq in Hne. now rewrite Hid, Hne.
Qed.

Lemma add_criterion_row_same_project (db : Database F) c other :
  criterion_project_id c <> other ->
  same_project db (add_criterion_row db c) other.
Proof.
  intros Hne. repeat split; auto.
  unfold project_criteria, add_criterion_row. cbn [criterion_table].
  rewrite filter_app. cbn [filter]. apply Nat.eqb_neq in Hne.
  now rewrite Hne, app_nil_r.
Qed.

Lemma delete_criterion_row_same_project (db : Database F) c other :
  consistent db -> In c (criterion_table db) ->
  criterion_project_id c <> other ->
  (forall v a, In v (value_table db) -> In a (alternative_table db) ->
     value_alternative_id v = alternative_id a ->
     alternative_project_id a = other ->
     value_criterion_id v <> criterion_id c) ->
  same_project db (delete_criterion_row db (criterion_id c)) other.
Proof.
  intros Hdb Hc Hne Hvals. repeat split; auto.
  - unfold project_criteria, delete_criterion_row. cbn [criterion_table].
    f_equal. apply filter_keep. intros x Hx Ex.
    apply Nat.eqb_eq in Ex. apply negb_true_iff, Nat.eqb_neq. intros E.
    apply Hne. rewrite <- Ex. f_equal.
    symmetry.
    eapply NoDup_map_eq; [exact (criterion_keys Hdb) | | |]; eassumption.
  - intros a Ha. apply filter_In in Ha as [Ha Ea]. apply Nat.eqb_eq in Ea.
    unfold alternative_values, delete_criterion_row. cbn [value_table].
    f_equal. apply filter_keep. intros v Hv Ev. apply Nat.eqb_eq in Ev.
    apply negb_true_iff, Nat.eqb_neq. now apply (Hvals v a).
Qed.

Lemma delete_alternative_row_same_project (db : Database F) a0 other :
  consistent db -> In a0 (alternative_table db) ->
  alternative_project_id a0 <> other ->
  same_project db (delete_alternative_row db (alternative_id a0)) other.
Proof.
  intros Hdb Ha0 Hne.
  assert (Hother : forall a, In a (alternative_table db) ->
                     alternative_project_id a = other ->
                     alternative_id a <> alternative_id a0).
  { intros a Ha Ea E. apply Hne. rewrite <- Ea. f_equal.
    symmetry.
    eapply NoDup_map_eq; [exact (alternative_keys Hdb) | | |]; eassumption. }
  repeat split; auto.
  - unfold project_alternatives, delete_alternative_row.
    cbn [alternative_table]. apply filter_keep. intros a Ha Ea.
    apply Nat.eqb_eq in Ea. apply negb_true_iff, Nat.eqb_neq.
    now apply Hother.
  - intros a Ha. apply filter_In in Ha as [Ha Ea]. apply Nat.eqb_eq in Ea.
    unfold alternative_values, delete_alternative_row. cbn [value_table].
    f_equal. apply filter_keep. intros v Hv Ev. apply Nat.eqb_eq in Ev.
    apply negb_true_iff, Nat.eqb_neq. rewrite Ev. now apply Hother.
Qed.

Lemma add_alternative_rows_same_project (db : Database F) a values other :
  keys_fresh new_id ->
  alternative_id a = new_id (map alternative_id (alternative_table db)) ->
  alternative_project_id a <> other ->
  same_project db
    (fold_left (fun d v => add_value_row new_id d (alternative_id a) v)
       values (add_alternative_row db a)) other.
Proof.
  intros Hfresh Hid Hne.
  destruct (add_values_tables new_id (alternative_id a) values
              (add_alternative_row db a)) as (rows & -> & _ & Haid & _).
  repeat split; auto.
  - unfold project_alternatives, add_alternative_row.
    cbn [alternative_table]. rewrite filter_app. cbn [filter].
    apply Nat.eqb_neq in Hne. now rewrite Hne, app_nil_r.
  - intros a1 Ha1. apply filter_In in Ha1 as [Ha1 _].
    unfold alternative_values, add_alternative_row. cbn [value_table].
    f_equal. rewrite filter_app.
    rewrite (@filter_nothing _ _ rows); [apply app_nil_r |].
    intros r Hr. apply Nat.eqb_neq. rewrite (Haid r Hr), Hid. intros E.
    apply (Hfresh (map alternative_id (alternative_table db))).
    rewrite E. now apply in_map.
Qed.

Lemma delete_project_row_same_project (db : Database F) pid other :
  consistent db -> other <> pid ->
  (forall v a c, In v (value_table db) -> In a (alternative_table db) ->
     In c (criterion_table db) ->
     value_alternative_id v = alternative_id a ->
     value_criterion_id v = criterion_id c ->
     alternative_project_id a = other -> criterion_project_id c <> pid) ->
  same_project db (delete_project_row db pid) other.
Proof.
  intros Hdb Hne Hvals. unfold delete_project_row.
  rewrite delete_alternatives_tables, delete_criteria_tables.
  cbn [users projects criterion_table alternative_table value_table].
  set (cs := map (@crit_id F) (project_criteria db pid)).
  set (al := map alternative_id (project_alternatives db pid)).
  assert (Hcs : forall k, In k cs ->
            exists c, In c (criterion_table db) /\ criterion_id c = k /\
                      criterion_project_id c = pid).
  { intros k Hk. unfold cs, project_criteria in Hk. rewrite map_map in Hk.
    apply in_map_iff in Hk as [c [Ek Hc]]. apply filter_In in Hc as [Hc Ep].
    apply Nat.eqb_eq in Ep. now exists c. }
  assert (Hal : forall k, In k al ->
            exists a, In a (alternative_table db) /\ alternative_id a = k /\
                      alternative_project_id a = pid).
  { intros k Hk. unfold al, project_alternatives in Hk.
    apply in_map_iff in Hk as [a [Ek Ha]]. apply filter_In in Ha as [Ha Ep].
    apply Nat.eqb_eq in Ep. now exists a. }
  assert (Hkeep_alt : forall a, In a (alternative_table db) ->
            alternative_project_id a = other ->
            existsb (Nat.eqb (alternative_id a)) al = false).
  { intros a Ha Ea. apply not_true_iff_false. intros Hin.
    apply existsb_eqb_in, Hal in Hin as (a' & Ha' & Eid & Ep).
    apply Hne. rewrite <- Ea, <- Ep. f_equal.
    symmetry.
    eapply NoDup_map_eq; [exact (alternative_keys Hdb) | | |]; eassumption. }
  split; [| split; [| split]].
  - intros caller. unfold find_project. cbn [projects].
    apply find_filter. intros p _ Hp. apply andb_true_iff in Hp as [Hp _].
    apply Nat.eqb_eq in Hp. apply negb_true_iff, Nat.eqb_neq. congruence.
  - unfold project_criteria. cbn [criterion_table]. f_equal.
    apply filter_keep. intros c Hc Ec. apply Nat.eqb_eq in Ec.
    apply negb_true_iff, not_true_iff_false. intros Hin.
    apply existsb_eqb_in, Hcs in Hin as (c' & Hc' & Eid & Ep).
    apply Hne. rewrite <- Ec, <- Ep. f_equal.
    symmetry.
    eapply NoDup_map_eq; [exact (criterion_keys Hdb) | | |]; eassumption.
  - unfold project_alternatives. cbn [alternative_table].
    apply filter_keep. intros a Ha Ea. apply Nat.eqb_eq in Ea.
    apply negb_true_iff. now apply Hkeep_alt.
  - intros a Ha. apply filter_In in Ha as [Ha Ea]. apply Nat.eqb_eq in Ea.
    unfold alternative_values. cbn [value_table]. f_equal.
    rewrite filter_keep.
    + apply filter_keep. intros v Hv Ev. apply Nat.eqb_eq in Ev.
      apply negb_true_iff, not_true_iff_false. intros Hin.
      apply existsb_eqb_in, Hcs in Hin as (c & Hc & Eid & Ep).
      now apply (Hvals v a c).
    + intros v Hv Ev. apply Nat.eqb_eq in Ev. apply filter_In in Hv as [Hv _].
      apply negb_true_iff. rewrite Ev. now apply Hkeep_alt.
Qed.

(** A request on one project leaves the others as they were.  After any
    request on project [pid], whether it is served or refused, every other
    project is read and calculated with the same reply as before, for every
    caller.  Keys are unique, so a deletion never hits a row of another
    project; the one condition is on the stored values, which
    [add_alternative] accepts unchecked: no value of the other project may
    be stored for a criterion of [pid], or the cascade of a deletion takes
    it away. *)
Theorem other_projects_untouched w (db : Database F) r identity pid other :
  keys_fresh new_id -> consistent db ->
  scope r = Some (identity, pid) -> other <> pid ->
  (forall v a c, In v (value_table db) -> In a (alternative_table db) ->
     In c (criterion_table db) ->
     value_alternative_id v = alternative_id a ->
     value_criterion_id v = criterion_id c ->
     alternative_project_id a = other -> criterion_project_id c <> pid) ->
  let db' := fst (handle generate_password_hash check_password_hash
                    create_access_token new_id w db r) in
  forall caller,
    snd (get_project db' caller other) = snd (get_project db caller other) /\
    snd (calculate_topsis_route db' caller other) =
    snd (calculate_topsis_route db caller other).
Proof.
  intros Hfresh Hdb Hscope Hne Hvals. cbv zeta. intros caller.
  apply same_project_replies.
  destruct r; simpl in Hscope; inversion Hscope; subst; cbn [handle].
  - unfold get_project. destruct (find_project db identity pid);
      apply same_project_refl.
  - unfold delete_project.
    destruct (find_project db identity pid) as [p|] eqn:Ep;
      [| apply same_project_refl].
    apply find_project_some in Ep as (_ & -> & _). cbn [fst].
    now apply delete_project_row_same_project.
  - unfold add_criterion.
    destruct (find_project db identity pid) as [p|] eqn:Ep;
      [| apply same_project_refl].
    apply find_project_some in Ep as (_ & Hid & _).
    destruct (required name); [| apply same_project_refl].
    destruct (required ctype); [| apply same_project_refl].
    destruct w0; [| apply same_project_refl].
    cbn [fst].
    eapply same_project_trans; [| apply touch_same_project; congruence].
    apply add_criterion_row_same_project. simpl. congruence.
  - unfold delete_criterion.
    destruct (find_project db identity pid) as [p|] eqn:Ep;
      [| apply same_project_refl].
    apply find_project_some in Ep as (_ & Hid & _).
    destruct (find_criterion db cid pid) as [c|] eqn:Ec;
      [| apply same_project_refl].
    apply find_criterion_some in Ec as (Hc & _ & Hcp).
    cbn [fst].
    eapply same_project_trans; [| apply touch_same_project; congruence].
    apply delete_criterion_row_same_project; [exact Hdb | exact Hc | |].
    + congruence.
    + intros v a Hv Ha Ev Ea E. now apply (Hvals v a c).
  - unfold add_alternative.
    destruct (find_project db identity pid) as [p|] eqn:Ep;
      [| apply same_project_refl].
    apply find_project_some in Ep as (_ & Hid & _).
    destruct (required name) as [n|]; [| apply same_project_refl].
    cbv zeta. cbn [fst].
    eapply same_project_trans; [| apply touch_same_project; congruence].
    apply add_alternative_rows_same_project;
      [exact Hfresh | reflexivity | simpl; congruence].
  - unfold delete_alternative.
    destruct (find_project db identity pid) as [p|] eqn:Ep;
      [| apply same_project_refl].
    apply find_project_some in Ep as (_ & Hid & _).
    destruct (find_alternative db aid pid) as [a|] eqn:Ea;
      [| apply same_project_refl].
    apply find_alternative_some in Ea as (Ha & _ & Hap).
    cbn [fst].
    eapply same_project_trans; [| apply touch_same_project; congruence].
    apply delete_alternative_row_same_project;
      [exact Hdb | exact Ha | congruence].
  - unfold calculate_topsis_route. destruct (calculate_topsis _);
      apply same_project_refl.
Qed.

End Isolation.

(** ** Refused requests and stored values *)

Section Refusals.
Context {F : Type} {FO : Float64 F}.
Variable generate_password_hash : string -> string -> string.
Variable check_password_hash : string -> string -> bool.
Variable create_access_token : nat -> string.
Variable new_id : list nat -> nat.

(** A request that is not answered 200 or 201 stores nothing: no handler
    writes before it refuses, and none leaves a write half done. *)
Theorem refused_request_stores_nothing w (db : Database F) r :
  status (snd (handle generate_password_hash check_password_hash
                 create_access_token new_id w db r)) <> 200 ->
  status (snd (handle generate_password_hash check_password_hash
                 create_access_token new_id w db r)) <> 201 ->
  fst (handle generate_password_hash check_password_hash create_access_token
         new_id w db r) = db.
Proof.
  intros H200 H201. destruct r; cbn [handle] in *.
  - unfold register in *. destruct (required email); [| reflexivity].
    destruct (required password); [| reflexivity].
    destruct (user_by_email db email); [reflexivity |].
    now contradiction H201.
  - unfold login. destruct (user_by_email db email); [| reflexivity].
    now destruct (check_password_hash _ _).
  - reflexivity.
  - unfold create_project in *. destruct (required name); [| reflexivity].
    now contradiction H201.
  - unfold get_project. now destruct (find_project db identity pid).
  - unfold delete_project in *.
    destruct (find_project db identity pid); [| reflexivity].
    now contradiction H200.
  - unfold add_criterion in *.
    destruct (find_project db identity pid); [| reflexivity].
    destruct (required name); [| reflexivity].
    destruct (required ctype); [| reflexivity].
    destruct w0; [| reflexivity]. now contradiction H201.
  - unfold delete_criterion in *.
    destruct (find_project db identity pid); [| reflexivity].
    destruct (find_criterion db cid pid); [| reflexivity].
    now contradiction H200.
  - unfold add_alternative in *.
    destruct (find_project db identity pid); [| reflexivity].
    destruct (required name); [| reflexivity]. now contradiction H201.
  - unfold delete_alternative in *.
    destruct (find_project db identity pid); [| reflexivity].
    destruct (find_alternative db aid pid); [| reflexivity].
    now contradiction H200.
  - unfold calculate_topsis_route. now destruct (calculate_topsis _).
  - unfold update_theme in *. destruct theme as [t|]; [| reflexivity].
    destruct ((t =? "light")%string || (t =? "dark")%string);
      [| reflexivity].
    destruct (user_by_id db identity); [| reflexivity].
    now contradiction H200.
  - unfold get_current_user. now destruct (user_by_id db identity).
Qed.

(** The value the calculation reads for a criterion.  When an alternative
    stores at most one value per criterion, the entry of the decision matrix
    is the value stored for that criterion, wherever it stands in the list;
    so an alternative sent with one value for each criterion enters the
    matrix with exactly these values. *)
Theorem value_of_stored (alt : Alternative F) (crit : Criterion F) v :
  NoDup (map (@acv_criterion_id F) (alt_values alt)) ->
  In v (alt_values alt) -> acv_criterion_id v = crit_id crit ->
  value_of alt crit = acv_value v.
Proof.
  unfold value_of. destruct alt as [name values]. cbn [alt_values].
  induction values as [|x values IH]; intros Hnd Hin Hv; [contradiction |].
  inversion Hnd as [| ? ? Hx Hvalues]; subst. cbn [find].
  destruct Hin as [-> | Hin].
  - apply Nat.eqb_eq in Hv. now rewrite Hv.
  - destruct (acv_criterion_id x =? crit_id crit) eqn:E; [| now apply IH].
    exfalso. apply Nat.eqb_eq in E. apply Hx. rewrite E, <- Hv.
    now apply in_map.
Qed.

End Refusals.

(** * The properties of the routes at concrete inputs *)

Lemma next_key_fresh : keys_fresh next_key.
Proof.
  intros l Hin. unfold next_key in Hin.
  assert (H : forall x, In x l -> x <= list_max l).
  { apply Forall_forall. now apply list_max_le. }
  apply H in Hin. lia.
Qed.

Lemma stored_consistent : consistent stored.
Proof.
  unfold stored, serve.
  apply fold_consistent; [| apply create_all_consistent].
  intros d [w r] Hd. apply handle_consistent; [apply next_key_fresh | exact Hd].
Qed.

Lemma stored_tables :
  stored =
  {| users :=
       [{| user_id := 1; user_email := "ann@example.org";
           user_password := "pw-ann"; registration_date := 12;
           theme_preference := "light" |};
        {| user_id := 2; user_email := "bob@example.org";
           user_password := "pw-bob"; registration_date := 12;
           theme_preference := "light" |}];
     projects :=
       [{| project_id := 1; project_user_id := 1; project_name := "cars";
           creation_date := 12; last_modified := 12 |};
        {| project_id := 2; project_user_id := 2; project_name := "phones";
           creation_date := 12; last_modified := 12 |}];
     criterion_table :=
       [{| criterion_project_id := 1;
           criterion_columns :=
             {| crit_id := 1; crit_name := "price"; criterion_type := "cost";
                weight := Fin 1 |} |};
        {| criterion_project_id := 1;
           criterion_columns :=
             {| crit_id := 2; crit_name := "speed";
                criterion_type := "benefit"; weight := Fin 1 |} |};
        {| criterion_project_id := 2;
           criterion_columns :=
             {| crit_id := 3; crit_name := "battery";
                criterion_type := "benefit"; weight := Fin 1 |} |}];
     alternative_table :=
       [{| alternative_id := 1; alternative_project_id := 1;
           alternative_row_name := "a" |};
        {| alternative_id := 2; alternative_project_id := 1;
           alternative_row_name := "b" |};
        {| alternative_id := 3; alternative_project_id := 2;
           alternative_row_name := "p" |}];
     value_table :=
       [{| value_id := 1; value_alternative_id := 1;
           value_columns := {| acv_criterion_id := 1; acv_value := Fin 3 |} |};
        {| value_id := 2; value_alternative_id := 1;
           value_columns := {| acv_criterion_id := 2; acv_value := Fin 4 |} |};
        {| value_id := 3; value_alternative_id := 2;
           value_columns := {| acv_criterion_id := 1; acv_value := Fin 5 |} |};
        {| value_id := 4; value_alternative_id := 2;
           value_columns := {| acv_criterion_id := 2; acv_value := Fin 6 |} |};
        {| value_id := 5; value_alternative_id := 3;
           value_columns := {| acv_criterion_id := 3; acv_value := Fin 7 |} |}]
  |}%string.
Proof. reflexivity. Qed.

Ltac each_row :=
  repeat match goal with
         | H : _ \/ _ |- _ => destruct H as [<- | H]
         | H : False |- _ => destruct H
         end.

Lemma served_database_consistent_witness : consistent stored.
Proof.
  exact (@served_database_consistent xreal _ plain_hash plain_check
           plain_token next_key next_key_fresh two_projects).
Defined.

Lemma foreign_project_not_found_witness :
  fst (handle plain_hash plain_check plain_token next_key at_noon stored
         (DELETE_project 2 1)) = stored /\
  status (snd (handle plain_hash plain_check plain_token next_key at_noon
                 stored (DELETE_project 2 1))) = 404.
Proof.
  apply (@foreign_project_not_found xreal _ plain_hash plain_check
           plain_token next_key at_noon stored (DELETE_project 2 1) 2 1);
    [reflexivity |].
  intros p Hp. rewrite stored_tables in Hp. simpl in Hp.
  each_row; simpl; congruence.
Defined.

Lemma register_then_login_witness :
  snd (login plain_check plain_token
         (fst (register plain_hash next_key stored 13 "salt"
                 (Some "eve@example.org") (Some "pw-eve")))
         (Some "eve@example.org") "pw-eve")%string =
  Reply 200 (Session "token" 3 "eve@example.org" "light").
Proof.
  destruct (@register_then_login xreal plain_hash plain_check plain_token
              next_key stored 13 "salt" "eve@example.org" "pw-eve")
    as [H _];
    [intros s x; apply String.eqb_refl | reflexivity |].
  cbv zeta in H. rewrite H. reflexivity.
Defined.

Lemma create_project_then_get_witness :
  snd (get_project
         (fst (create_project next_key stored 12 12 1 (Some "boats"%string)))
         1 3) =
  Reply 200 (ProjectDetail 3 "boats" [] []).
Proof.
  destruct (@create_project_then_get xreal _ next_key stored 12 12 1 "boats"
              next_key_fresh stored_consistent) as (_ & H & _);
    [discriminate | exact H].
Defined.

Lemma add_alternative_then_load_witness :
  alternatives
    (load_project
       (fst (add_alternative next_key stored 12 1 1 (Some "c"%string)
               [{| acv_criterion_id := 2; acv_value := Fin 9 |}])) 1) =
  alternatives (load_project stored 1) ++
  [{| alt_name := "c"; alt_values :=
        [{| acv_criterion_id := 2; acv_value := Fin 9 |}] |}].
Proof.
  rewrite (@add_alternative_then_load xreal next_key stored 12 1 1 "c"
             [{| acv_criterion_id := 2; acv_value := Fin 9 |}]
             next_key_fresh stored_consistent);
    reflexivity.
Defined.

Lemma delete_project_removes_everything_witness :
  project_criteria (fst (delete_project stored 1 1)) 1 = [] /\
  project_alternatives (fst (delete_project stored 1 1)) 1 = [] /\
  status (snd (get_project (fst (delete_project stored 1 1)) 1 1)) = 404.
Proof.
  destruct (@delete_project_removes_everything xreal stored 1 1)
    as (H1 & H2 & H3 & _); [reflexivity | auto].
Defined.

Lemma delete_criterion_removes_column_witness :
  map (@crit_name xreal)
    (criteria (load_project (fst (delete_criterion stored 12 1 1 1)) 1)) =
  ["speed"%string].
Proof.
  destruct (@delete_criterion_removes_column xreal _ stored 12 1 1 1
              stored_consistent) as (H & _); [reflexivity |].
  rewrite H. reflexivity.
Defined.

Lemma delete_alternative_removes_row_witness :
  map (@alt_name xreal)
    (alternatives
       (load_project (fst (delete_alternative stored 12 1 1 1)) 1)) =
  ["b"%string].
Proof.
  destruct (@delete_alternative_removes_row xreal stored 12 1 1 1
              stored_consistent) as (_ & H & _); [reflexivity |].
  rewrite H. reflexivity.
Defined.

Lemma add_criterion_voids_ranking_witness :
  exists res names cnames ranking,
    snd (calculate_topsis_route
           (fst (add_criterion next_key stored 12 1 1 (Some "comfort")
                   (Some "benefit") (Some (Fin 1))))%string 1 1) =
    Calculation (Http200 res names cnames ranking) /\
    preference_values res = Arr1 [Fin 0; Fin 0].
Proof.
  destruct (@add_criterion_voids_ranking next_key stored 12 1 1 "comfort"
              "benefit" (Fin 1) next_key_fresh)
    as (res & names & cnames & ranking & H1 & H2 & _).
  - intros v Hv. rewrite stored_tables in *. simpl in Hv.
    each_row; simpl; tauto.
  - rewrite stored_tables. discriminate.
  - reflexivity.
  - exists res, names, cnames, ranking. split; [exact H1 | exact H2].
Defined.

Lemma other_projects_untouched_witness :
  snd (get_project
         (fst (handle plain_hash plain_check plain_token next_key at_noon
                 stored (DELETE_project 1 1))) 2 2) =
  snd (get_project stored 2 2).
Proof.
  apply (@other_projects_untouched xreal _ plain_hash plain_check plain_token
           next_key at_noon stored (DELETE_project 1 1) 1 1 2
           next_key_fresh stored_consistent eq_refl).
  - discriminate.
  - intros v a c Hv Ha Hc. rewrite stored_tables in *.
    simpl in Hv, Ha, Hc.
    each_row; unfold value_criterion_id, criterion_id; simpl; congruence.
Defined.

Lemma refused_request_stores_nothing_witness :
  fst (handle plain_hash plain_check plain_token next_key at_noon stored
         (POST_criteria 1 1 (Some "comfort"%string) None (Some (Fin 1)))) =
  stored.
Proof.
  apply (@refused_request_stores_nothing xreal _ plain_hash plain_check
           plain_token next_key at_noon stored
           (POST_criteria 1 1 (Some "comfort"%string) None (Some (Fin 1))));
    discriminate.
Defined.

Lemma value_of_stored_witness :
  value_of
    {| alt_name := "a";
       alt_values := [{| acv_criterion_id := 2; acv_value := Fin 4 |};
                      {| acv_criterion_id := 1; acv_value := Fin 3 |}] |}
    {| crit_id := 1; crit_name := "price"; criterion_type := "cost";
       weight := Fin 1 |} = Fin 3.
Proof.
  apply (@value_of_stored xreal _
           {| alt_name := "a";
              alt_values := [{| acv_criterion_id := 2; acv_value := Fin 4 |};
                             {| acv_criterion_id := 1; acv_value := Fin 3 |}] |}
           {| crit_id := 1; crit_name := "price"; criterion_type := "cost";
              weight := Fin 1 |}
           {| acv_criterion_id := 1; acv_value := Fin 3 |}).
  - simpl. repeat constructor; simpl; intuition congruence.
  - simpl. now right; left.
  - reflexivity.
Defined.
